(** * pytest-bdd feature-file parser: a shallow embedding of [parser.py]

    The development follows [src/pytest_bdd/parser.py]: the line
    classifier ([split_line], [parse_line], [strip_comments],
    [get_step_type], [get_tags]), the document classes ([Feature],
    [ScenarioTemplate], [Background], [Step], [Examples], [Scenario]), the
    single-pass parser [parse_feature], the renderer and the validator.

    Text is a list of characters; a character is an [ascii], read as one of
    the code points 0 to 255.  Python objects that are shared and mutated
    (steps, scenario templates, backgrounds) live in a store and are named
    by handles; an attribute that [__init__] never assigned is [None] in
    the record and reading it raises [AttributeError]. *)

From Stdlib Require Import Ascii String Lia.
From Stdlib.Strings Require Import Byte.
From stdpp Require Import gmap strings list fin_maps.

Set Warnings "-via-type-mismatch".

(** ** Text *)

Abbreviation str := (list ascii).

Inductive str_literal := LitEnd | LitChar (c : ascii) (l : str_literal).

Fixpoint literal_of_bytes (bs : list Byte.byte) : str_literal :=
  match bs with
  | [] => LitEnd
  | b :: bs' => LitChar (ascii_of_byte b) (literal_of_bytes bs')
  end.

Fixpoint bytes_of_literal (l : str_literal) : list Byte.byte :=
  match l with
  | LitEnd => []
  | LitChar c l' => byte_of_ascii c :: bytes_of_literal l'
  end.

Declare Scope py_scope.
Delimit Scope py_scope with py.
String Notation list literal_of_bytes bytes_of_literal
  (via str_literal mapping [[nil] => LitEnd, [cons] => LitChar]) : py_scope.
Open Scope py_scope.

(** The line feed and the double quote, which a literal cannot hold. *)
Definition LF : ascii := "010"%char.
Definition DQUOTE : ascii := "034"%char.

(** [str.isspace] on one character, which is also what [\s] matches in a
    [str] pattern: code points 9-13, 28-32, 133 and 160. *)
Definition isspace (c : ascii) : bool :=
  let n := nat_of_ascii c in
  ((9 <=? n) && (n <=? 13)) || ((28 <=? n) && (n <=? 32))
  || (n =? 133) || (n =? 160).

(** [s.lstrip(chars)], [s.rstrip(chars)], [s.strip(chars)] for a set of
    characters given as a predicate. *)
Fixpoint lstrip_chars (p : ascii -> bool) (s : str) : str :=
  match s with
  | [] => []
  | c :: s' => if p c then lstrip_chars p s' else s
  end.

Definition rstrip_chars (p : ascii -> bool) (s : str) : str :=
  rev (lstrip_chars p (rev s)).

Definition strip_chars (p : ascii -> bool) (s : str) : str :=
  rstrip_chars p (lstrip_chars p s).

Definition lstrip : str -> str := lstrip_chars isspace.
Definition rstrip : str -> str := rstrip_chars isspace.
Definition strip : str -> str := strip_chars isspace.

(** [s.startswith(prefix)] *)
Fixpoint startswith (s prefix : str) {struct prefix} : bool :=
  match prefix with
  | [] => true
  | p :: prefix' =>
      match s with
      | [] => false
      | c :: s' => Ascii.eqb c p && startswith s' prefix'
      end
  end.

(** [s.split(sep)] for a non-empty separator: the pieces between the
    occurrences of [sep], found from the left and not overlapping.  [skip]
    counts the characters of an occurrence still to pass over, [cur] holds
    the piece being read, reversed. *)
Fixpoint str_split_from (sep : str) (skip : nat) (cur : str) (s : str) : list str :=
  match s with
  | [] => [rev cur]
  | c :: s' =>
      match skip with
      | S k => str_split_from sep k cur s'
      | O =>
          if startswith s sep
          then rev cur :: str_split_from sep (length sep - 1) [] s'
          else str_split_from sep 0 (c :: cur) s'
      end
  end.

Definition str_split (sep : str) (s : str) : list str := str_split_from sep 0 [] s.

(** [s.replace(old, new)] for a non-empty [old]. *)
Fixpoint str_replace_from (old new : str) (skip : nat) (s : str) : str :=
  match s with
  | [] => []
  | c :: s' =>
      match skip with
      | S k => str_replace_from old new k s'
      | O =>
          if startswith s old
          then new ++ str_replace_from old new (length old - 1) s'
          else c :: str_replace_from old new 0 s'
      end
  end.

Definition str_replace (old new : str) (s : str) : str := str_replace_from old new 0 s.

(** [sep.join(pieces)] *)
Fixpoint str_join (sep : str) (pieces : list str) : str :=
  match pieces with
  | [] => []
  | [p] => p
  | p :: ps => p ++ sep ++ str_join sep ps
  end.

(** [l[1:-1]] *)
Definition slice_1_m1 {A} (l : list A) : list A := removelast (tail l).

(** ** Classifier *)

(** Modelled from the spec: the constants of the module [types], which is
    imported by [parser.py] and is not part of the sources at hand.  They
    are distinct words and the only one found inside the text of [FEATURE]
    is [FEATURE] itself, so the test [prev_mode not in types.FEATURE] of
    [parse_feature] is [prev_mode <> FEATURE]. *)
Inductive Mode :=
| FEATURE | SCENARIO_OUTLINE | EXAMPLES | EXAMPLES_HEADERS | EXAMPLE_LINE
| SCENARIO | BACKGROUND | GIVEN | WHEN | THEN | TAG.

Global Instance Mode_eq_dec : EqDecision Mode.
Proof. solve_decision. Defined.

(** Modelled from the spec: [types.STEP_TYPES], the three step types. *)
Definition STEP_TYPES : list Mode := [GIVEN; WHEN; THEN].

Definition STEP_PREFIXES : list (str * option Mode) :=
  [ ("Feature: ", Some FEATURE);
    ("Scenario Outline: ", Some SCENARIO_OUTLINE);
    ("Examples:", Some EXAMPLES);
    ("Scenario: ", Some SCENARIO);
    ("Background:", Some BACKGROUND);
    ("Given ", Some GIVEN);
    ("When ", Some WHEN);
    ("Then ", Some THEN);
    ("@", Some TAG);
    ("And ", None);
    ("But ", None) ].

(** [SPLIT_LINE_RE.split(line)] for [(?<!\\)\|]: the separators are the
    pipes whose preceding character, if any, is not a backslash.  [prev]
    is the character before [s] in the line. *)
Fixpoint SPLIT_LINE_RE_split_from (prev : option ascii) (cur : str) (s : str) : list str :=
  match s with
  | [] => [rev cur]
  | c :: s' =>
      if Ascii.eqb c "|" && negb (bool_decide (prev = Some "\"%char))
      then rev cur :: SPLIT_LINE_RE_split_from (Some c) [] s'
      else SPLIT_LINE_RE_split_from (Some c) (c :: cur) s'
  end.

Definition SPLIT_LINE_RE_split (line : str) : list str :=
  SPLIT_LINE_RE_split_from None [] line.

Definition split_line (line : str) : list str :=
  map (fun cell => strip (str_replace "\|" "|" cell))
      (slice_1_m1 (SPLIT_LINE_RE_split line)).

Fixpoint parse_line_from (prefixes : list (str * option Mode)) (line : str) : str * str :=
  match prefixes with
  | [] => ([], line)
  | (prefix, _) :: rest =>
      if startswith line prefix
      then (strip prefix, strip (drop (length prefix) line))
      else parse_line_from rest line
  end.

Definition parse_line (line : str) : str * str := parse_line_from STEP_PREFIXES line.

(** [COMMENT_RE.search(line)] for [(^|(?<=\s))#], then [line[:res.start()]]:
    the text before the first [#] that starts the line or follows a
    whitespace character; the whole line when there is none.
    [boundary] says whether a [#] met now would be such a one. *)
Fixpoint before_comment (boundary : bool) (line : str) : str :=
  match line with
  | [] => []
  | c :: line' =>
      if Ascii.eqb c "#" && boundary then []
      else c :: before_comment (isspace c) line'
  end.

Definition strip_comments (line : str) : str := strip (before_comment true line).

Fixpoint get_step_type_from (prefixes : list (str * option Mode)) (line : str) : option Mode :=
  match prefixes with
  | [] => None
  | (prefix, _type) :: rest =>
      if startswith line prefix then _type else get_step_type_from rest line
  end.

Definition get_step_type (line : str) : option Mode := get_step_type_from STEP_PREFIXES line.

Definition get_tags (line : option str) : gset str :=
  match line with
  | None => ∅
  | Some line =>
      if bool_decide (line = []) || negb (startswith (strip line) "@")
      then ∅
      else list_to_set
             (map (lstrip_chars (Ascii.eqb "@"))
                  (filter (fun tag => 1 < length tag) (str_split " @" (strip line))))
  end.

(** ** Exceptions and results *)

(** Modelled from the spec: [exceptions.FeatureError], from a module that is
    not part of the sources at hand; it carries the message, the line
    number, the line and the file name it is raised with.  The text of a
    [ValidationError] is not modelled.  [AttributeError owner attr] is
    Python's "'owner' object has no attribute 'attr'".  [InvalidHandle] is
    no Python exception: it is the outcome of following a handle that the
    store does not hold, which no Python state corresponds to. *)
Inductive exn :=
| FeatureError (message : str) (line_number : nat) (line : str) (filename : str)
| ValidationError
| AttributeError (owner attr : str)
| KeyError (key : str)
| AssertionError
| InvalidHandle.

Inductive result (A : Type) :=
| Ok (a : A)
| Raise (e : exn).
Arguments Ok {A} a.
Arguments Raise {A} e.

Global Instance result_ret : MRet result := fun _ a => Ok a.
Global Instance result_bind : MBind result :=
  fun _ _ f r => match r with Ok a => f a | Raise e => Raise e end.
Global Instance result_fmap : FMap result :=
  fun _ _ f r => match r with Ok a => Ok (f a) | Raise e => Raise e end.

(** ** Document classes *)

Abbreviation StepId := nat.
Abbreviation ScenarioId := nat.
Abbreviation BackgroundId := nat.

(** A reference to the Feature of the store: one parse builds one Feature,
    and every back-reference to a Feature is to it. *)
Inductive FeatureRef := the_feature.

Module Examples.
Record t := mk {
  example_params : list str;
  examples : list (list str);
  line_number : option nat;
  name : option str }.

(** [Examples()] *)
Definition init : t := mk [] [] None None.
Definition set_line_number (v : option nat) (e : t) : t :=
  mk (example_params e) (examples e) v (name e).
End Examples.
Abbreviation Examples := Examples.t.

Module Step.
Record t := mk {
  type : Mode;
  _name : option str;
  line_number : option nat;
  indent : nat;
  keyword : str;
  docstring : option str;
  datatable : option (list (list str));
  failed : bool;
  scenario : option ScenarioId;
  background : option BackgroundId;
  lines : list str }.

Definition set__name (v : option str) (s : t) : t :=
  mk (type s) v (line_number s) (indent s) (keyword s) (docstring s)
     (datatable s) (failed s) (scenario s) (background s) (lines s).
Definition set_line_number (v : option nat) (s : t) : t :=
  mk (type s) (_name s) v (indent s) (keyword s) (docstring s)
     (datatable s) (failed s) (scenario s) (background s) (lines s).
Definition set_scenario (v : option ScenarioId) (s : t) : t :=
  mk (type s) (_name s) (line_number s) (indent s) (keyword s) (docstring s)
     (datatable s) (failed s) v (background s) (lines s).
Definition set_background (v : option BackgroundId) (s : t) : t :=
  mk (type s) (_name s) (line_number s) (indent s) (keyword s) (docstring s)
     (datatable s) (failed s) (scenario s) v (lines s).
Definition set_lines (v : list str) (s : t) : t :=
  mk (type s) (_name s) (line_number s) (indent s) (keyword s) (docstring s)
     (datatable s) (failed s) (scenario s) (background s) v.
End Step.
Abbreviation Step := Step.t.

Module ScenarioTemplate.
Record t := mk {
  feature : option FeatureRef;
  name : str;
  line_number : nat;
  templated : bool;
  tags : gset str;
  examples : Examples;
  _steps : list StepId }.

Definition set_examples (v : Examples) (s : t) : t :=
  mk (feature s) (name s) (line_number s) (templated s) (tags s) v (_steps s).
Definition set__steps (v : list StepId) (s : t) : t :=
  mk (feature s) (name s) (line_number s) (templated s) (tags s) (examples s) v.
End ScenarioTemplate.
Abbreviation ScenarioTemplate := ScenarioTemplate.t.

Module Background.
Record t := mk {
  feature : option FeatureRef;
  line_number : nat;
  steps : list StepId }.

Definition set_steps (v : list StepId) (b : t) : t :=
  mk (feature b) (line_number b) v.
End Background.
Abbreviation Background := Background.t.

Module Feature.
(** [scenarios] is the [OrderedDict]: the entries in insertion order. *)
Record t := mk {
  scenarios : list (str * ScenarioId);
  filename : str;
  rel_filename : str;
  name : option str;
  tags : gset str;
  background : option BackgroundId;
  line_number : nat;
  description : str }.

Definition set_scenarios (v : list (str * ScenarioId)) (f : t) : t :=
  mk v (filename f) (rel_filename f) (name f) (tags f) (background f)
     (line_number f) (description f).
Definition set_name (v : option str) (f : t) : t :=
  mk (scenarios f) (filename f) (rel_filename f) v (tags f) (background f)
     (line_number f) (description f).
Definition set_tags (v : gset str) (f : t) : t :=
  mk (scenarios f) (filename f) (rel_filename f) (name f) v (background f)
     (line_number f) (description f).
Definition set_background (v : option BackgroundId) (f : t) : t :=
  mk (scenarios f) (filename f) (rel_filename f) (name f) (tags f) v
     (line_number f) (description f).
Definition set_line_number (v : nat) (f : t) : t :=
  mk (scenarios f) (filename f) (rel_filename f) (name f) (tags f)
     (background f) v (description f).
Definition set_description (v : str) (f : t) : t :=
  mk (scenarios f) (filename f) (rel_filename f) (name f) (tags f)
     (background f) (line_number f) v.
End Feature.
Abbreviation Feature := Feature.t.

Module Scenario.
Record t := mk {
  feature : option FeatureRef;
  name : str;
  line_number : nat;
  steps : list StepId;
  tags : gset str }.
End Scenario.
Abbreviation Scenario := Scenario.t.

(** The store: the Feature, and the objects that are referred to from
    several places, each kind in an arena indexed by its handles. *)
Module Store.
Record t := mk {
  feature : Feature;
  scenario_templates : list ScenarioTemplate;
  backgrounds : list Background;
  steps : list Step }.

Definition set_feature (v : Feature) (h : t) : t :=
  mk v (scenario_templates h) (backgrounds h) (steps h).
Definition set_scenario_templates (v : list ScenarioTemplate) (h : t) : t :=
  mk (feature h) v (backgrounds h) (steps h).
Definition set_backgrounds (v : list Background) (h : t) : t :=
  mk (feature h) (scenario_templates h) v (steps h).
Definition set_steps (v : list Step) (h : t) : t :=
  mk (feature h) (scenario_templates h) (backgrounds h) v.
End Store.
Abbreviation Store := Store.t.

Definition from_handle {A} (o : option A) : result A :=
  match o with
  | Some a => Ok a
  | None => Raise InvalidHandle
  end.

Definition get_step (h : Store) (i : StepId) : result Step :=
  from_handle (Store.steps h !! i).
Definition get_scenario (h : Store) (i : ScenarioId) : result ScenarioTemplate :=
  from_handle (Store.scenario_templates h !! i).
Definition get_background (h : Store) (i : BackgroundId) : result Background :=
  from_handle (Store.backgrounds h !! i).

Definition put_step (i : StepId) (s : Step) (h : Store) : Store :=
  Store.set_steps (<[i := s]> (Store.steps h)) h.
Definition put_scenario (i : ScenarioId) (s : ScenarioTemplate) (h : Store) : Store :=
  Store.set_scenario_templates (<[i := s]> (Store.scenario_templates h)) h.
Definition put_background (i : BackgroundId) (b : Background) (h : Store) : Store :=
  Store.set_backgrounds (<[i := b]> (Store.backgrounds h)) h.

(** A new object gets the next free handle of its arena. *)
Definition new_step (s : Step) (h : Store) : StepId * Store :=
  (length (Store.steps h), Store.set_steps (Store.steps h ++ [s]) h).
Definition new_scenario (s : ScenarioTemplate) (h : Store) : ScenarioId * Store :=
  (length (Store.scenario_templates h),
   Store.set_scenario_templates (Store.scenario_templates h ++ [s]) h).
Definition new_background (b : Background) (h : Store) : BackgroundId * Store :=
  (length (Store.backgrounds h), Store.set_backgrounds (Store.backgrounds h ++ [b]) h).

(** [d[key] = value] on an [OrderedDict]: a key already present keeps its
    place and takes the new value, a new key goes to the end. *)
Fixpoint odict_setitem {V} (key : str) (value : V) (d : list (str * V)) : list (str * V) :=
  match d with
  | [] => [(key, value)]
  | (k, v) :: d' =>
      if bool_decide (k = key) then (key, value) :: d'
      else (k, v) :: odict_setitem key value d'
  end.

(** ** Step *)

(** [Step.__init__]: it takes [name] and [line_number] and assigns neither
    (lines 324-331 assign [type], [indent], [keyword], [docstring],
    [datatable], [scenario], [background] and [lines] only), so [_name] and
    [line_number] are absent on the new object; [failed] is read from the
    class, where the dataclass default left it. *)
Definition Step_init (type : Mode) (name : str) (line_number : nat) (indent : nat)
    (keyword : str) : Step :=
  Step.mk type None None indent keyword None None false None None [].

(** The setter of the property [name]. *)
Definition Step_set_name (value : str) (self : Step) : Step :=
  Step.set__name (Some value) self.

Definition Step_add_line (line : str) (self : Step) : Step :=
  Step.set_lines (Step.lines self ++ [line]) self.

(** *** [textwrap.dedent]

    From Python's standard library, as CPython has it up to 3.13: lines
    made of blanks and tabs only are emptied, the margin is the longest
    run of blanks and tabs that starts every other line, and it is removed
    from the lines that start with it. *)
Definition is_blank (c : ascii) : bool := Ascii.eqb c " " || Ascii.eqb c "009".

Fixpoint take_while {A} (p : A -> bool) (l : list A) : list A :=
  match l with
  | [] => []
  | x :: l' => if p x then x :: take_while p l' else []
  end.

Fixpoint common_prefix (a b : str) : str :=
  match a, b with
  | x :: a', y :: b' => if Ascii.eqb x y then x :: common_prefix a' b' else []
  | _, _ => []
  end.

Definition dedent_margin_step (margin : option str) (indent : str) : option str :=
  match margin with
  | None => Some indent
  | Some m =>
      if startswith indent m then Some m
      else if startswith m indent then Some indent
      else Some (common_prefix m indent)
  end.

Definition dedent (text : str) : str :=
  let lines := map (fun l => if forallb is_blank l then [] else l) (str_split [LF] text) in
  let indents := map (take_while is_blank) (filter (fun l => l <> []) lines) in
  match foldl dedent_margin_step None indents with
  | Some (c :: m) =>
      let margin := c :: m in
      str_join [LF]
        (map (fun l => if startswith l margin then drop (length margin) l else l) lines)
  | _ => str_join [LF] lines
  end.

Definition endswith (s suffix : str) : bool := startswith (rev s) (rev suffix).

(** The triple-quote delimiter, alone on a line at the top and at the bottom. *)
Definition QUOTES : str := [DQUOTE; DQUOTE; DQUOTE].

(** [re.sub] of the pattern of line 347 with [\g<content>], under [DOTALL]:
    the text must open with the delimiter and a line feed; it must close
    with a line feed and the delimiter, either at its very end or before
    one last line feed, which then stays. *)
Definition remove_multiline_quotes (text : str) : str :=
  if startswith text (QUOTES ++ [LF]) then
    let body := drop 4 text in
    if endswith body (LF :: QUOTES) then take (length body - 4) body
    else if endswith body (LF :: QUOTES ++ [LF]) then take (length body - 5) body ++ [LF]
    else text
  else text.

(** The property [name]. *)
Definition Step_name (self : Step) : result str :=
  let multilines_content :=
    match Step.lines self with
    | [] => []
    | _ => dedent (str_join [LF] (Step.lines self))
    end in
  let multilines_content := remove_multiline_quotes multilines_content in
  match Step._name self with
  | None => Raise (AttributeError "Step" "_name")
  | Some _name => Ok (strip (str_join [LF] [_name; multilines_content]))
  end.

(** *** [STEP_PARAM_RE], the pattern [<(.+?)>] *)

(** After one character of [.+?] has been read: the shortest run of
    characters other than a line feed up to a [>].  Gives the rest of the
    group and the number of characters read, the [>] included. *)
Fixpoint param_close (s : str) : option (str * nat) :=
  match s with
  | [] => None
  | c :: s' =>
      if Ascii.eqb c ">" then Some ([], 1)
      else if Ascii.eqb c LF then None
      else match param_close s' with
           | Some (name, n) => Some (c :: name, S n)
           | None => None
           end
  end.

(** A match of the pattern at a [<], given the text after that [<]: the
    group and the number of characters the match takes after the [<]. *)
Definition param_match (s : str) : option (str * nat) :=
  match s with
  | [] => None
  | c :: s' =>
      if Ascii.eqb c LF then None
      else match param_close s' with
           | Some (name, n) => Some (c :: name, S n)
           | None => None
           end
  end.

Section Render.
(** A row maps parameter names to values of any type; [py_str] is
    Python's [str] on them. *)
Context {Value : Type} (py_str : Value -> str).

(** [replacer] of [Step.render] *)
Definition replacer (context : gmap str Value) (varname : str) : result str :=
  match context !! varname with
  | Some v => Ok (py_str v)
  | None => Raise (KeyError varname)
  end.

(** [STEP_PARAM_RE.sub(repl, text)]: the matches are looked for from the
    left, each one starts where the previous one ended, and [repl] is
    called on them in that order.  [skip] counts the characters of the
    current match still to pass over. *)
Fixpoint STEP_PARAM_RE_sub_from (repl : str -> result str) (skip : nat) (s : str)
    : result str :=
  match s with
  | [] => Ok []
  | c :: s' =>
      match skip with
      | S k => STEP_PARAM_RE_sub_from repl k s'
      | O =>
          if Ascii.eqb c "<" then
            match param_match s' with
            | Some (name, n) =>
                v ← repl name;
                rest ← STEP_PARAM_RE_sub_from repl n s';
                Ok (v ++ rest)
            | None => rest ← STEP_PARAM_RE_sub_from repl 0 s'; Ok (c :: rest)
            end
          else rest ← STEP_PARAM_RE_sub_from repl 0 s'; Ok (c :: rest)
      end
  end.

Definition STEP_PARAM_RE_sub (repl : str -> result str) (s : str) : result str :=
  STEP_PARAM_RE_sub_from repl 0 s.

Definition Step_render (context : gmap str Value) (self : Step) : result str :=
  name ← Step_name self;
  STEP_PARAM_RE_sub (replacer context) name.
End Render.

(** ** Examples *)

Definition Examples_set_param_names (keys : list str) (self : Examples) : Examples :=
  Examples.mk keys (Examples.examples self) (Examples.line_number self) (Examples.name self).

Definition Examples_add_example (values : list str) (self : Examples) : Examples :=
  Examples.mk (Examples.example_params self) (Examples.examples self ++ [values])
    (Examples.line_number self) (Examples.name self).

(** [dict(zip(header, row))]: a name met again takes the later cell. *)
Definition dict_zip (header row : list str) : gmap str str :=
  foldl (fun d kv => <[kv.1 := kv.2]> d) ∅ (zip header row).

(** [Examples.as_contexts]: the rows as mappings, in order, up to the first
    row whose length is not the header's, where the generator stops with
    the assertion's failure. *)
Fixpoint as_contexts_rows (header : list str) (rows : list (list str))
    : list (gmap str str) * option exn :=
  match rows with
  | [] => ([], None)
  | row :: rows' =>
      if length header =? length row then
        let '(cs, e) := as_contexts_rows header rows' in (dict_zip header row :: cs, e)
      else ([], Some AssertionError)
  end.

Definition Examples_as_contexts (self : Examples) : list (gmap str str) * option exn :=
  as_contexts_rows (Examples.example_params self) (Examples.examples self).

Definition Examples_bool (self : Examples) : bool :=
  negb (bool_decide (Examples.examples self = [])).

(** ** ScenarioTemplate and Background *)

(** [ScenarioTemplate(feature=..., name=..., line_number=..., tags=...,
    templated=...)]: [examples] is a new empty table, [_steps] is empty. *)
Definition ScenarioTemplate_init (feature : option FeatureRef) (name : str)
    (line_number : nat) (tags : gset str) (templated : bool) : ScenarioTemplate :=
  ScenarioTemplate.mk feature name line_number templated tags Examples.init [].

Definition Background_init (feature : option FeatureRef) (line_number : nat) : Background :=
  Background.mk feature line_number [].

(** [scenario.add_step(step)] for the objects behind two handles. *)
Definition ScenarioTemplate_add_step (self : ScenarioId) (step : StepId) (h : Store)
    : result Store :=
  s ← get_step h step;
  let h := put_step step (Step.set_scenario (Some self) s) h in
  sc ← get_scenario h self;
  Ok (put_scenario self
        (ScenarioTemplate.set__steps (ScenarioTemplate._steps sc ++ [step]) sc) h).

Definition Background_add_step (self : BackgroundId) (step : StepId) (h : Store)
    : result Store :=
  s ← get_step h step;
  let h := put_step step (Step.set_background (Some self) s) h in
  bg ← get_background h self;
  Ok (put_background self (Background.set_steps (Background.steps bg ++ [step]) bg) h).

(** [self.feature.background.steps if self.feature.background else []];
    a Background object is always true. *)
Definition background_steps (h : Store) (feature : option FeatureRef) : result (list StepId) :=
  match feature with
  | None => Raise (AttributeError "NoneType" "background")
  | Some the_feature =>
      match Feature.background (Store.feature h) with
      | Some b => bg ← get_background h b; Ok (Background.steps bg)
      | None => Ok []
      end
  end.

(** The property [steps]. *)
Definition ScenarioTemplate_steps (h : Store) (self : ScenarioId) : result (list StepId) :=
  sc ← get_scenario h self;
  bs ← background_steps h (ScenarioTemplate.feature sc);
  Ok (bs ++ ScenarioTemplate._steps sc).

(** [step.line_number], the attribute. *)
Definition Step_line_number (self : Step) : result nat :=
  match Step.line_number self with
  | Some n => Ok n
  | None => Raise (AttributeError "Step" "line_number")
  end.

Section RenderScenario.
Context {Value : Type} (py_str : Value -> str).

(** The list comprehension of [ScenarioTemplate.render]: one new Step per
    own step, in order; each new Step is allocated in the store. *)
Fixpoint render_steps (context : gmap str Value) (own : list StepId) (h : Store)
    : result (list StepId * Store) :=
  match own with
  | [] => Ok ([], h)
  | i :: own' =>
      step ← get_step h i;
      name ← Step_render py_str context step;
      line_number ← Step_line_number step;
      let '(j, h) :=
        new_step (Step_init (Step.type step) name line_number (Step.indent step)
                            (Step.keyword step)) h in
      '(js, h) ← render_steps context own' h;
      Ok (j :: js, h)
  end.

Definition ScenarioTemplate_render (context : gmap str Value) (self : ScenarioId)
    (h : Store) : result (Scenario * Store) :=
  sc ← get_scenario h self;
  background_steps ← background_steps h (ScenarioTemplate.feature sc);
  '(scenario_steps, h) ←
    (if ScenarioTemplate.templated sc
     then render_steps context (ScenarioTemplate._steps sc) h
     else Ok (ScenarioTemplate._steps sc, h));
  let steps := background_steps ++ scenario_steps in
  Ok (Scenario.mk (ScenarioTemplate.feature sc) (ScenarioTemplate.name sc)
        (ScenarioTemplate.line_number sc) steps (ScenarioTemplate.tags sc), h).
End RenderScenario.

(** ** Validator *)

Section Validate.
(** The tests [step.scenario != self] and [step.background != self]
    compare two objects of the store with the [__eq__] that [@dataclass]
    generates, field by field; they are read on the handles: an object
    equals itself, and two objects of one store differ (two scenarios in
    their name or line number, two backgrounds in their line number).
    This is so of every store that [parse_feature] builds, and of the
    stores made from one by assigning to a step; a store that holds two
    objects with equal fields is outside this reading.

    Building the text of a [ValidationError] formats the objects it
    names.  A Step is formatted by [Step.__str__], which reads the
    property [name]; [format_type] is [self.type.capitalize()].  A
    scenario or a background is formatted by the [__repr__] that
    [@dataclass] generates, which is not modelled: [repr_scenario] and
    [repr_background] stand for it, with any outcome. *)
Context (format_type : Mode -> str).
Context (repr_scenario : Store -> ScenarioId -> result str).
Context (repr_background : Store -> BackgroundId -> result str).

Definition Step_str (self : Step) : result str :=
  name ← Step_name self;
  Ok (format_type (Step.type self) ++ " " ++ [DQUOTE] ++ name ++ [DQUOTE]).

(** [raise ValidationError(f"...")] once the parts of the text are there *)
Definition raise_ValidationError {A} (parts : list (result str)) : result A :=
  match mapM (M := result) id parts with
  | Ok _ => Raise ValidationError
  | Raise e => Raise e
  end.

(** The body of the loop of [ScenarioTemplate.validate] for one step. *)
Definition ScenarioTemplate_validate_step (h : Store) (self : ScenarioId) (step : Step)
    : result unit :=
  match Step.background step with
  | Some b =>
      raise_ValidationError [Step_str step; repr_background h b; repr_scenario h self]
  | None =>
      if bool_decide (Step.scenario step <> Some self)
      then raise_ValidationError [Step_str step; repr_scenario h self]
      else Ok tt
  end.

Definition ScenarioTemplate_validate (h : Store) (self : ScenarioId) : result unit :=
  sc ← get_scenario h self;
  match ScenarioTemplate.feature sc with
  | None => Raise ValidationError
  | Some _ =>
      steps ← mapM (get_step h) (ScenarioTemplate._steps sc);
      _ ← mapM (ScenarioTemplate_validate_step h self) steps;
      Ok tt
  end.

Definition Background_validate_step (h : Store) (self : BackgroundId) (step : Step)
    : result unit :=
  if bool_decide (Step.background step <> Some self)
  then raise_ValidationError [Step_str step; repr_background h self]
  else match Step.scenario step with
       | Some s =>
           raise_ValidationError [Step_str step; repr_scenario h s; repr_background h self]
       | None => Ok tt
       end.

Definition Background_validate (h : Store) (self : BackgroundId) : result unit :=
  bg ← get_background h self;
  match Background.feature bg with
  | None => raise_ValidationError [repr_background h self]
  | Some _ =>
      steps ← mapM (get_step h) (Background.steps bg);
      _ ← mapM (Background_validate_step h self) steps;
      Ok tt
  end.

(** The body of the loop of [Feature.validate] for one entry. *)
Definition Feature_validate_entry (h : Store) (entry : str * ScenarioId) : result unit :=
  let '(scenario_name, scenario) := entry in
  sc ← get_scenario h scenario;
  if bool_decide (scenario_name <> ScenarioTemplate.name sc)
  then Raise ValidationError
  else ScenarioTemplate_validate h scenario.

Definition Feature_validate (h : Store) : result unit :=
  _ ← mapM (Feature_validate_entry h) (Feature.scenarios (Store.feature h));
  match Feature.background (Store.feature h) with
  | Some b => Background_validate h b
  | None => Ok tt
  end.
End Validate.

(** ** The parser *)

(** [content.splitlines()]: the lines end at a line feed, a carriage
    return (with the line feed that follows it, if any), or one of the
    code points 11, 12, 28, 29, 30 and 133. *)
Definition is_linebreak (c : ascii) : bool :=
  let n := nat_of_ascii c in
  ((10 <=? n) && (n <=? 13)) || ((28 <=? n) && (n <=? 30)) || (n =? 133).

Fixpoint splitlines_from (cur : str) (s : str) : list str :=
  match s with
  | [] => match cur with [] => [] | _ => [rev cur] end
  | c :: s' =>
      if is_linebreak c then
        rev cur ::
          match s' with
          | c' :: s'' =>
              if Ascii.eqb c "013" && Ascii.eqb c' LF
              then splitlines_from [] s''
              else splitlines_from [] s'
          | [] => []
          end
      else splitlines_from (c :: cur) s'
  end.

Definition splitlines (content : str) : list str := splitlines_from [] content.

(** The local variables of [parse_feature] that live across the lines,
    with the store that holds [feature] and the objects built so far. *)
Module ParseState.
Record t := mk {
  store : Store;
  scenario : option ScenarioId;
  mode : option Mode;
  prev_mode : option Mode;
  description : list str;
  step : option StepId;
  multiline_step : bool;
  prev_line : option str }.
End ParseState.
Abbreviation ParseState := ParseState.t.

Definition allowed_prev_mode : list Mode := [BACKGROUND; GIVEN; WHEN].

(** [x in t] for a mode that may be [None] and a tuple of modes. *)
Definition mode_in (m : option Mode) (t : list Mode) : bool :=
  match m with
  | Some m => bool_decide (m ∈ t)
  | None => false
  end.

Definition initial_state (abs_filename rel_filename : str) : ParseState :=
  ParseState.mk
    (Store.mk (Feature.mk [] abs_filename rel_filename None ∅ None 1 []) [] [] [])
    None None None [] None false None.

(** Lines 122-126: is the line taken as one more line of the step at hand? *)
Definition continues_step (st : ParseState) (line : str) : result (option StepId) :=
  let unindented_line := lstrip line in
  let line_indent := length line - length unindented_line in
  match ParseState.step st with
  | None => Ok None
  | Some i =>
      step ← get_step (ParseState.store st) i;
      if (Step.indent step <? line_indent)
         || (bool_decide (unindented_line = []) && ParseState.multiline_step st)
      then Ok (Some i)
      else Ok None
  end.

(** Lines 143-156: the Feature header, its description, or a second Feature. *)
Definition feature_mode_line (filename : str) (line_number : nat) (clean_line : str)
    (prev_mode : option Mode) (prev_line : option str) (description : list str)
    (h : Store) : result (list str * Store) :=
  match prev_mode with
  | None | Some TAG =>
      let f := Store.feature h in
      let f := Feature.set_name (Some (parse_line clean_line).2) f in
      let f := Feature.set_line_number line_number f in
      let f := Feature.set_tags (get_tags prev_line) f in
      Ok (description, Store.set_feature f h)
  | Some FEATURE => Ok (description ++ [clean_line], h)
  | Some _ =>
      Raise (FeatureError "Multiple features are not allowed in a single feature file"
               line_number clean_line filename)
  end.

(** Lines 163-189: what the line builds, by mode.  Gives the store, the
    scenario at hand, the mode and the step at hand. *)
Definition build_line (line_number line_indent : nat) (stripped_line : str)
    (keyword parsed_line : str) (prev_line : option str) (mode : option Mode)
    (scenario : option ScenarioId) (h : Store)
    : result (Store * option ScenarioId * option Mode * option StepId) :=
  match mode with
  | Some SCENARIO | Some SCENARIO_OUTLINE =>
      let tags := get_tags prev_line in
      let '(sc, h) :=
        new_scenario
          (ScenarioTemplate_init (Some the_feature) parsed_line line_number tags
             (bool_decide (mode = Some SCENARIO_OUTLINE))) h in
      let f := Store.feature h in
      let h := Store.set_feature
                 (Feature.set_scenarios (odict_setitem parsed_line sc (Feature.scenarios f)) f) h in
      Ok (h, Some sc, mode, None)
  | Some BACKGROUND =>
      let '(b, h) := new_background (Background_init (Some the_feature) line_number) h in
      let h := Store.set_feature (Feature.set_background (Some b) (Store.feature h)) h in
      Ok (h, scenario, mode, None)
  | Some EXAMPLES =>
      match scenario with
      | None => Raise (AttributeError "NoneType" "examples")
      | Some i =>
          sc ← get_scenario h i;
          let e := Examples.set_line_number (Some line_number) (ScenarioTemplate.examples sc) in
          Ok (put_scenario i (ScenarioTemplate.set_examples e sc) h,
              scenario, Some EXAMPLES_HEADERS, None)
      end
  | Some EXAMPLES_HEADERS =>
      match scenario with
      | None => Raise (AttributeError "NoneType" "examples")
      | Some i =>
          sc ← get_scenario h i;
          let keys := filter (fun l => l <> []) (split_line parsed_line) in
          let e := Examples_set_param_names keys (ScenarioTemplate.examples sc) in
          Ok (put_scenario i (ScenarioTemplate.set_examples e sc) h,
              scenario, Some EXAMPLE_LINE, None)
      end
  | Some EXAMPLE_LINE =>
      match scenario with
      | None => Raise (AttributeError "NoneType" "examples")
      | Some i =>
          sc ← get_scenario h i;
          let e := Examples_add_example (split_line stripped_line) (ScenarioTemplate.examples sc) in
          Ok (put_scenario i (ScenarioTemplate.set_examples e sc) h, scenario, mode, None)
      end
  | Some FEATURE | Some TAG | None => Ok (h, scenario, mode, None)
  | Some type =>
      let '(step, h) := new_step (Step_init type parsed_line line_number line_indent keyword) h in
      match Feature.background (Store.feature h), scenario with
      | Some b, None =>
          h ← Background_add_step b step h;
          Ok (h, scenario, mode, Some step)
      | _, Some sc =>
          h ← ScenarioTemplate_add_step sc step h;
          Ok (h, scenario, mode, Some step)
      | None, None => Raise (AttributeError "NoneType" "add_step")
      end
  end.

(** Lines 128-190: a line that is not taken into a step is classified and
    read in its mode. *)
Definition read_line (filename : str) (st : ParseState) (line_number : nat)
    (line : str) : result ParseState :=
  let unindented_line := lstrip line in
  let line_indent := length line - length unindented_line in
  let stripped_line := strip line in
  let clean_line := strip_comments line in
  let prev_mode := ParseState.prev_mode st in
  if bool_decide (clean_line = [])
     && match prev_mode with None => true | Some m => bool_decide (m <> FEATURE) end
  then Ok (ParseState.mk (ParseState.store st) (ParseState.scenario st)
             (ParseState.mode st) prev_mode (ParseState.description st)
             None false (ParseState.prev_line st))
  else
    let mode :=
      match get_step_type clean_line with
      | Some m => Some m
      | None => ParseState.mode st
      end in
    if bool_decide (ParseState.scenario st = None)
       && negb (mode_in prev_mode allowed_prev_mode)
       && mode_in mode STEP_TYPES
    then Raise (FeatureError "Step definition outside of a Scenario or a Background"
                  line_number clean_line filename)
    else
      '(description, h) ←
        (if bool_decide (mode = Some FEATURE)
         then feature_mode_line filename line_number clean_line prev_mode
                (ParseState.prev_line st) (ParseState.description st)
                (ParseState.store st)
         else Ok (ParseState.description st, ParseState.store st));
      let prev_mode := mode in
      let '(keyword, parsed_line) := parse_line clean_line in
      '(h, scenario, mode, step) ←
        build_line line_number line_indent stripped_line keyword parsed_line
          (ParseState.prev_line st) mode (ParseState.scenario st) h;
      Ok (ParseState.mk h scenario mode prev_mode description step false
            (Some clean_line)).

(** The body of the loop of [parse_feature], for one numbered line. *)
Definition parse_feature_line (filename : str) (st : ParseState) (line_number : nat)
    (line : str) : result ParseState :=
  active ← continues_step st line;
  match active with
  | Some i =>
      step ← get_step (ParseState.store st) i;
      Ok (ParseState.mk (put_step i (Step_add_line line step) (ParseState.store st))
            (ParseState.scenario st) (ParseState.mode st) (ParseState.prev_mode st)
            (ParseState.description st) (ParseState.step st) true (ParseState.prev_line st))
  | None => read_line filename st line_number line
  end.

(** [for line_number, line in enumerate(lines, start=...)] *)
Fixpoint parse_feature_lines (filename : str) (st : ParseState) (line_number : nat)
    (lines : list str) : result ParseState :=
  match lines with
  | [] => Ok st
  | line :: lines' =>
      st ← parse_feature_line filename st line_number line;
      parse_feature_lines filename st (S line_number) lines'
  end.

(** [parse_feature], from the text that [f.read()] gave: [abs_filename]
    and [rel_filename] are the two paths that [os.path] computed from
    [basedir] and [filename].  The result is the store that holds the
    Feature. *)
Definition parse_feature (abs_filename rel_filename filename : str) (content : str)
    : result Store :=
  st ← parse_feature_lines filename (initial_state abs_filename rel_filename) 1
         (splitlines content);
  let h := ParseState.store st in
  Ok (Store.set_feature
        (Feature.set_description (strip (str_join [LF] (ParseState.description st)))
           (Store.feature h)) h).

(** ** Rows, files and stores that the theorems speak of *)

(** A cell value as it is written in a row: each pipe behind a backslash. *)
Definition escape_pipes (value : str) : str :=
  flat_map (fun c => if Ascii.eqb c "|" then "\|" else [c]) value.
Arguments escape_pipes : simpl never.

(** A row: the text before the first pipe, the cells, each after a pipe,
    then the closing pipe and the text after it. *)
Definition table_row (first : str) (values : list str) (last : str) : str :=
  escape_pipes first ++ flat_map (fun v => "|" ++ escape_pipes v) values ++ "|" ++ last.

(** Every pipe of the text stands right behind a backslash, so that none
    of them is a separator; [escaped] says whether the character before
    the text is a backslash. *)
Fixpoint pipes_escaped (escaped : bool) (s : str) : bool :=
  match s with
  | [] => true
  | c :: s' => (negb (Ascii.eqb c "|") || escaped) && pipes_escaped (Ascii.eqb c "\") s'
  end.

(** The text of a cell as it stands in a row: none of its pipes is a
    separator, and it does not end with a backslash, which would escape
    the pipe that closes the cell. *)
Definition cell_text (cell : str) : Prop :=
  pipes_escaped false cell = true ∧ last cell ≠ Some "\"%char.

(** A row as it stands in the file: the text before the first separator,
    the cells, each after a separator, then the closing separator and the
    text after it. *)
Definition row_text (first : str) (cells : list str) (trailer : str) : str :=
  first ++ flat_map (fun cell => "|" ++ cell) cells ++ "|" ++ trailer.

(** The paths of the files below. *)
Definition abs_path : str := "/project/features/demo.feature".
Definition rel_path : str := "features/demo.feature".
Definition file_name : str := "demo.feature".

Definition parse_demo (lines : list str) : result Store :=
  parse_feature abs_path rel_path file_name (str_join [LF] lines).

(** A Scenario Outline with header name, age, two rows and one step. *)
Definition outline_file : list str :=
  [ "Feature: people";
    "  Scenario Outline: ages";
    "    Given <name> is <age>";
    "    Examples:";
    "    | name | age |";
    "    | Alice | 30 |";
    "    | Bob | 25 |" ].

(** The same outline with a table that has no column age. *)
Definition mismatched_file : list str :=
  [ "Feature: people";
    "  Scenario Outline: ages";
    "    Given <name> is <age>";
    "    Examples:";
    "    | name |";
    "    | Alice |" ].

(** A Background with one step, then a Scenario with two. *)
Definition background_file : list str :=
  [ "Feature: shop";
    "  Background:";
    "    Given S1";
    "  Scenario: buy";
    "    Given S2";
    "    When S3" ].

(** A step followed by an indented block of two lines between two
    delimiter lines. *)
Definition docstring_file : list str :=
  [ "Feature: text";
    "  Scenario: block";
    "    Given a document";
    "      " ++ QUOTES;
    "      first line";
    "      second line";
    "      " ++ QUOTES ].

(** Two scenarios of one step each. *)
Definition two_scenarios_file : list str :=
  [ "Feature: pair";
    "  Scenario: one";
    "    Given a";
    "  Scenario: two";
    "    Given b" ].

(** A Background with a Given and a Then, then a line that starts with And. *)
Definition then_in_background_file : list str :=
  [ "Feature: f";
    "  Background:";
    "    Given a";
    "    Then b";
    "    And c" ].

(** The document parsed from the given lines of the demo file; an empty
    one when they cannot be parsed. *)
Definition parsed (lines : list str) : Store :=
  match parse_demo lines with
  | Ok h => h
  | Raise _ => ParseState.store (initial_state abs_path rel_path)
  end.

(** [step.scenario = other] on the step behind a handle; the store is left
    as it is when the handle is not in it. *)
Definition rebind_scenario (step : StepId) (other : option ScenarioId) (h : Store) : Store :=
  match Store.steps h !! step with
  | Some s => put_step step (Step.set_scenario other s) h
  | None => h
  end.

(** [step.name = value] on the step behind a handle. *)
Definition assign_name (step : StepId) (value : str) (h : Store) : Store :=
  match Store.steps h !! step with
  | Some s => put_step step (Step_set_name value s) h
  | None => h
  end.

(** ** The parser's states *)

(** The messages of the two errors of [parse_feature]. *)
Definition structural_message : str := "Step definition outside of a Scenario or a Background".
Definition multiple_features_message : str :=
  "Multiple features are not allowed in a single feature file".

(** The mode a line is read in: its own type, or the mode at hand. *)
Definition resolved_mode (st : ParseState) (line : str) : option Mode :=
  match get_step_type (strip_comments line) with
  | Some m => Some m
  | None => ParseState.mode st
  end.

(** Neither a header of a scenario, a background or a table, nor a step. *)
Definition plain_mode (m : option Mode) : Prop :=
  m = None ∨ m = Some FEATURE ∨ m = Some TAG.

(** No scenario, no background step at hand, and nothing read so far but
    tags, the Feature header and its description. *)
Definition outside (st : ParseState) : Prop :=
  ParseState.scenario st = None ∧ ParseState.step st = None
  ∧ plain_mode (ParseState.mode st) ∧ plain_mode (ParseState.prev_mode st).

Definition is_FeatureError (e : exn) : Prop :=
  match e with FeatureError _ _ _ _ => True | _ => False end.

(** The state of the parser after the given lines of the demo file; the
    initial state when they cannot be read. *)
Definition after_lines (lines : list str) : ParseState :=
  match parse_feature_lines file_name (initial_state abs_path rel_path) 1 lines with
  | Ok st => st
  | Raise _ => initial_state abs_path rel_path
  end.

(** ** Well-formed documents *)

(** The step behind [j] refers to this scenario and to this background. *)
Definition step_refs (steps : list Step) (j : StepId)
    (scenario : option ScenarioId) (background : option BackgroundId) : Prop :=
  ∃ s, steps !! j = Some s ∧ Step.scenario s = scenario ∧ Step.background s = background.

(** A scenario that refers to the Feature and whose own steps all refer to
    it and to no background. *)
Definition scenario_ok (h : Store) (i : ScenarioId) (sc : ScenarioTemplate) : Prop :=
  ScenarioTemplate.feature sc = Some the_feature
  ∧ ∀ j, j ∈ ScenarioTemplate._steps sc → step_refs (Store.steps h) j (Some i) None.

(** A background that refers to the Feature and whose steps all refer to
    it and to no scenario. *)
Definition background_ok (h : Store) (b : BackgroundId) (bg : Background) : Prop :=
  Background.feature bg = Some the_feature
  ∧ ∀ j, j ∈ Background.steps bg → step_refs (Store.steps h) j None (Some b).

(** The well-formed trees of the validator: every key of the Feature's
    collection is the name of its scenario, and the scenarios of the
    collection and the background of the Feature are as above. *)
Record well_formed (h : Store) : Prop := {
  wf_entries : ∀ k i, (k, i) ∈ Feature.scenarios (Store.feature h) →
    ∃ sc, Store.scenario_templates h !! i = Some sc
          ∧ ScenarioTemplate.name sc = k ∧ scenario_ok h i sc;
  wf_background : ∀ b, Feature.background (Store.feature h) = Some b →
    ∃ bg, Store.backgrounds h !! b = Some bg ∧ background_ok h b bg }.

(** What [parse_feature] keeps true of its store after every line: all
    scenarios and backgrounds built so far are as above, the collection and
    the Feature's background point into the store, and no step has the
    attributes that [Step.__init__] does not assign. *)
Record store_inv (h : Store) : Prop := {
  inv_scenarios : ∀ i sc, Store.scenario_templates h !! i = Some sc → scenario_ok h i sc;
  inv_backgrounds : ∀ b bg, Store.backgrounds h !! b = Some bg → background_ok h b bg;
  inv_entries : ∀ k i, (k, i) ∈ Feature.scenarios (Store.feature h) →
    ∃ sc, Store.scenario_templates h !! i = Some sc ∧ ScenarioTemplate.name sc = k;
  inv_background : ∀ b, Feature.background (Store.feature h) = Some b →
    b < length (Store.backgrounds h);
  inv_unnamed : ∀ j s, Store.steps h !! j = Some s →
    Step._name s = None ∧ Step.line_number s = None }.

Record state_inv (st : ParseState) : Prop := {
  inv_store : store_inv (ParseState.store st);
  inv_scenario : ∀ i, ParseState.scenario st = Some i →
    i < length (Store.scenario_templates (ParseState.store st));
  inv_step : ∀ j, ParseState.step st = Some j →
    j < length (Store.steps (ParseState.store st)) }.

(** ** Definitions for further properties *)

From Stdlib Require Import Sorted.

(** No [#] of the text starts a comment; [boundary] as in [before_comment]. *)
Fixpoint no_comment_start (boundary : bool) (s : str) : bool :=
  match s with
  | [] => true
  | c :: s' => negb (Ascii.eqb c "#" && boundary) && no_comment_start (isspace c) s'
  end.

(** The text of a tag: no whitespace and no [@]. *)
Definition tag_text (tag : str) : Prop :=
  Forall (fun c => isspace c = false ∧ c ≠ "@"%char) tag.

(** A tag line: the tags, each after an [@], with one blank between them. *)
Definition tag_line (first : str) (others : list str) : str :=
  "@" ++ first ++ flat_map (fun tag => " @" ++ tag) others.


(** [STEP_PARAM_RE.findall(text)]: the groups of the matches, in the order
    of the matches; [skip] as in [STEP_PARAM_RE_sub_from]. *)
Fixpoint STEP_PARAM_RE_findall_from (skip : nat) (s : str) : list str :=
  match s with
  | [] => []
  | c :: s' =>
      match skip with
      | S k => STEP_PARAM_RE_findall_from k s'
      | O =>
          if Ascii.eqb c "<" then
            match param_match s' with
            | Some (name, n) => name :: STEP_PARAM_RE_findall_from n s'
            | None => STEP_PARAM_RE_findall_from 0 s'
            end
          else STEP_PARAM_RE_findall_from 0 s'
      end
  end.

Definition STEP_PARAM_RE_findall (s : str) : list str := STEP_PARAM_RE_findall_from 0 s.

(** The property [params]: the distinct names, as a tuple in the order of
    a [frozenset], that is in no order that matters; here the set. *)
Definition Step_params (self : Step) : result (gset str) :=
  name ← Step_name self;
  Ok (list_to_set (STEP_PARAM_RE_findall name)).

(** The pieces of a step text: plain text, or a placeholder with its name. *)
Inductive piece :=
| Text (text : str)
| Param (name : str).

Definition piece_text (p : piece) : str :=
  match p with
  | Text text => text
  | Param name => "<" ++ name ++ ">"
  end.

(** Plain text holds no [<]; a name is not empty and holds neither [>] nor
    a line feed. *)
Definition piece_ok (p : piece) : Prop :=
  match p with
  | Text text => "<"%char ∉ text
  | Param name => name ≠ [] ∧ (">"%char ∉ name) ∧ (LF ∉ name)
  end.

Definition template_text (pieces : list piece) : str := flat_map piece_text pieces.

Definition param_names (pieces : list piece) : list str :=
  flat_map (fun p => match p with Text _ => [] | Param name => [name] end) pieces.

Section Substitution.
Context {Value : Type} (py_str : Value → str) (context : gmap str Value).

(** What a piece becomes: [str(context[name])] for a placeholder whose
    name is a key. *)
Definition piece_value (p : piece) : str :=
  match p with
  | Text text => text
  | Param name => match context !! name with Some v => py_str v | None => [] end
  end.
End Substitution.

(** A step built by the parser's call, then given its text by the setter. *)
Definition named_step (text : str) : Step :=
  Step_set_name text (Step_init GIVEN text 1 0 "Given").


(** The outline of [outline_file] once its step has been given its text
    and its line number by assignment. *)
Definition completed_outline : Store :=
  match Store.steps (parsed outline_file) !! 0 with
  | Some s =>
      put_step 0 (Step.set_line_number (Some 3) (Step_set_name "<name> is <age>" s))
        (parsed outline_file)
  | None => parsed outline_file
  end.

(** A step as [Step.__init__] leaves it. *)
Definition fresh_step (s : Step) : Prop :=
  Step._name s = None ∧ Step.line_number s = None ∧ Step.scenario s = None
  ∧ Step.background s = None ∧ Step.lines s = [].

(** A state whose last line was read as a Background header or as a Given
    or When line, with no scenario open, has a background. *)
Definition guard_inv (st : ParseState) : Prop :=
  mode_in (ParseState.prev_mode st) allowed_prev_mode = true →
  ParseState.scenario st = None →
  Feature.background (Store.feature (ParseState.store st)) ≠ None.

(** The three errors of [parse_feature] on the line [raw] numbered [n]. *)
Definition parse_error_at (filename : str) (n : nat) (raw : str) (e : exn) : Prop :=
  e = FeatureError structural_message n (strip_comments raw) filename
  ∨ e = FeatureError multiple_features_message n (strip_comments raw) filename
  ∨ e = AttributeError "NoneType" "examples".

(** The name and the line number of each scenario built, in the order of
    building. *)
Definition scenario_idents (h : Store) : list (str * nat) :=
  (fun sc => (ScenarioTemplate.name sc, ScenarioTemplate.line_number sc))
    <$> Store.scenario_templates h.

(** The name and the line number that each line of the text, numbered
    from [n], gives a scenario when the line is read as its header. *)
Fixpoint numbered_from (n : nat) (lines : list str) : list (str * nat) :=
  match lines with
  | [] => []
  | raw :: lines' => ((parse_line (strip_comments raw)).2, n) :: numbered_from (S n) lines'
  end.

(** The collection after the scenarios numbered from [i] were put, in
    order, under these names. *)
Fixpoint registry_from (i : ScenarioId) (d : list (str * ScenarioId)) (names : list str)
    : list (str * ScenarioId) :=
  match names with
  | [] => d
  | name :: names' => registry_from (S i) (odict_setitem name i d) names'
  end.

Definition registry (names : list str) : list (str * ScenarioId) := registry_from 0 [] names.

(** [len(line) - len(line.lstrip())] *)
Definition line_indent (line : str) : nat := length line - length (lstrip line).

(** The state once the lines of [block] were added to the step at hand. *)
Definition with_block (st : ParseState) (i : StepId) (s : Step) (block : list str)
    : ParseState :=
  ParseState.mk
    (put_step i (Step.set_lines (Step.lines s ++ block) s) (ParseState.store st))
    (ParseState.scenario st) (ParseState.mode st) (ParseState.prev_mode st)
    (ParseState.description st) (Some i) true (ParseState.prev_line st).

(** The text of a table row with these cells: it starts at the first
    pipe, the cells hold no backslash, and what follows the last pipe
    holds no pipe. *)
Definition row_of (text : str) (cells : list str) : Prop :=
  ∃ last, text = table_row [] cells last ∧ ("|"%char ∉ last)
          ∧ Forall (fun v => "\"%char ∉ v) cells.

(** The step behind [j] belongs to one scenario, which lists it, or to one
    background, which lists it, and refers to it and to nothing else. *)
Definition step_owned (h : Store) (j : StepId) (s : Step) : Prop :=
  (∃ i sc, Store.scenario_templates h !! i = Some sc ∧ j ∈ ScenarioTemplate._steps sc
           ∧ Step.scenario s = Some i ∧ Step.background s = None)
  ∨ (∃ b bg, Store.backgrounds h !! b = Some bg ∧ j ∈ Background.steps bg
             ∧ Step.background s = Some b ∧ Step.scenario s = None).

(** What [parse_feature] keeps true of the steps: every step built has one
    of the three step types and an owner, and every list of steps is in
    the order of building. *)
Record steps_inv (h : Store) : Prop := {
  inv_owned : ∀ j s, Store.steps h !! j = Some s →
    Step.type s ∈ STEP_TYPES ∧ step_owned h j s;
  inv_scenario_steps : ∀ i sc, Store.scenario_templates h !! i = Some sc →
    StronglySorted lt (ScenarioTemplate._steps sc)
    ∧ Forall (fun j => j < length (Store.steps h)) (ScenarioTemplate._steps sc);
  inv_background_steps : ∀ b bg, Store.backgrounds h !! b = Some bg →
    StronglySorted lt (Background.steps bg)
    ∧ Forall (fun j => j < length (Store.steps h)) (Background.steps bg) }.

(** A line as [textwrap.dedent] leaves it when its margin is gone: empty
    when it is made of blanks and tabs only. *)
Definition emptied (l : str) : str := if forallb is_blank l then [] else l.

(** The lines of a block between two delimiter lines, all behind the same
    margin. *)
Definition quoted_block (margin : str) (body : list str) : list str :=
  map (app margin) (QUOTES :: body ++ [QUOTES]).

(** Two objects of the store that are not the same object are not equal
    for the [__eq__] that [@dataclass] generates, which compares the
    fields in their order: two scenarios differ in their name or in their
    line number, two backgrounds in their line number.  On such a store
    the tests [step.scenario != self] and [step.background != self] are
    the comparison of the handles. *)
Definition distinct_objects (h : Store) : Prop :=
  (∀ i j sc sc',
     Store.scenario_templates h !! i = Some sc → Store.scenario_templates h !! j = Some sc' →
     i ≠ j →
     (ScenarioTemplate.name sc, ScenarioTemplate.line_number sc)
     ≠ (ScenarioTemplate.name sc', ScenarioTemplate.line_number sc'))
  ∧ (∀ b b' bg bg',
       Store.backgrounds h !! b = Some bg → Store.backgrounds h !! b' = Some bg' →
       b ≠ b' → Background.line_number bg ≠ Background.line_number bg').

(** The line number of each background built, in the order of building. *)
Definition background_numbers (h : Store) : list nat :=
  Background.line_number <$> Store.backgrounds h.

(** * Theorems *)

(** ** The classifier *)

Lemma get_tags_not_a_tag_line (line : str) :
  startswith (strip line) "@" = false → get_tags (Some line) = ∅.
Proof. intros H. unfold get_tags. rewrite H. by rewrite orb_true_r. Qed.

Example get_tags_not_a_tag : get_tags (Some "not a tag") = ∅.
Proof. by apply get_tags_not_a_tag_line. Qed.

Lemma get_tags_tag_line (line : str) :
  line ≠ [] → startswith (strip line) "@" = true →
  get_tags (Some line)
  = list_to_set (map (lstrip_chars (Ascii.eqb "@"))
                   (filter (fun tag => 1 < length tag) (str_split " @" (strip line)))).
Proof.
  intros Hne H. unfold get_tags. rewrite H.
  by rewrite bool_decide_eq_false_2.
Qed.

Example get_tags_longer_tags : get_tags (Some "@login @slow") = {["login"; "slow"]}.
Proof. rewrite get_tags_tag_line; [|done|done]. cbn. set_solver. Qed.

(** C4, on the code: [get_tags] splits the trimmed line ["@a @b @c"] into
    the pieces ["@a"], ["b"] and ["c"] and keeps the pieces longer than one
    character, so the one-letter tags after the first are lost and the
    result is the set of ["a"] alone, not the three tags. *)
Theorem get_tags_drops_short_pieces :
  str_split " @" (strip "@a @b @c") = ["@a"; "b"; "c"]
  ∧ get_tags (Some "@a @b @c") = {["a"]}.
Proof.
  split; [reflexivity|].
  rewrite get_tags_tag_line; [|done|done]. cbn. apply (right_id_L ∅ (∪)).
Qed.

(** *** [split_line] *)

Lemma split_from_last prev cur (last : str) :
  "|"%char ∉ last →
  SPLIT_LINE_RE_split_from prev cur last = [rev cur ++ last].
Proof.
  revert prev cur. induction last as [|c s IH]; intros prev cur Hno; simpl.
  - by rewrite app_nil_r.
  - apply not_elem_of_cons in Hno as [Hc Hs].
    destruct (Ascii.eqb_spec c "|") as [->|_]; [done|]. simpl.
    rewrite IH; [|done]. simpl. by rewrite <- app_assoc.
Qed.

Lemma split_from_value prev cur (v rest : str) :
  "\"%char ∉ v → prev ≠ Some "\"%char →
  SPLIT_LINE_RE_split_from prev cur (escape_pipes v ++ "|"%char :: rest)
  = (rev cur ++ escape_pipes v) :: SPLIT_LINE_RE_split_from (Some "|"%char) [] rest.
Proof.
  revert prev cur. induction v as [|c v IH]; intros prev cur Hno Hprev.
  - simpl. rewrite bool_decide_eq_false_2; [|done]. simpl. by rewrite app_nil_r.
  - apply not_elem_of_cons in Hno as [Hc Hv].
    change (escape_pipes (c :: v))
      with ((if Ascii.eqb c "|" then "\|" else [c]) ++ escape_pipes v).
    destruct (Ascii.eqb_spec c "|") as [->|Hpipe].
    + cbn [app SPLIT_LINE_RE_split_from Ascii.eqb Bool.eqb andb].
      rewrite bool_decide_eq_true_2; [|done]. cbn [negb andb].
      rewrite IH; [|done|done]. simpl. by rewrite <- !app_assoc.
    + cbn [app SPLIT_LINE_RE_split_from].
      destruct (Ascii.eqb_spec c "|") as [?|_]; [done|]. cbn [andb].
      rewrite IH; [|done|congruence]. simpl. by rewrite <- !app_assoc.
Qed.

Lemma split_from_table_row prev cur first values last :
  prev ≠ Some "\"%char →
  Forall (fun v => "\"%char ∉ v) (first :: values) → "|"%char ∉ last →
  SPLIT_LINE_RE_split_from prev cur (table_row first values last)
  = (rev cur ++ escape_pipes first) :: map escape_pipes values ++ [last].
Proof.
  unfold table_row. intros Hprev Hvs Hlast.
  revert prev cur first Hprev Hvs.
  induction values as [|w vs IH]; intros prev cur v Hprev Hall.
  - simpl. rewrite split_from_value; [|by inversion Hall|done].
    by rewrite split_from_last.
  - inversion Hall as [|? ? Hv Hall']; subst.
    cbn [flat_map]. rewrite <- !app_assoc. simpl.
    rewrite split_from_value; [|done|done].
    by rewrite IH.
Qed.

Lemma split_table_row first values last :
  Forall (fun v => "\"%char ∉ v) (first :: values) → "|"%char ∉ last →
  SPLIT_LINE_RE_split (table_row first values last)
  = escape_pipes first :: map escape_pipes values ++ [last].
Proof.
  intros Hvs Hlast. unfold SPLIT_LINE_RE_split.
  by rewrite split_from_table_row.
Qed.

Lemma slice_1_m1_fenced {A} (x : A) l y : slice_1_m1 (x :: l ++ [y]) = l.
Proof. unfold slice_1_m1. simpl. apply removelast_last. Qed.

Lemma unescape_escape_pipes v :
  "\"%char ∉ v → str_replace "\|" "|" (escape_pipes v) = v.
Proof.
  unfold str_replace. induction v as [|c v IH]; intros Hno; [done|].
  apply not_elem_of_cons in Hno as [Hc Hv].
  change (escape_pipes (c :: v))
    with ((if Ascii.eqb c "|" then "\|" else [c]) ++ escape_pipes v).
  destruct (Ascii.eqb_spec c "|") as [->|Hpipe].
  - simpl. by rewrite IH.
  - cbn [app str_replace_from startswith].
    destruct (Ascii.eqb_spec c "\") as [?|_]; [done|]. cbn [andb].
    by rewrite IH.
Qed.

(** C5, as the claim states it, fails: the row ["a|b\|c|d"] has no pipe at
    its ends, and [split_line] drops its first and last segments all the
    same, which leaves the middle cell only. *)
Lemma split_line_unfenced_counterexample :
  split_line "a|b\|c|d" = ["b|c"] ∧ split_line "a|b\|c|d" ≠ ["a"; "b|c"; "d"].
Proof. split; [reflexivity | discriminate]. Qed.

Lemma ascii_backslash (c : ascii) :
  bool_decide (Some c = Some "\"%char) = Ascii.eqb c "\".
Proof.
  destruct (Ascii.eqb_spec c "\") as [->|Hne]; [by apply bool_decide_eq_true_2|].
  apply bool_decide_eq_false_2. congruence.
Qed.

Lemma split_from_trailer (prev : option ascii) (cur trailer : str) :
  pipes_escaped (bool_decide (prev = Some "\"%char)) trailer = true →
  SPLIT_LINE_RE_split_from prev cur trailer = [rev cur ++ trailer].
Proof.
  revert prev cur. induction trailer as [|c s IH]; intros prev cur; simpl.
  - by rewrite app_nil_r.
  - intros [Hc Hs]%andb_prop.
    assert (Ascii.eqb c "|" && negb (bool_decide (prev = Some "\"%char)) = false) as ->.
    { destruct (Ascii.eqb c "|"); [|done]. simpl in Hc. by rewrite Hc. }
    rewrite IH by by rewrite ascii_backslash. simpl. by rewrite <- app_assoc.
Qed.

Lemma split_from_cell (prev : option ascii) (cur cell rest : str) :
  pipes_escaped (bool_decide (prev = Some "\"%char)) cell = true →
  match last cell with Some c => c ≠ "\"%char | None => prev ≠ Some "\"%char end →
  SPLIT_LINE_RE_split_from prev cur (cell ++ "|"%char :: rest)
  = (rev cur ++ cell) :: SPLIT_LINE_RE_split_from (Some "|"%char) [] rest.
Proof.
  revert prev cur. induction cell as [|c s IH]; intros prev cur.
  - intros _ Hprev. simpl. rewrite (bool_decide_eq_false_2 _ Hprev). simpl.
    by rewrite app_nil_r.
  - cbn [pipes_escaped app SPLIT_LINE_RE_split_from]. intros [Hc Hs]%andb_prop Hlast.
    assert (Ascii.eqb c "|" && negb (bool_decide (prev = Some "\"%char)) = false) as ->.
    { destruct (Ascii.eqb c "|"); [|done]. simpl in Hc. by rewrite Hc. }
    rewrite IH.
    + simpl. by rewrite <- app_assoc.
    + by rewrite ascii_backslash.
    + destruct s as [|d s]; [simpl in *; congruence|].
      change (last (c :: d :: s)) with (last (d :: s)) in Hlast.
      destruct (last (d :: s)) eqn:E; [done|]. by apply last_None in E.
Qed.

Lemma split_from_row (prev : option ascii) (cur first : str) (cells : list str)
    (trailer : str) :
  pipes_escaped (bool_decide (prev = Some "\"%char)) first = true →
  match last first with Some c => c ≠ "\"%char | None => prev ≠ Some "\"%char end →
  Forall cell_text cells → pipes_escaped false trailer = true →
  SPLIT_LINE_RE_split_from prev cur (row_text first cells trailer)
  = (rev cur ++ first) :: cells ++ [trailer].
Proof.
  unfold row_text. intros Hfirst Hlast Hcells Htrailer.
  revert prev cur first Hfirst Hlast.
  induction Hcells as [|cell cells [Hcell Hend] _ IH]; intros prev cur first Hfirst Hlast.
  - simpl. rewrite split_from_cell by done.
    by rewrite split_from_trailer by (rewrite ascii_backslash; exact Htrailer).
  - cbn [flat_map]. rewrite <- !app_assoc. simpl.
    rewrite split_from_cell by done. rewrite IH; [done| |].
    + rewrite ascii_backslash. exact Hcell.
    + destruct (last cell); [congruence|discriminate].
Qed.

Lemma escape_pipes_cons (c : ascii) (v : str) :
  escape_pipes (c :: v) = (if Ascii.eqb c "|" then "\|" else [c]) ++ escape_pipes v.
Proof. reflexivity. Qed.

Lemma escape_pipes_escaped (escaped : bool) (v : str) :
  pipes_escaped escaped (escape_pipes v) = true.
Proof.
  revert escaped. induction v as [|c v IH]; intros escaped; [done|].
  rewrite escape_pipes_cons. destruct (Ascii.eqb_spec c "|") as [->|Hc].
  - simpl. by rewrite IH.
  - simpl. destruct (Ascii.eqb_spec c "|") as [?|_]; [done|]. simpl. apply IH.
Qed.

Lemma escape_pipes_last (v : str) : last (escape_pipes v) = last v.
Proof.
  induction v as [|c v IH]; [done|]. rewrite escape_pipes_cons, last_app, IH.
  destruct v as [|d v]; [by destruct (Ascii.eqb_spec c "|") as [->|_]|].
  change (last (c :: d :: v)) with (last (d :: v)).
  destruct (last (d :: v)) eqn:E; [done|]. by apply last_None in E.
Qed.

Lemma escape_pipes_head (v : str) : startswith (escape_pipes v) "|" = false.
Proof.
  destruct v as [|c v]; [done|]. rewrite escape_pipes_cons.
  destruct (Ascii.eqb_spec c "|") as [->|Hc]; [done|]. simpl.
  by destruct (Ascii.eqb_spec c "|").
Qed.

Lemma unescape_escape_all (v : str) : str_replace "\|" "|" (escape_pipes v) = v.
Proof.
  unfold str_replace. induction v as [|c v IH]; [done|].
  rewrite escape_pipes_cons. destruct (Ascii.eqb_spec c "|") as [->|Hpipe].
  - simpl. by rewrite IH.
  - cbn [app str_replace_from startswith].
    pose proof (escape_pipes_head v) as Hhead. cbn [startswith] in Hhead.
    destruct (Ascii.eqb c "\"); cbn [andb]; rewrite ?Hhead; by rewrite IH.
Qed.

Lemma table_row_text (first : str) (values : list str) (trailer : str) :
  table_row first values trailer
  = row_text (escape_pipes first) (map escape_pipes values) trailer.
Proof.
  unfold table_row, row_text. f_equal.
  induction values as [|v values IH]; [done|].
  cbn [flat_map map]. rewrite <- !app_assoc. do 2 f_equal. exact IH.
Qed.

(** C5, amended: [split_line] cuts the row at the pipes that no backslash
    comes right before, drops the segment before the first of them and the
    segment after the last, whatever they hold, and gives the segments
    between, in order, each with every backslash-pipe pair replaced by a
    pipe and then trimmed; every other character of a cell, a backslash
    included, is kept as it is.  A row with no such pipe has no cell.  So
    a row written from cell values, each of their pipes behind a
    backslash, reads back as the trimmed values, whatever text without
    separator stands before the first pipe and after the last, as long as
    no value ends with a backslash, which would turn the pipe that closes
    the cell into a part of it. *)
Theorem split_line_table_row :
  (∀ (first : str) (cells : list str) (trailer : str),
     Forall cell_text (first :: cells) → pipes_escaped false trailer = true →
     split_line (row_text first cells trailer)
     = map (fun cell => strip (str_replace "\|" "|" cell)) cells)
  ∧ (∀ line : str, pipes_escaped false line = true → split_line line = [])
  ∧ (∀ (first : str) (values : list str) (trailer : str),
       Forall (fun v => last v ≠ Some "\"%char) (first :: values) →
       pipes_escaped false trailer = true →
       split_line (table_row first values trailer) = map strip values).
Proof.
  assert (∀ (first : str) (cells : list str) (trailer : str),
            Forall cell_text (first :: cells) → pipes_escaped false trailer = true →
            split_line (row_text first cells trailer)
            = map (fun cell => strip (str_replace "\|" "|" cell)) cells) as Hcells.
  { intros first cells trailer [[Hfirst Hend] Hcells]%Forall_cons Htrailer.
    unfold split_line, SPLIT_LINE_RE_split.
    rewrite split_from_row; [| | |done|done].
    - by rewrite slice_1_m1_fenced.
    - by rewrite (bool_decide_eq_false_2 (None = Some "\"%char)).
    - destruct (last first); [congruence|discriminate]. }
  split; [exact Hcells|]. split.
  - intros line Hline. unfold split_line, SPLIT_LINE_RE_split.
    by rewrite split_from_trailer
      by (rewrite (bool_decide_eq_false_2 (None = Some "\"%char)) by done; exact Hline).
  - intros first values trailer Hvalues Htrailer.
    rewrite table_row_text, Hcells; [| |done].
    + rewrite map_map. apply map_ext. intros v. by rewrite unescape_escape_all.
    + change (escape_pipes first :: map escape_pipes values)
        with (map escape_pipes (first :: values)).
      apply Forall_map. eapply Forall_impl; [exact Hvalues|]. intros v Hv. split.
      * apply escape_pipes_escaped.
      * by rewrite escape_pipes_last.
Qed.

Lemma split_line_table_row_witness :
  split_line "|a|b\|c |d|" = ["a"; "b|c"; "d"]
  ∧ split_line "| C:\dir | x |" = ["C:\dir"; "x"]
  ∧ split_line "  | C:\dir\ | x\y\|z |  # drives" = ["C:\dir\"; "x\y|z"]
  ∧ split_line "no separator \| here" = [].
Proof.
  destruct split_line_table_row as (Hcells & Hnone & Hvalues). split; [|split; [|split]].
  - apply (Hvalues [] ["a"; "b|c "; "d"] []); [|reflexivity].
    repeat constructor; discriminate.
  - apply (Hvalues [] [" C:\dir "; " x "] []); [|reflexivity].
    repeat constructor; discriminate.
  - apply (Hcells "  " [" C:\dir\ "; " x\y\|z "] "  # drives"); [|reflexivity].
    repeat constructor; first [reflexivity | discriminate].
  - apply Hnone. reflexivity.
Defined.

(** ** Steps and their text *)

(** A Step as [Step.__init__] leaves it has no [_name]: reading its text
    raises, whatever was passed as [name]. *)
Lemma Step_name_init type name line_number indent keyword :
  Step_name (Step_init type name line_number indent keyword)
  = Raise (AttributeError "Step" "_name").
Proof. reflexivity. Qed.

Lemma Step_name_unnamed (step : Step) :
  Step._name step = None → Step_name step = Raise (AttributeError "Step" "_name").
Proof. intros H. unfold Step_name. by rewrite H. Qed.

Lemma Step_render_unnamed {Value} (py_str : Value → str) context (step : Step) :
  Step._name step = None →
  Step_render py_str context step = Raise (AttributeError "Step" "_name").
Proof. intros H. unfold Step_render. by rewrite Step_name_unnamed. Qed.

(** *** Substitution of the placeholders *)

Lemma param_close_name (name rest : str) :
  ">"%char ∉ name → LF ∉ name →
  param_close (name ++ ">"%char :: rest) = Some (name, S (length name)).
Proof.
  induction name as [|c name IH]; intros Hgt Hlf; [done|].
  apply not_elem_of_cons in Hgt as [? ?]. apply not_elem_of_cons in Hlf as [? ?].
  simpl. destruct (Ascii.eqb_spec c ">") as [?|_]; [done|].
  destruct (Ascii.eqb_spec c LF) as [?|_]; [done|].
  by rewrite IH.
Qed.

Lemma param_match_name (name rest : str) :
  name ≠ [] → ">"%char ∉ name → LF ∉ name →
  param_match (name ++ ">"%char :: rest) = Some (name, S (length name)).
Proof.
  destruct name as [|c name]; [done|]. intros _ Hgt Hlf.
  apply not_elem_of_cons in Hgt as [? ?]. apply not_elem_of_cons in Hlf as [? ?].
  simpl. destruct (Ascii.eqb_spec c LF) as [?|_]; [done|].
  by rewrite param_close_name.
Qed.

Lemma sub_from_skip (repl : str → result str) (skipped rest : str) :
  STEP_PARAM_RE_sub_from repl (length skipped) (skipped ++ rest)
  = STEP_PARAM_RE_sub_from repl 0 rest.
Proof. induction skipped as [|c s IH]; [done|]. simpl. apply IH. Qed.

(** Text without [<] is left as it is. *)
Lemma sub_text (repl : str → result str) (text rest : str) :
  "<"%char ∉ text →
  STEP_PARAM_RE_sub repl (text ++ rest)
  = (r ← STEP_PARAM_RE_sub repl rest; Ok (text ++ r)).
Proof.
  unfold STEP_PARAM_RE_sub. induction text as [|c text IH]; intros Hno.
  - simpl. by destruct (STEP_PARAM_RE_sub_from repl 0 rest).
  - apply not_elem_of_cons in Hno as [? ?]. simpl.
    destruct (Ascii.eqb_spec c "<") as [?|_]; [done|].
    rewrite IH; [|done]. by destruct (STEP_PARAM_RE_sub_from repl 0 rest).
Qed.

(** A placeholder is replaced by what [repl] gives for its name, and the
    substitution goes on after its [>]; when [repl] raises, so does the
    substitution. *)
Lemma sub_param (repl : str → result str) (name rest : str) :
  name ≠ [] → ">"%char ∉ name → LF ∉ name →
  STEP_PARAM_RE_sub repl ("<"%char :: name ++ ">"%char :: rest)
  = (v ← repl name; r ← STEP_PARAM_RE_sub repl rest; Ok (v ++ r)).
Proof.
  intros Hne Hgt Hlf. unfold STEP_PARAM_RE_sub. simpl.
  rewrite param_match_name; [|done..].
  change (name ++ ">"%char :: rest) with (name ++ [">"%char] ++ rest).
  rewrite app_assoc.
  replace (S (length name)) with (length (name ++ [">"%char]))
    by (rewrite length_app; simpl; lia).
  by rewrite sub_from_skip.
Qed.

Example sub_name_is_age :
  STEP_PARAM_RE_sub (replacer id (dict_zip ["name"; "age"] ["Alice"; "30"])) "<name> is <age>"
  = Ok "Alice is 30"
  ∧ STEP_PARAM_RE_sub (replacer id (dict_zip ["name"; "age"] ["Bob"; "25"])) "<name> is <age>"
    = Ok "Bob is 25".
Proof. split; vm_compute; reflexivity. Qed.

(** ** Rendering *)

(** A templated scenario with an own step that has no [_name] does not
    render: the first such step makes the render raise, unless reading the
    background already did. *)
Lemma render_steps_unnamed {Value} (py_str : Value → str) context (i : StepId)
    (own : list StepId) (h : Store) (step : Step) :
  Store.steps h !! i = Some step → Step._name step = None →
  render_steps py_str context (i :: own) h = Raise (AttributeError "Step" "_name").
Proof.
  intros Hi Hn. simpl. unfold get_step. rewrite Hi. simpl.
  by rewrite Step_render_unnamed.
Qed.

(** C1, on the code: the Scenario Outline of the claim is parsed into a
    templated scenario with the header name, age, the two rows and one own
    step, and rendering it against either row raises [AttributeError],
    because [Step.__init__] never stored the text of the step; with the
    text assigned to the step afterwards, substitution gives the text of
    the claim, and the render still raises, on the line number that
    [Step.__init__] did not store either. *)
Theorem render_outline_raises_AttributeError :
  ∃ h sc,
    parse_demo outline_file = Ok h
    ∧ get_scenario h 0 = Ok sc
    ∧ ScenarioTemplate.templated sc = true
    ∧ ScenarioTemplate._steps sc = [0]
    ∧ Examples.example_params (ScenarioTemplate.examples sc) = ["name"; "age"]
    ∧ Examples.examples (ScenarioTemplate.examples sc) = [["Alice"; "30"]; ["Bob"; "25"]]
    ∧ Examples_as_contexts (ScenarioTemplate.examples sc)
      = ([dict_zip ["name"; "age"] ["Alice"; "30"];
          dict_zip ["name"; "age"] ["Bob"; "25"]], None)
    ∧ ScenarioTemplate_render id (dict_zip ["name"; "age"] ["Alice"; "30"]) 0 h
      = Raise (AttributeError "Step" "_name")
    ∧ ScenarioTemplate_render id (dict_zip ["name"; "age"] ["Bob"; "25"]) 0 h
      = Raise (AttributeError "Step" "_name")
    ∧ (s ← get_step (assign_name 0 "<name> is <age>" h) 0;
       Step_render id (dict_zip ["name"; "age"] ["Alice"; "30"]) s) = Ok "Alice is 30"
    ∧ ScenarioTemplate_render id (dict_zip ["name"; "age"] ["Alice"; "30"]) 0
        (assign_name 0 "<name> is <age>" h)
      = Raise (AttributeError "Step" "line_number").
Proof.
  eexists _, _. split; [vm_compute; reflexivity|].
  split; [vm_compute; reflexivity|].
  repeat split; vm_compute; reflexivity.
Qed.

(** C6, on the code: the step of the claim is parsed with its four
    continuation lines, and reading its text raises [AttributeError],
    because [Step.__init__] never stored the single-line part; with that
    part assigned afterwards, the text is the one of the claim. *)
Theorem parsed_step_name_raises_AttributeError :
  ∃ h step,
    parse_demo docstring_file = Ok h
    ∧ get_step h 0 = Ok step
    ∧ Step.lines step
      = ["      " ++ QUOTES; "      first line"; "      second line"; "      " ++ QUOTES]
    ∧ Step_name step = Raise (AttributeError "Step" "_name")
    ∧ Step_name (Step_set_name "a document" step)
      = Ok ("a document" ++ [LF] ++ "first line" ++ [LF] ++ "second line").
Proof.
  eexists _, _. split; [vm_compute; reflexivity|].
  split; [vm_compute; reflexivity|].
  repeat split; vm_compute; reflexivity.
Qed.

(** C8, on the code: the outline whose table has no column age is parsed
    without error, and rendering it against its row fails, but with
    [AttributeError] on the text that [Step.__init__] never stored, before
    any name is looked up in the row; the [KeyError] on age comes only once
    the text is assigned to the step afterwards. *)
Theorem render_missing_key_raises_AttributeError :
  ∃ h sc,
    parse_demo mismatched_file = Ok h
    ∧ get_scenario h 0 = Ok sc
    ∧ Examples_as_contexts (ScenarioTemplate.examples sc) = ([dict_zip ["name"] ["Alice"]], None)
    ∧ ScenarioTemplate_render id (dict_zip ["name"] ["Alice"]) 0 h
      = Raise (AttributeError "Step" "_name")
    ∧ ScenarioTemplate_render id (dict_zip ["name"] ["Alice"]) 0
        (assign_name 0 "<name> is <age>" h)
      = Raise (KeyError "age").
Proof.
  eexists _, _. split; [vm_compute; reflexivity|].
  split; [vm_compute; reflexivity|].
  repeat split; vm_compute; reflexivity.
Qed.

(** ** The parser *)

Lemma parse_feature_lines_app filename st n (l1 l2 : list str) :
  parse_feature_lines filename st n (l1 ++ l2)
  = (st' ← parse_feature_lines filename st n l1;
     parse_feature_lines filename st' (n + length l1) l2).
Proof.
  revert st n. induction l1 as [|l l1 IH]; intros st n; simpl.
  - by rewrite Nat.add_0_r.
  - destruct (parse_feature_line filename st n l) as [st1|e]; simpl; [|done].
    rewrite IH. by replace (S n + length l1) with (n + S (length l1)) by lia.
Qed.

Lemma get_step_type_nil : get_step_type [] = None.
Proof. reflexivity. Qed.

Lemma parse_feature_line_no_step filename st n line :
  ParseState.step st = None →
  parse_feature_line filename st n line = read_line filename st n line.
Proof. intros H. unfold parse_feature_line, continues_step. by rewrite H. Qed.

Lemma outside_plain_line filename st n line :
  outside st → plain_mode (get_step_type (strip_comments line)) →
  ∃ st', parse_feature_line filename st n line = Ok st' ∧ outside st'.
Proof.
  intros (Hsc & Hstep & Hmode & Hprev) Hline.
  rewrite parse_feature_line_no_step; [|done]. unfold read_line.
  destruct (bool_decide (strip_comments line = []) && _) eqn:Hskip.
  { eexists. split; [done|]. by repeat split. }
  assert (plain_mode (match get_step_type (strip_comments line) with
                      | Some m => Some m | None => ParseState.mode st end)) as Hm.
  { destruct (get_step_type (strip_comments line)); [done|]. done. }
  revert Hm. generalize (match get_step_type (strip_comments line) with
                      | Some m => Some m | None => ParseState.mode st end) as mode.
  intros mode Hm.
  replace (mode_in mode STEP_TYPES) with false
    by (by destruct Hm as [->|[->| ->]]).
  rewrite andb_false_r.
  destruct (parse_line (strip_comments line)) as [keyword parsed_line] eqn:Hpl.
  destruct Hm as [->|[->| ->]]; cbn.
  - eexists; split; [done|]. by repeat split; auto; left.
  - destruct Hprev as [->|[->| ->]]; cbn; eexists; (split; [done|]);
      repeat split; auto; right; by left.
  - eexists; split; [done|]. repeat split; auto; right; by right.
Qed.

Lemma outside_step_line filename st n line :
  outside st → mode_in (get_step_type (strip_comments line)) STEP_TYPES = true →
  parse_feature_line filename st n line
  = Raise (FeatureError structural_message n (strip_comments line) filename).
Proof.
  intros (Hsc & Hstep & Hmode & Hprev) Hline.
  rewrite parse_feature_line_no_step; [|done]. unfold read_line.
  destruct (get_step_type (strip_comments line)) as [m|] eqn:Hm; [|done].
  assert (strip_comments line ≠ []) as Hne.
  { intros E. rewrite E in Hm. discriminate. }
  rewrite (bool_decide_eq_false_2 _ Hne). cbn [andb].
  rewrite Hsc. rewrite Hline.
  replace (mode_in (ParseState.prev_mode st) allowed_prev_mode) with false
    by (by destruct Hprev as [->|[->| ->]]).
  done.
Qed.

Lemma outside_lines filename st n lines :
  outside st → Forall (fun l => plain_mode (get_step_type (strip_comments l))) lines →
  ∃ st', parse_feature_lines filename st n lines = Ok st' ∧ outside st'.
Proof.
  intros Hst Hlines. revert st n Hst.
  induction Hlines as [|l lines Hl _ IH]; intros st n Hst; simpl.
  - by eexists.
  - destruct (outside_plain_line filename st n l Hst Hl) as (st1 & -> & Hst1).
    simpl. by apply IH.
Qed.

Lemma from_handle_error {A} (o : option A) e : from_handle o = Raise e → e = InvalidHandle.
Proof. destruct o; simpl; congruence. Qed.

Lemma add_step_errors :
  (∀ sc j h e, ScenarioTemplate_add_step sc j h = Raise e → e = InvalidHandle)
  ∧ (∀ b j h e, Background_add_step b j h = Raise e → e = InvalidHandle).
Proof.
  split; intros x j h e; unfold ScenarioTemplate_add_step, Background_add_step,
    get_step, get_scenario, get_background.
  - destruct (Store.steps h !! j); simpl; [|congruence].
    match goal with |- context [from_handle ?o] => destruct o end; simpl; congruence.
  - destruct (Store.steps h !! j); simpl; [|congruence].
    match goal with |- context [from_handle ?o] => destruct o end; simpl; congruence.
Qed.

Lemma build_line_error n indent stripped keyword parsed prev_line mode scenario h e :
  build_line n indent stripped keyword parsed prev_line mode scenario h = Raise e →
  ¬ is_FeatureError e.
Proof.
  destruct add_step_errors as [Hs Hb].
  unfold build_line.
  destruct mode as [[]|]; try discriminate;
    try (destruct scenario as [i|]; [|intros [= <-]; exact id];
         unfold get_scenario; destruct (Store.scenario_templates h !! i); simpl;
         [discriminate | intros [= <-]; exact id]).
  all: cbn -[Background_add_step ScenarioTemplate_add_step];
    destruct (Feature.background (Store.feature h)) as [b|], scenario as [sc|];
    try (intros [= <-]; exact id).
  all: match goal with
       | |- context [ScenarioTemplate_add_step ?a ?b ?c] =>
           destruct (ScenarioTemplate_add_step a b c) eqn:E; simpl;
           [discriminate | intros [= <-]; apply Hs in E as ->; exact id]
       | |- context [Background_add_step ?a ?b ?c] =>
           destruct (Background_add_step a b c) eqn:E; simpl;
           [discriminate | intros [= <-]; apply Hb in E as ->; exact id]
       end.
Qed.

Lemma feature_mode_line_error filename n clean prev_mode prev_line description h e :
  feature_mode_line filename n clean prev_mode prev_line description h = Raise e →
  e = FeatureError "Multiple features are not allowed in a single feature file" n clean filename.
Proof. unfold feature_mode_line. destruct prev_mode as [[]|]; congruence. Qed.

Lemma read_line_structural_error filename st n line n' line' filename' :
  read_line filename st n line
  = Raise (FeatureError structural_message n' line' filename') →
  ParseState.scenario st = None
  ∧ mode_in (ParseState.prev_mode st) allowed_prev_mode = false
  ∧ mode_in (resolved_mode st line) STEP_TYPES = true.
Proof.
  unfold read_line, resolved_mode.
  destruct (_ && _) eqn:Hskip; [discriminate|].
  destruct (bool_decide (ParseState.scenario st = None) && _ && _) eqn:Hguard.
  - intros _. apply andb_prop in Hguard as [Hg1 Hg3].
    apply andb_prop in Hg1 as [Hg1 Hg2].
    apply bool_decide_eq_true_1 in Hg1. by apply negb_true_iff in Hg2.
  - intros H. exfalso. revert H.
    match goal with |- context [if ?c then feature_mode_line ?a1 ?a2 ?a3 ?a4 ?a5 ?a6 ?a7 else _] =>
      destruct c; [destruct (feature_mode_line a1 a2 a3 a4 a5 a6 a7) as [[d h1]|e] eqn:Hf|] end;
      cbn [mbind result_bind].
    2: { apply feature_mode_line_error in Hf as ->. discriminate. }
    all: destruct (parse_line (strip_comments line)) as [keyword parsed_line].
    all: match goal with |- context [build_line ?a1 ?a2 ?a3 ?a4 ?a5 ?a6 ?a7 ?a8 ?a9] =>
      destruct (build_line a1 a2 a3 a4 a5 a6 a7 a8 a9) as [[[[h2 sc] m] stp]|e] eqn:Hb end;
      cbn [mbind result_bind]; try discriminate.
    all: intros [= ->]; by apply build_line_error in Hb.
Qed.

Lemma structural_error_guard filename st n line n' line' filename' :
  parse_feature_line filename st n line
  = Raise (FeatureError structural_message n' line' filename') →
  ParseState.scenario st = None
  ∧ mode_in (ParseState.prev_mode st) allowed_prev_mode = false
  ∧ mode_in (resolved_mode st line) STEP_TYPES = true.
Proof.
  unfold parse_feature_line.
  destruct (continues_step st line) as [[i|]|e] eqn:Hc; cbn [mbind result_bind].
  - destruct (get_step (ParseState.store st) i) eqn:E; cbn [mbind result_bind]; intros H;
      [discriminate | injection H as ->; by apply from_handle_error in E].
  - apply read_line_structural_error.
  - intros [= He]. subst e. unfold continues_step in Hc.
    destruct (ParseState.step st); [|discriminate].
    destruct (get_step _ _) eqn:E; simpl in Hc; [by destruct (_ || _)|].
    injection Hc as Hc. rewrite Hc in E. by apply from_handle_error in E.
Qed.

Lemma build_line_scenario n indent stripped keyword parsed prev_line mode scenario h h' sc' m' s' :
  build_line n indent stripped keyword parsed prev_line mode scenario h = Ok (h', sc', m', s') →
  scenario ≠ None → sc' ≠ None.
Proof.
  unfold build_line. intros H Hsc.
  destruct scenario as [i|]; [clear Hsc|done].
  destruct mode as [[]|]; simplify_eq; try done;
    try (destruct (get_scenario h i); simplify_eq/=; done).
  all: cbn -[Background_add_step ScenarioTemplate_add_step] in H;
    destruct (Feature.background (Store.feature h));
    match type of H with context [ScenarioTemplate_add_step ?a ?b ?c] =>
      destruct (ScenarioTemplate_add_step a b c) end; simplify_eq/=; done.
Qed.

Lemma read_line_scenario filename st n line st' :
  read_line filename st n line = Ok st' →
  ParseState.scenario st ≠ None → ParseState.scenario st' ≠ None.
Proof.
  unfold read_line. intros H Hsc.
  destruct (_ && _); [by simplify_eq|].
  destruct (_ && _ && _); [done|].
  revert H.
  match goal with |- context [if ?c then feature_mode_line ?a1 ?a2 ?a3 ?a4 ?a5 ?a6 ?a7 else _] =>
    destruct c; [destruct (feature_mode_line a1 a2 a3 a4 a5 a6 a7) as [[d h1]|e]|] end;
    cbn [mbind result_bind]; try done.
  all: destruct (parse_line (strip_comments line)) as [keyword parsed_line].
  all: match goal with |- context [build_line ?a1 ?a2 ?a3 ?a4 ?a5 ?a6 ?a7 ?a8 ?a9] =>
    destruct (build_line a1 a2 a3 a4 a5 a6 a7 a8 a9) as [[[[h2 sc] m] stp]|e] eqn:Hb end;
    cbn [mbind result_bind]; try done.
  all: intros [= <-]; simpl; by eapply build_line_scenario.
Qed.

Lemma parse_feature_line_scenario filename st n line st' :
  parse_feature_line filename st n line = Ok st' →
  ParseState.scenario st ≠ None → ParseState.scenario st' ≠ None.
Proof.
  unfold parse_feature_line.
  destruct (continues_step st line) as [[i|]|e]; cbn [mbind result_bind]; [| |done].
  - destruct (get_step _ _); cbn [mbind result_bind]; [|done]. by intros [= <-].
  - apply read_line_scenario.
Qed.

Lemma open_scenario_no_structural_error filename st n lines n' line' filename' :
  ParseState.scenario st ≠ None →
  parse_feature_lines filename st n lines
  ≠ Raise (FeatureError structural_message n' line' filename').
Proof.
  revert st n. induction lines as [|l lines IH]; intros st n Hsc; [done|].
  simpl. destruct (parse_feature_line filename st n l) as [st1|e] eqn:E; simpl.
  - apply IH. by eapply parse_feature_line_scenario.
  - intros [= ->]. apply structural_error_guard in E as (? & _). done.
Qed.

Lemma parse_feature_raise abs_filename rel_filename filename content e :
  parse_feature_lines filename (initial_state abs_filename rel_filename) 1 (splitlines content)
  = Raise e →
  parse_feature abs_filename rel_filename filename content = Raise e.
Proof. intros H. unfold parse_feature. by rewrite H. Qed.

Lemma parse_feature_lines_raise_at filename st0 before line after st e :
  parse_feature_lines filename st0 1 before = Ok st →
  parse_feature_line filename st (S (length before)) line = Raise e →
  parse_feature_lines filename st0 1 (before ++ line :: after) = Raise e.
Proof.
  intros Hb Hl. rewrite parse_feature_lines_app, Hb. simpl. by rewrite Hl.
Qed.

Lemma initial_outside abs_filename rel_filename : outside (initial_state abs_filename rel_filename).
Proof. repeat split; by left. Qed.

Lemma parse_feature_line_read filename st n line :
  continues_step st line = Ok None →
  parse_feature_line filename st n line = read_line filename st n line.
Proof. intros H. unfold parse_feature_line. by rewrite H. Qed.

Lemma read_line_resolved filename st n line :
  read_line filename st n line
  = let clean_line := strip_comments line in
    let prev_mode := ParseState.prev_mode st in
    if bool_decide (clean_line = [])
       && match prev_mode with None => true | Some m => bool_decide (m <> FEATURE) end
    then Ok (ParseState.mk (ParseState.store st) (ParseState.scenario st)
               (ParseState.mode st) prev_mode (ParseState.description st)
               None false (ParseState.prev_line st))
    else
      let mode := resolved_mode st line in
      if bool_decide (ParseState.scenario st = None)
         && negb (mode_in prev_mode allowed_prev_mode)
         && mode_in mode STEP_TYPES
      then Raise (FeatureError structural_message n clean_line filename)
      else
        '(description, h) ←
          (if bool_decide (mode = Some FEATURE)
           then feature_mode_line filename n clean_line prev_mode
                  (ParseState.prev_line st) (ParseState.description st)
                  (ParseState.store st)
           else Ok (ParseState.description st, ParseState.store st));
        '(h, scenario, mode', step) ←
          build_line n (length line - length (lstrip line)) (strip line)
            (parse_line clean_line).1 (parse_line clean_line).2
            (ParseState.prev_line st) mode (ParseState.scenario st) h;
        Ok (ParseState.mk h scenario mode' mode description step false (Some clean_line)).
Proof.
  unfold read_line, resolved_mode. cbv zeta.
  repeat match goal with |- (if ?c then _ else _) = _ => destruct c; [done|] end.
  match goal with |- context [if ?c then feature_mode_line ?a1 ?a2 ?a3 ?a4 ?a5 ?a6 ?a7 else _] =>
    destruct (if c then feature_mode_line a1 a2 a3 a4 a5 a6 a7 else _) as [[d h1]|e] end;
    cbn [mbind result_bind]; [|done].
  by destruct (parse_line (strip_comments line)).
Qed.

(** The tuple [allowed_prev_mode] of line 136 and [types.STEP_TYPES], member
    by member. *)
Lemma allowed_prev_mode_members (m : option Mode) :
  mode_in m allowed_prev_mode = true ↔ m ∈ [Some BACKGROUND; Some GIVEN; Some WHEN].
Proof.
  split.
  - destruct m as [[]|]; try discriminate; intros _; set_solver.
  - intros H. repeat (apply elem_of_cons in H as [->|H]; [done|]). by apply elem_of_nil in H.
Qed.

Lemma step_types_members (m : option Mode) :
  mode_in m STEP_TYPES = true ↔ m ∈ [Some GIVEN; Some WHEN; Some THEN].
Proof.
  split.
  - destruct m as [[]|]; try discriminate; intros _; set_solver.
  - intros H. repeat (apply elem_of_cons in H as [->|H]; [done|]). by apply elem_of_nil in H.
Qed.

(** A line that is neither taken into a step nor skipped raises the
    structural error exactly when no scenario is open, the line is read in
    a step mode, and the line before was read neither as a Background
    header nor as a Given or When line. *)
Lemma structural_error_iff (filename : str) (st : ParseState) (n : nat) (line : str) :
  continues_step st line = Ok None → strip_comments line ≠ [] →
  parse_feature_line filename st n line
  = Raise (FeatureError structural_message n (strip_comments line) filename)
  ↔ ParseState.scenario st = None
    ∧ resolved_mode st line ∈ [Some GIVEN; Some WHEN; Some THEN]
    ∧ ParseState.prev_mode st ∉ [Some BACKGROUND; Some GIVEN; Some WHEN].
Proof.
  intros Hcont Hne. split.
  - intros H. apply structural_error_guard in H as (Hsc & Hprev & Hmode).
    split; [done|]. split; [by apply step_types_members|].
    intros Hin%allowed_prev_mode_members. congruence.
  - intros (Hsc & Hmode%step_types_members & Hprev).
    rewrite (parse_feature_line_read _ _ _ _ Hcont), read_line_resolved. cbv zeta.
    rewrite (bool_decide_eq_false_2 _ Hne), Hsc, Hmode. cbn [andb].
    rewrite (bool_decide_eq_true_2 (None = None)) by done.
    destruct (mode_in (ParseState.prev_mode st) allowed_prev_mode) eqn:E; [|done].
    by apply allowed_prev_mode_members in E.
Qed.

(** C3, amended: when the first line that starts, once its comment is
    stripped, with Given, When or Then comes before any Scenario, Scenario
    Outline, Background or Examples header, parsing fails with the
    structural error, which carries the message, the 1-based number of that
    line, its text without comment and surrounding blanks, and the file
    name, and no document is returned.  The same error stops the parse at
    any line that is read, with no scenario open, in the mode Given, When
    or Then (its own, or the mode at hand for a line that starts with And
    or But), unless the line read before it was read as a Background
    header or as a Given or When line: a background is open for one more
    step after its header, a Given or a When, and after nothing else, a
    Then included.  These are the only lines that raise it: once a
    scenario is open, no line of the rest of the file does, and no line
    read right after a Background header or a Given or When line does. *)
Theorem step_outside_raises_FeatureError
    (abs_filename rel_filename filename content : str) (before after : list str) (line : str) :
  splitlines content = before ++ line :: after →
  (Forall (fun l => plain_mode (get_step_type (strip_comments l))) before →
   mode_in (get_step_type (strip_comments line)) STEP_TYPES = true →
   parse_feature abs_filename rel_filename filename content
   = Raise (FeatureError structural_message (S (length before)) (strip_comments line) filename))
  ∧ (∀ st,
       parse_feature_lines filename (initial_state abs_filename rel_filename) 1 before = Ok st →
       continues_step st line = Ok None → strip_comments line ≠ [] →
       ParseState.scenario st = None →
       resolved_mode st line ∈ [Some GIVEN; Some WHEN; Some THEN] →
       ParseState.prev_mode st ∉ [Some BACKGROUND; Some GIVEN; Some WHEN] →
       parse_feature abs_filename rel_filename filename content
       = Raise (FeatureError structural_message (S (length before)) (strip_comments line)
                  filename))
  ∧ (∀ st n l,
       continues_step st l = Ok None → strip_comments l ≠ [] →
       parse_feature_line filename st n l
       = Raise (FeatureError structural_message n (strip_comments l) filename)
       ↔ ParseState.scenario st = None
         ∧ resolved_mode st l ∈ [Some GIVEN; Some WHEN; Some THEN]
         ∧ ParseState.prev_mode st ∉ [Some BACKGROUND; Some GIVEN; Some WHEN])
  ∧ (∀ st n lines n' line' filename',
       ParseState.scenario st ≠ None →
       parse_feature_lines filename st n lines
       ≠ Raise (FeatureError structural_message n' line' filename'))
  ∧ (∀ st n l n' line' filename',
       mode_in (ParseState.prev_mode st) allowed_prev_mode = true →
       parse_feature_line filename st n l
       ≠ Raise (FeatureError structural_message n' line' filename')).
Proof.
  intros Hlines. split; [|split; [|split; [|split]]].
  - intros Hbefore Hline. apply parse_feature_raise. rewrite Hlines.
    destruct (outside_lines filename _ 1 before (initial_outside abs_filename rel_filename) Hbefore)
      as (st & Hst & Hout).
    eapply parse_feature_lines_raise_at; [done|].
    by apply outside_step_line.
  - intros st Hst Hcont Hne Hsc Hmode Hprev. apply parse_feature_raise. rewrite Hlines.
    eapply parse_feature_lines_raise_at; [done|].
    by apply structural_error_iff.
  - intros st n l. apply structural_error_iff.
  - intros. by apply open_scenario_no_structural_error.
  - intros st n l n' line' filename' Hallowed H.
    apply structural_error_guard in H as (_ & H & _). congruence.
Qed.

Lemma step_outside_raises_FeatureError_witness :
  parse_feature abs_path rel_path file_name
    (str_join [LF] ["@smoke"; "Feature: early"; "  Given a step # too early"])
  = Raise (FeatureError structural_message 3 "Given a step" file_name)
  ∧ parse_feature abs_path rel_path file_name (str_join [LF] then_in_background_file)
    = Raise (FeatureError structural_message 5 "And c" file_name).
Proof.
  split.
  - apply (step_outside_raises_FeatureError abs_path rel_path file_name _
             ["@smoke"; "Feature: early"] [] "  Given a step # too early").
    + reflexivity.
    + constructor; [right; right; reflexivity|].
      constructor; [right; left; reflexivity|]. constructor.
    + reflexivity.
  - apply (proj1 (proj2 (step_outside_raises_FeatureError abs_path rel_path file_name
                           (str_join [LF] then_in_background_file)
                           (take 4 then_in_background_file) [] "    And c" eq_refl))
             (after_lines (take 4 then_in_background_file))).
    + vm_compute. reflexivity.
    + vm_compute. reflexivity.
    + vm_compute. discriminate.
    + vm_compute. reflexivity.
    + apply step_types_members. vm_compute. reflexivity.
    + intros H%allowed_prev_mode_members. vm_compute in H. discriminate H.
Defined.

(** C3, as the claim states it, fails in both halves.  In the first file
    the step line comes before any Scenario or Background header, and
    parsing fails on the Examples header of line 1 with the
    [AttributeError] of an absent scenario, not with the structural error.
    In the second file every step line stands under the Background header
    of line 2, which is the background of the Feature when line 5 is read,
    and no scenario follows; the line that starts with And is read as one
    more Then right after a Then line, and parsing fails on it with the
    structural error. *)
Lemma step_before_header_counterexample :
  (mode_in (get_step_type (strip_comments "Given x")) STEP_TYPES = true
   ∧ parse_feature abs_path rel_path file_name (str_join [LF] ["Examples:"; "Given x"])
     = Raise (AttributeError "NoneType" "examples")
   ∧ ∀ message n line filename,
       parse_feature abs_path rel_path file_name (str_join [LF] ["Examples:"; "Given x"])
       ≠ Raise (FeatureError message n line filename))
  ∧ (map (fun l => get_step_type (strip_comments l)) then_in_background_file
     = [Some FEATURE; Some BACKGROUND; Some GIVEN; Some THEN; None]
     ∧ (∃ st, parse_feature_lines file_name (initial_state abs_path rel_path) 1
                (take 4 then_in_background_file) = Ok st
              ∧ Feature.background (Store.feature (ParseState.store st)) = Some 0
              ∧ (bg ← get_background (ParseState.store st) 0; Ok (Background.steps bg))
                = Ok [0; 1]
              ∧ ParseState.scenario st = None
              ∧ ParseState.prev_mode st = Some THEN)
     ∧ parse_feature abs_path rel_path file_name (str_join [LF] then_in_background_file)
       = Raise (FeatureError structural_message 5 "And c" file_name)).
Proof.
  split.
  - split; [reflexivity|]. split; [vm_compute; reflexivity|].
    intros. vm_compute. discriminate.
  - split; [vm_compute; reflexivity|]. split; [|vm_compute; reflexivity].
    eexists. split; [vm_compute; reflexivity|]. repeat split.
Qed.

(** C7, amended: a line read in Feature mode right after a Feature-mode
    line, a second Feature header included, is appended to the description
    buffer and changes nothing else in the document; a Feature header read
    first or right after a tag line sets the name and the line number of
    the Feature; a Feature header read after anything else (a Scenario, a
    Background, a table or a step) is fatal, and parsing fails with the
    multiple-features error carrying the line's number, its text and the
    file name. *)
Theorem feature_mode_lines
    (abs_filename rel_filename filename content : str) (before after : list str)
    (line : str) (st : ParseState) :
  splitlines content = before ++ line :: after →
  parse_feature_lines filename (initial_state abs_filename rel_filename) 1 before = Ok st →
  continues_step st line = Ok None →
  resolved_mode st line = Some FEATURE →
  (ParseState.prev_mode st = Some FEATURE →
   ∃ st', parse_feature_line filename st (S (length before)) line = Ok st'
          ∧ ParseState.description st' = ParseState.description st ++ [strip_comments line]
          ∧ ParseState.store st' = ParseState.store st)
  ∧ (ParseState.prev_mode st = None ∨ ParseState.prev_mode st = Some TAG →
     strip_comments line ≠ [] →
     ∃ st', parse_feature_line filename st (S (length before)) line = Ok st'
            ∧ ParseState.description st' = ParseState.description st
            ∧ Feature.name (Store.feature (ParseState.store st'))
              = Some (parse_line (strip_comments line)).2
            ∧ Feature.line_number (Store.feature (ParseState.store st')) = S (length before))
  ∧ (ParseState.prev_mode st ≠ None → ParseState.prev_mode st ≠ Some TAG →
     ParseState.prev_mode st ≠ Some FEATURE →
     strip_comments line ≠ [] →
     parse_feature abs_filename rel_filename filename content
     = Raise (FeatureError multiple_features_message (S (length before))
                (strip_comments line) filename)).
Proof.
  intros Hlines Hbefore Hcont Hmode.
  rewrite (parse_feature_line_read _ _ _ _ Hcont), read_line_resolved. cbv zeta.
  rewrite Hmode. cbn [mode_in STEP_TYPES].
  rewrite (bool_decide_eq_false_2 (FEATURE ∈ [GIVEN; WHEN; THEN]))
    by (intros H; by repeat (apply elem_of_cons in H as [?|H]; [done|]); apply elem_of_nil in H).
  rewrite andb_false_r. rewrite (bool_decide_eq_true_2 (Some FEATURE = Some FEATURE)) by done.
  split; [|split].
  - intros Hprev. rewrite Hprev. rewrite (bool_decide_eq_false_2 (FEATURE ≠ FEATURE)) by auto.
    rewrite andb_false_r. cbn. by eexists.
  - intros Hprev Hne. rewrite (bool_decide_eq_false_2 _ Hne). cbn [andb].
    destruct Hprev as [-> | ->]; cbn; by eexists.
  - intros H1 H2 H3 Hne. apply parse_feature_raise. rewrite Hlines.
    eapply parse_feature_lines_raise_at; [done|].
    rewrite (parse_feature_line_read _ _ _ _ Hcont), read_line_resolved. cbv zeta.
    rewrite Hmode. rewrite (bool_decide_eq_false_2 _ Hne). cbn [andb mode_in STEP_TYPES].
    rewrite (bool_decide_eq_false_2 (FEATURE ∈ [GIVEN; WHEN; THEN]))
      by (intros H; by repeat (apply elem_of_cons in H as [?|H]; [done|]); apply elem_of_nil in H).
    rewrite andb_false_r. rewrite (bool_decide_eq_true_2 (Some FEATURE = Some FEATURE)) by done.
    destruct (ParseState.prev_mode st) as [[]|]; done.
Qed.

(** C10: an Examples header read while no scenario is open makes parsing
    fail with the [AttributeError] of reading [examples] on [None], not
    with the structural error; and whenever a line raises the structural
    error, the mode it is read in is Given, When or Then. *)
Theorem examples_without_scenario_raises_AttributeError
    (abs_filename rel_filename filename content : str) (before after : list str)
    (line : str) (st : ParseState) :
  splitlines content = before ++ line :: after →
  parse_feature_lines filename (initial_state abs_filename rel_filename) 1 before = Ok st →
  ParseState.scenario st = None →
  continues_step st line = Ok None →
  get_step_type (strip_comments line) = Some EXAMPLES →
  parse_feature abs_filename rel_filename filename content
  = Raise (AttributeError "NoneType" "examples")
  ∧ (∀ st n l n' line' filename',
       parse_feature_line filename st n l
       = Raise (FeatureError structural_message n' line' filename') →
       mode_in (resolved_mode st l) STEP_TYPES = true).
Proof.
  intros Hlines Hbefore Hsc Hcont Hline. split.
  - apply parse_feature_raise. rewrite Hlines.
    eapply parse_feature_lines_raise_at; [done|].
    rewrite (parse_feature_line_read _ _ _ _ Hcont), read_line_resolved. cbv zeta.
    unfold resolved_mode. rewrite Hline, Hsc.
    assert (strip_comments line ≠ []) as Hne.
    { intros E. rewrite E in Hline. discriminate. }
    rewrite (bool_decide_eq_false_2 _ Hne). cbn [andb mode_in STEP_TYPES].
    rewrite (bool_decide_eq_false_2 (EXAMPLES ∈ [GIVEN; WHEN; THEN]))
      by (intros H; by repeat (apply elem_of_cons in H as [?|H]; [done|]); apply elem_of_nil in H).
    rewrite andb_false_r. by rewrite (bool_decide_eq_false_2 (Some EXAMPLES = Some FEATURE)).
  - intros st0 n l n' line' filename' H.
    by apply structural_error_guard in H as (_ & _ & H).
Qed.

Lemma feature_mode_lines_witness :
  parse_feature abs_path rel_path file_name
    (str_join [LF] ["Feature: a"; "Scenario: s"; "Feature: b"])
  = Raise (FeatureError multiple_features_message 3 "Feature: b" file_name).
Proof.
  refine (proj2 (proj2 (feature_mode_lines abs_path rel_path file_name _
            ["Feature: a"; "Scenario: s"] [] "Feature: b"
            (after_lines ["Feature: a"; "Scenario: s"]) _ _ _ _)) _ _ _ _).
  - reflexivity.
  - vm_compute. reflexivity.
  - vm_compute. reflexivity.
  - vm_compute. reflexivity.
  - vm_compute. discriminate.
  - vm_compute. discriminate.
  - vm_compute. discriminate.
  - vm_compute. discriminate.
Defined.

(** C7, as the claim states it, fails: the second Feature header of this
    file comes right after the first, is read as a line of the description
    and parsing succeeds. *)
Lemma second_feature_header_counterexample :
  get_step_type (strip_comments "Feature: b") = Some FEATURE
  ∧ ∃ h, parse_feature abs_path rel_path file_name (str_join [LF] ["Feature: a"; "Feature: b"])
         = Ok h
         ∧ Feature.name (Store.feature h) = Some "a"
         ∧ Feature.description (Store.feature h) = "Feature: b".
Proof. split; [reflexivity|]. eexists. split; [vm_compute; reflexivity|]. by split. Qed.

Lemma examples_without_scenario_raises_AttributeError_witness :
  parse_feature abs_path rel_path file_name (str_join [LF] ["Feature: f"; "  Examples:"])
  = Raise (AttributeError "NoneType" "examples").
Proof.
  refine (proj1 (examples_without_scenario_raises_AttributeError abs_path rel_path file_name _
            ["Feature: f"] [] "  Examples:" (after_lines ["Feature: f"]) _ _ _ _ _)).
  - reflexivity.
  - vm_compute. reflexivity.
  - reflexivity.
  - reflexivity.
  - reflexivity.
Defined.

(** ** What the parser keeps true of the document *)

Lemma step_refs_snoc steps s0 j a b :
  step_refs steps j a b → step_refs (steps ++ [s0]) j a b.
Proof. intros (s & Hs & ?). exists s. split; [by apply lookup_app_l_Some|done]. Qed.

Lemma step_refs_insert_ne steps k s' j a b :
  k ≠ j → step_refs steps j a b → step_refs (<[k:=s']> steps) j a b.
Proof. intros Hne (s & Hs & ?). exists s. by rewrite list_lookup_insert_ne. Qed.

Lemma step_refs_insert_same steps k s s' j a b :
  steps !! k = Some s → Step.scenario s' = Step.scenario s →
  Step.background s' = Step.background s →
  step_refs steps j a b → step_refs (<[k:=s']> steps) j a b.
Proof.
  intros Hk Hsc Hbg (s1 & Hs1 & H1 & H2). destruct (decide (k = j)) as [->|Hne].
  - exists s'. rewrite list_lookup_insert_eq by by eapply lookup_lt_Some.
    simplify_eq. by rewrite Hsc, Hbg.
  - exists s1. by rewrite list_lookup_insert_ne.
Qed.

Lemma elem_of_odict_setitem {V} key (value : V) d k v :
  (k, v) ∈ odict_setitem key value d → (k, v) = (key, value) ∨ (k, v) ∈ d.
Proof.
  induction d as [|[k' v'] d IH]; simpl.
  - intros ?%list_elem_of_singleton. by left.
  - case_bool_decide.
    + intros [?|?]%elem_of_cons; [by left|]. right. by apply elem_of_cons; right.
    + intros [?|?]%elem_of_cons; [right; by apply elem_of_cons; left|].
      destruct IH as [?|?]; [done|by left|]. right. by apply elem_of_cons; right.
Qed.

(** Changes of the Feature that leave its collection and background alone *)
Lemma store_inv_feature h f :
  Feature.scenarios f = Feature.scenarios (Store.feature h) →
  Feature.background f = Feature.background (Store.feature h) →
  store_inv h → store_inv (Store.set_feature f h).
Proof.
  intros Hs Hb [H1 H2 H3 H4 H5]. split; simpl; try done.
  - by rewrite Hs.
  - by rewrite Hb.
Qed.

Lemma store_inv_new_scenario h name line_number tags templated :
  store_inv h →
  let '(sc, h1) := new_scenario (ScenarioTemplate_init (Some the_feature) name line_number tags templated) h in
  store_inv (Store.set_feature
               (Feature.set_scenarios (odict_setitem name sc (Feature.scenarios (Store.feature h1)))
                  (Store.feature h1)) h1).
Proof.
  intros [H1 H2 H3 H4 H5]. split; simpl; try done.
  - intros i sc [[? Hi]|[-> <-]]%lookup_snoc_Some.
    + by apply H1.
    + split; [done|]. simpl. by intros j ?%elem_of_nil.
  - intros k i [[= -> ->]|Hin]%elem_of_odict_setitem.
    + eexists. split; [apply list_lookup_middle; done|done].
    + destruct (H3 _ _ Hin) as (sc & ? & ?). exists sc. split; [by apply lookup_app_l_Some|done].
Qed.

Lemma store_inv_new_background h line_number :
  store_inv h →
  let '(b, h1) := new_background (Background_init (Some the_feature) line_number) h in
  store_inv (Store.set_feature (Feature.set_background (Some b) (Store.feature h1)) h1).
Proof.
  intros [H1 H2 H3 H4 H5]. split; simpl; try done.
  - intros b bg [[? Hi]|[-> <-]]%lookup_snoc_Some.
    + by apply H2.
    + split; [done|]. simpl. by intros j ?%elem_of_nil.
  - intros b [= <-]. rewrite length_app. simpl. lia.
Qed.

Lemma store_inv_put_examples h i sc e :
  Store.scenario_templates h !! i = Some sc →
  store_inv h → store_inv (put_scenario i (ScenarioTemplate.set_examples e sc) h).
Proof.
  intros Hi [H1 H2 H3 H4 H5]. split; simpl; try done.
  - intros i' sc' [(<- & <- & ?)|[? ?]]%list_lookup_insert_Some.
    + by apply (H1 i sc).
    + by apply H1.
  - intros k i' Hin. destruct (H3 _ _ Hin) as (sc' & Hsc' & ?).
    destruct (decide (i = i')) as [<-|Hne].
    + eexists. rewrite list_lookup_insert_eq by by eapply lookup_lt_Some.
      split; [done|]. by simplify_eq.
    + exists sc'. by rewrite list_lookup_insert_ne.
Qed.

Lemma store_inv_add_line h i s line :
  Store.steps h !! i = Some s →
  store_inv h → store_inv (put_step i (Step_add_line line s) h).
Proof.
  intros Hi [H1 H2 H3 H4 H5]. split; simpl; try done.
  - intros i' sc Hsc. destruct (H1 _ _ Hsc) as [? Hsteps]. split; [done|].
    intros j Hj. by eapply step_refs_insert_same; [done..|apply Hsteps].
  - intros b bg Hbg. destruct (H2 _ _ Hbg) as [? Hsteps]. split; [done|].
    intros j Hj. by eapply step_refs_insert_same; [done..|apply Hsteps].
  - intros j s' [(<- & <- & ?)|[? ?]]%list_lookup_insert_Some.
    + by apply (H5 i s).
    + by eapply H5.
Qed.

Lemma step_refs_new steps s0 s' j a b :
  step_refs steps j a b → step_refs (<[length steps := s']> (steps ++ [s0])) j a b.
Proof.
  intros H. apply step_refs_insert_ne; [|by apply step_refs_snoc].
  destruct H as (s & Hs%lookup_lt_Some & _). lia.
Qed.

Lemma scenario_ok_new_step h i sc steps' s0 s' :
  steps' = <[length (Store.steps h) := s']> (Store.steps h ++ [s0]) →
  scenario_ok h i sc →
  ScenarioTemplate.feature sc = Some the_feature
  ∧ ∀ j, j ∈ ScenarioTemplate._steps sc → step_refs steps' j (Some i) None.
Proof. intros -> [? H]. split; [done|]. intros j Hj. by apply step_refs_new, H. Qed.

Lemma background_ok_new_step h b bg steps' s0 s' :
  steps' = <[length (Store.steps h) := s']> (Store.steps h ++ [s0]) →
  background_ok h b bg →
  Background.feature bg = Some the_feature
  ∧ ∀ j, j ∈ Background.steps bg → step_refs steps' j None (Some b).
Proof. intros -> [? H]. split; [done|]. intros j Hj. by apply step_refs_new, H. Qed.

Lemma store_inv_scenario_add_step h sc scr type name line_number indent keyword :
  Store.scenario_templates h !! sc = Some scr → store_inv h →
  ∃ h', ScenarioTemplate_add_step sc (length (Store.steps h))
          (new_step (Step_init type name line_number indent keyword) h).2 = Ok h'
        ∧ store_inv h'
        ∧ length (Store.steps h') = S (length (Store.steps h))
        ∧ length (Store.scenario_templates h') = length (Store.scenario_templates h).
Proof.
  intros Hsc [H1 H2 H3 H4 H5].
  unfold ScenarioTemplate_add_step, get_step, get_scenario. simpl.
  rewrite list_lookup_middle by done. simpl. rewrite Hsc. simpl.
  eexists. split; [done|]. split; [|split].
  - split; simpl.
    + intros i' sc' [(<- & <- & ?)|[? Hi']]%list_lookup_insert_Some.
      * edestruct (scenario_ok_new_step h sc scr) as [? Hold]; [reflexivity|by apply H1|].
        split; [done|]. simpl. intros j [Hj| ->%list_elem_of_singleton]%elem_of_app.
        -- by apply Hold.
        -- eexists. rewrite list_lookup_insert_eq by (rewrite length_app; simpl; lia).
           done.
      * by eapply scenario_ok_new_step, H1.
    + intros b bg Hbg. by eapply background_ok_new_step, H2.
    + intros k i' Hin. destruct (H3 _ _ Hin) as (sc' & Hsc' & ?).
      destruct (decide (sc = i')) as [<-|Hne].
      * eexists. rewrite list_lookup_insert_eq by by eapply lookup_lt_Some.
        split; [done|]. by simplify_eq.
      * exists sc'. by rewrite list_lookup_insert_ne.
    + done.
    + intros j s [(<- & <- & ?)|[? [[? ?]|[? <-]]%lookup_snoc_Some]]%list_lookup_insert_Some;
        [done|by eapply H5|done].
  - simpl. rewrite length_insert, length_app. simpl. lia.
  - simpl. by rewrite length_insert.
Qed.

Lemma store_inv_background_add_step h b type name line_number indent keyword :
  b < length (Store.backgrounds h) → store_inv h →
  ∃ h', Background_add_step b (length (Store.steps h))
          (new_step (Step_init type name line_number indent keyword) h).2 = Ok h'
        ∧ store_inv h'
        ∧ Feature.background (Store.feature h') = Feature.background (Store.feature h)
        ∧ length (Store.steps h') = S (length (Store.steps h))
        ∧ length (Store.scenario_templates h') = length (Store.scenario_templates h).
Proof.
  intros [bg Hbg]%lookup_lt_is_Some_2 [H1 H2 H3 H4 H5].
  unfold Background_add_step, get_step, get_background. simpl.
  rewrite list_lookup_middle by done. simpl. rewrite Hbg. simpl.
  eexists. split; [done|]. split; [|split; [done|split]].
  - split; simpl.
    + intros i' sc' Hsc'. by eapply scenario_ok_new_step, H1.
    + intros b' bg' [(<- & <- & ?)|[? Hi']]%list_lookup_insert_Some.
      * edestruct (background_ok_new_step h b bg) as [? Hold]; [reflexivity|by apply H2|].
        split; [done|]. simpl. intros j [Hj| ->%list_elem_of_singleton]%elem_of_app.
        -- by apply Hold.
        -- eexists. rewrite list_lookup_insert_eq by (rewrite length_app; simpl; lia).
           done.
      * by eapply background_ok_new_step, H2.
    + done.
    + intros b' Hb'. rewrite length_insert. by apply H4.
    + intros j s [(<- & <- & ?)|[? [[? ?]|[? <-]]%lookup_snoc_Some]]%list_lookup_insert_Some;
        [done|by eapply H5|done].
  - simpl. rewrite length_insert, length_app. simpl. lia.
  - done.
Qed.

Lemma build_line_inv n indent stripped keyword parsed prev_line mode scenario h h' sc' m' s' :
  store_inv h →
  (∀ i, scenario = Some i → i < length (Store.scenario_templates h)) →
  build_line n indent stripped keyword parsed prev_line mode scenario h = Ok (h', sc', m', s') →
  store_inv h'
  ∧ (∀ i, sc' = Some i → i < length (Store.scenario_templates h'))
  ∧ (∀ j, s' = Some j → j < length (Store.steps h')).
Proof.
  intros Hinv Hsc. unfold build_line.
  assert (∀ (e : Examples → Examples) (m : option Mode),
    match scenario with
    | Some i =>
        sc ← get_scenario h i;
        Ok (put_scenario i (ScenarioTemplate.set_examples (e (ScenarioTemplate.examples sc)) sc) h,
            scenario, m, @None StepId)
    | None => Raise (AttributeError "NoneType" "examples")
    end = Ok (h', sc', m', s') →
    store_inv h'
    ∧ (∀ i, sc' = Some i → i < length (Store.scenario_templates h'))
    ∧ (∀ j, s' = Some j → j < length (Store.steps h'))) as Hex.
  { intros e m. destruct scenario as [i|]; [|done].
    unfold get_scenario. destruct (Store.scenario_templates h !! i) as [sc|] eqn:Hi; [|done].
    simpl. intros [= <- <- <- <-]. split; [by apply store_inv_put_examples|].
    split; [|done]. intros ? [= <-]. simpl. rewrite length_insert. by apply Hsc. }
  assert (∀ type,
    (let '(step, h0) := new_step (Step_init type parsed n indent keyword) h in
     match Feature.background (Store.feature h0), scenario with
     | Some b, None => h1 ← Background_add_step b step h0; Ok (h1, scenario, mode, Some step)
     | _, Some sc => h1 ← ScenarioTemplate_add_step sc step h0; Ok (h1, scenario, mode, Some step)
     | None, None => Raise (AttributeError "NoneType" "add_step")
     end) = Ok (h', sc', m', s') →
    store_inv h'
    ∧ (∀ i, sc' = Some i → i < length (Store.scenario_templates h'))
    ∧ (∀ j, s' = Some j → j < length (Store.steps h'))) as Hstep.
  { intros type. cbn -[Background_add_step ScenarioTemplate_add_step].
    destruct scenario as [sc|].
    - destruct (lookup_lt_is_Some_2 _ _ (Hsc sc eq_refl)) as [scr Hscr].
      destruct (store_inv_scenario_add_step h sc scr type parsed n indent keyword Hscr Hinv)
        as (h1 & Hadd & Hinv1 & Hlen1 & Hlen2).
      simpl in Hadd.
      assert ((h1 ← ScenarioTemplate_add_step sc (length (Store.steps h))
                 (Store.set_steps (Store.steps h ++ [Step_init type parsed n indent keyword]) h);
               Ok (h1, Some sc, mode, Some (length (Store.steps h)))) = Ok (h', sc', m', s') →
              store_inv h'
              ∧ (∀ i, sc' = Some i → i < length (Store.scenario_templates h'))
              ∧ (∀ j, s' = Some j → j < length (Store.steps h'))) as Hgoal.
      { rewrite Hadd. simpl. intros [= <- <- <- <-]. split; [done|]. split.
        - intros ? [= <-]. rewrite Hlen2. by apply Hsc.
        - intros ? [= <-]. lia. }
      by destruct (Feature.background (Store.feature h)).
    - destruct (Feature.background (Store.feature h)) as [b|] eqn:Hb; [|done].
      destruct (store_inv_background_add_step h b type parsed n indent keyword
                  (inv_background h Hinv b Hb) Hinv)
        as (h1 & Hadd & Hinv1 & _ & Hlen1 & Hlen2).
      simpl in Hadd. rewrite Hadd. simpl. intros [= <- <- <- <-].
      split; [done|]. split; [done|]. intros ? [= <-]. lia. }
  destruct mode as [[]|]; try apply Hstep;
    try (intros [= <- <- <- <-]; split; [done|split; [done|done]]).
  - (* SCENARIO_OUTLINE *)
    intros [= <- <- <- <-]. split; [|split; [|done]].
    + apply (store_inv_new_scenario h parsed n (get_tags prev_line) _ Hinv).
    + intros ? [= <-]. simpl. rewrite length_app. simpl. lia.
  - apply (Hex (Examples.set_line_number (Some n))).
  - apply (Hex (Examples_set_param_names (filter (fun l => l <> []) (split_line parsed)))).
  - apply (Hex (Examples_add_example (split_line stripped))).
  - (* SCENARIO *)
    intros [= <- <- <- <-]. split; [|split; [|done]].
    + apply (store_inv_new_scenario h parsed n (get_tags prev_line) _ Hinv).
    + intros ? [= <-]. simpl. rewrite length_app. simpl. lia.
  - (* BACKGROUND *)
    intros [= <- <- <- <-]. split; [|split; [|done]].
    + apply (store_inv_new_background h n Hinv).
    + intros i Hi. simpl. by apply Hsc.
Qed.

Lemma feature_mode_line_inv filename n clean prev_mode prev_line description h d' h' :
  feature_mode_line filename n clean prev_mode prev_line description h = Ok (d', h') →
  store_inv h →
  store_inv h'
  ∧ Store.scenario_templates h' = Store.scenario_templates h
  ∧ Store.steps h' = Store.steps h.
Proof.
  unfold feature_mode_line. intros H Hinv.
  destruct prev_mode as [[]|]; simplify_eq; try done.
  all: split; [|done]; by apply store_inv_feature.
Qed.

Lemma read_line_inv filename st n line st' :
  read_line filename st n line = Ok st' → state_inv st → state_inv st'.
Proof.
  rewrite read_line_resolved. cbv zeta. intros H [Hinv Hsc Hstep].
  destruct (_ && _); [simplify_eq; by split|].
  destruct (_ && _ && _); [done|].
  revert H.
  match goal with |- context [if ?c then feature_mode_line ?a1 ?a2 ?a3 ?a4 ?a5 ?a6 ?a7 else _] =>
    destruct c; [destruct (feature_mode_line a1 a2 a3 a4 a5 a6 a7) as [[d h1]|e] eqn:Hf|] end;
    cbn [mbind result_bind]; try done.
  - apply feature_mode_line_inv in Hf as (Hinv1 & Hlen & _); [|done].
    match goal with |- context [build_line ?a1 ?a2 ?a3 ?a4 ?a5 ?a6 ?a7 ?a8 ?a9] =>
      destruct (build_line a1 a2 a3 a4 a5 a6 a7 a8 a9) as [[[[h2 sc] m] stp]|e] eqn:Hb end;
      cbn [mbind result_bind]; [|done].
    intros [= <-]. apply build_line_inv in Hb as (? & ? & ?); [by split|done|].
    rewrite Hlen. apply Hsc.
  - match goal with |- context [build_line ?a1 ?a2 ?a3 ?a4 ?a5 ?a6 ?a7 ?a8 ?a9] =>
      destruct (build_line a1 a2 a3 a4 a5 a6 a7 a8 a9) as [[[[h2 sc] m] stp]|e] eqn:Hb end;
      cbn [mbind result_bind]; [|done].
    intros [= <-]. apply build_line_inv in Hb as (? & ? & ?); [by split|done|done].
Qed.

Lemma parse_feature_line_inv filename st n line st' :
  parse_feature_line filename st n line = Ok st' → state_inv st → state_inv st'.
Proof.
  unfold parse_feature_line.
  destruct (continues_step st line) as [[i|]|e]; cbn [mbind result_bind]; [| |done].
  - unfold get_step. destruct (Store.steps (ParseState.store st) !! i) as [s|] eqn:Hi;
      cbn [mbind result_bind from_handle]; [|done].
    intros [= <-] [Hinv Hsc Hstep]. split; simpl.
    + by apply store_inv_add_line.
    + done.
    + intros j Hj. rewrite length_insert. by apply Hstep.
  - apply read_line_inv.
Qed.

Lemma parse_feature_lines_inv filename st n lines st' :
  parse_feature_lines filename st n lines = Ok st' → state_inv st → state_inv st'.
Proof.
  revert st n. induction lines as [|l lines IH]; intros st n; simpl.
  - by intros [= <-].
  - destruct (parse_feature_line filename st n l) as [st1|e] eqn:E; simpl; [|done].
    intros H Hinv. eapply IH; [done|]. by eapply parse_feature_line_inv.
Qed.

Lemma initial_state_inv abs_filename rel_filename :
  state_inv (initial_state abs_filename rel_filename).
Proof.
  split; [split|..]; simpl; try done.
  intros k i ?%elem_of_nil. done.
Qed.

Lemma parse_feature_inv abs_filename rel_filename filename content h :
  parse_feature abs_filename rel_filename filename content = Ok h → store_inv h.
Proof.
  unfold parse_feature.
  destruct (parse_feature_lines _ _ _ _) as [st|e] eqn:E; simpl; [|done].
  intros [= <-]. apply store_inv_feature; [done..|].
  by eapply parse_feature_lines_inv, initial_state_inv.
Qed.

Lemma store_inv_well_formed h : store_inv h → well_formed h.
Proof.
  intros [H1 H2 H3 H4 H5]. split.
  - intros k i Hin. destruct (H3 _ _ Hin) as (sc & Hsc & ?). exists sc. auto.
  - intros b [bg Hbg]%H4%lookup_lt_is_Some_2. exists bg. auto.
Qed.


(** ** The validator *)

Lemma mapM_Ok {A B} (f : A → result B) (P : A → B → Prop) (l : list A) :
  (∀ x, x ∈ l → ∃ y, f x = Ok y ∧ P x y) →
  ∃ ys, mapM f l = Ok ys ∧ Forall2 P l ys.
Proof.
  induction l as [|x l IH]; intros H.
  - by exists [].
  - destruct (H x) as (y & Hy & HP); [by left|].
    destruct IH as (ys & Hys & HPs); [intros; apply H; by right|].
    exists (y :: ys). simpl. rewrite Hy. simpl. rewrite Hys. by split; [|constructor].
Qed.

Lemma mapM_Raise {A B} (f : A → result B) (before : list A) x after e :
  (∀ y, y ∈ before → ∃ z, f y = Ok z) → f x = Raise e →
  mapM f (before ++ x :: after) = Raise e.
Proof.
  intros Hbefore Hx. induction before as [|y before IH]; simpl.
  - by rewrite Hx.
  - destruct (Hbefore y) as [z ->]; [by left|]. simpl.
    rewrite IH; [done|]. intros; apply Hbefore; by right.
Qed.

Section ValidateTheorems.
Context (format_type : Mode → str).
Context (repr_scenario : Store → ScenarioId → result str).
Context (repr_background : Store → BackgroundId → result str).

Lemma ScenarioTemplate_validate_ok h i sc :
  Store.scenario_templates h !! i = Some sc → scenario_ok h i sc →
  ScenarioTemplate_validate format_type repr_scenario repr_background h i = Ok tt.
Proof.
  intros Hi [Hf Hsteps]. unfold ScenarioTemplate_validate, get_scenario.
  rewrite Hi. simpl. rewrite Hf.
  destruct (mapM_Ok (get_step h)
              (fun j s => Step.scenario s = Some i ∧ Step.background s = None)
              (ScenarioTemplate._steps sc)) as (steps & -> & Hall).
  { intros j Hj. destruct (Hsteps j Hj) as (s & Hs & ? & ?). exists s.
    unfold get_step. by rewrite Hs. }
  simpl.
  destruct (mapM_Ok (ScenarioTemplate_validate_step format_type repr_scenario repr_background h i)
              (fun _ _ => True) steps) as (us & -> & _); [|done].
  intros s Hs. exists tt. split; [|done].
  apply list_elem_of_lookup in Hs as [k Hk].
  destruct (Forall2_lookup_r _ _ _ _ _ Hall Hk) as (j & _ & Hsc & Hbg).
  unfold ScenarioTemplate_validate_step. rewrite Hbg, Hsc.
  by rewrite bool_decide_eq_false_2 by auto.
Qed.

Lemma Background_validate_ok h b bg :
  Store.backgrounds h !! b = Some bg → background_ok h b bg →
  Background_validate format_type repr_scenario repr_background h b = Ok tt.
Proof.
  intros Hb [Hf Hsteps]. unfold Background_validate, get_background.
  rewrite Hb. simpl. rewrite Hf.
  destruct (mapM_Ok (get_step h)
              (fun j s => Step.scenario s = None ∧ Step.background s = Some b)
              (Background.steps bg)) as (steps & -> & Hall).
  { intros j Hj. destruct (Hsteps j Hj) as (s & Hs & ? & ?). exists s.
    unfold get_step. by rewrite Hs. }
  simpl.
  destruct (mapM_Ok (Background_validate_step format_type repr_scenario repr_background h b)
              (fun _ _ => True) steps) as (us & -> & _); [|done].
  intros s Hs. exists tt. split; [|done].
  apply list_elem_of_lookup in Hs as [k Hk].
  destruct (Forall2_lookup_r _ _ _ _ _ Hall Hk) as (j & _ & Hsc & Hbg).
  unfold Background_validate_step. rewrite Hbg, Hsc.
  by rewrite bool_decide_eq_false_2 by auto.
Qed.

(** The validator accepts the well-formed trees. *)
Lemma Feature_validate_well_formed h :
  well_formed h → Feature_validate format_type repr_scenario repr_background h = Ok tt.
Proof.
  intros [Hentries Hbg]. unfold Feature_validate.
  destruct (mapM_Ok (Feature_validate_entry format_type repr_scenario repr_background h)
              (fun _ _ => True) (Feature.scenarios (Store.feature h))) as (us & -> & _).
  { intros [k i] Hin. destruct (Hentries k i Hin) as (sc & Hsc & Hname & Hok).
    exists tt. split; [|done]. unfold Feature_validate_entry, get_scenario.
    rewrite Hsc. simpl. rewrite bool_decide_eq_false_2 by auto.
    by eapply ScenarioTemplate_validate_ok. }
  simpl. destruct (Feature.background (Store.feature h)) as [b|] eqn:Hb; [|done].
  destruct (Hbg b eq_refl) as (bg & ? & ?). by eapply Background_validate_ok.
Qed.

(** The validator accepts every document that [parse_feature] builds. *)
Lemma Feature_validate_parsed abs_filename rel_filename filename content h :
  parse_feature abs_filename rel_filename filename content = Ok h →
  Feature_validate format_type repr_scenario repr_background h = Ok tt.
Proof.
  intros H. by eapply Feature_validate_well_formed, store_inv_well_formed, parse_feature_inv.
Qed.

(** A key that is not the name of its scenario is rejected with the
    integrity error, when the entries before it are in order. *)
Lemma Feature_validate_key_mismatch h before k i sc after :
  Feature.scenarios (Store.feature h) = before ++ (k, i) :: after →
  (∀ entry, entry ∈ before →
     Feature_validate_entry format_type repr_scenario repr_background h entry = Ok tt) →
  Store.scenario_templates h !! i = Some sc → ScenarioTemplate.name sc ≠ k →
  Feature_validate format_type repr_scenario repr_background h = Raise ValidationError.
Proof.
  intros Hs Hbefore Hi Hne. unfold Feature_validate. rewrite Hs.
  rewrite (mapM_Raise _ before (k, i) after ValidationError); [done| |].
  - intros x Hx. exists tt. by apply Hbefore.
  - unfold Feature_validate_entry, get_scenario. rewrite Hi. simpl.
    by rewrite bool_decide_eq_true_2 by auto.
Qed.
Lemma validate_step_unnamed h self step :
  Step._name step = None →
  Step.background step ≠ None ∨ Step.scenario step ≠ Some self →
  ScenarioTemplate_validate_step format_type repr_scenario repr_background h self step
  = Raise (AttributeError "Step" "_name").
Proof.
  intros Hn Hrefs. unfold ScenarioTemplate_validate_step, raise_ValidationError, Step_str.
  rewrite (Step_name_unnamed _ Hn).
  destruct (Step.background step); [done|].
  destruct Hrefs as [?|Hsc]; [done|]. by rewrite bool_decide_eq_true_2.
Qed.

(** C9, on the code: the document parsed from two scenarios of one step
    each is accepted by the validator, and so is every parsed document; but
    once the back-references of the two steps are swapped, or one is
    removed, the validator raises [AttributeError] and not the integrity
    error: the text of the error names the step, whose [_name]
    [Step.__init__] never stored.  A key that differs from the name of its
    scenario does raise the integrity error. *)
Theorem validate_swapped_raises_AttributeError :
  Feature_validate format_type repr_scenario repr_background (parsed two_scenarios_file)
  = Ok tt
  ∧ Feature_validate format_type repr_scenario repr_background
      (rebind_scenario 0 (Some 1) (rebind_scenario 1 (Some 0) (parsed two_scenarios_file)))
    = Raise (AttributeError "Step" "_name")
  ∧ Feature_validate format_type repr_scenario repr_background
      (rebind_scenario 0 None (parsed two_scenarios_file))
    = Raise (AttributeError "Step" "_name")
  ∧ Feature_validate format_type repr_scenario repr_background
      (Store.set_feature
         (Feature.set_scenarios [("uno", 0); ("two", 1)]
            (Store.feature (parsed two_scenarios_file)))
         (parsed two_scenarios_file))
    = Raise ValidationError.
Proof. repeat split; vm_compute; reflexivity. Qed.
End ValidateTheorems.

(** ** The steps of a scenario *)

Lemma ScenarioTemplate_steps_eq (h : Store) (self : ScenarioId) (sc : ScenarioTemplate) :
  Store.scenario_templates h !! self = Some sc →
  ScenarioTemplate.feature sc = Some the_feature →
  ScenarioTemplate_steps h self
  = match Feature.background (Store.feature h) with
    | Some b => bg ← get_background h b;
                Ok (Background.steps bg ++ ScenarioTemplate._steps sc)
    | None => Ok (ScenarioTemplate._steps sc)
    end.
Proof.
  intros Hsc Hf. unfold ScenarioTemplate_steps, get_scenario, background_steps.
  rewrite Hsc. simpl. rewrite Hf.
  destruct (Feature.background (Store.feature h)); [|done].
  by destruct (get_background h _).
Qed.

(** C2: in a well-formed document, and so in every document that
    [parse_feature] builds, the [steps] of every scenario of the Feature
    are the steps of the Feature's background, when there is one, followed
    in order by the scenario's own steps, and the own steps alone when
    there is none. *)
Theorem ScenarioTemplate_steps_background_first (h : Store) (name : str) (self : ScenarioId) :
  well_formed h → (name, self) ∈ Feature.scenarios (Store.feature h) →
  ∃ sc, get_scenario h self = Ok sc
        ∧ match Feature.background (Store.feature h) with
          | Some b =>
              ∃ bg, get_background h b = Ok bg
                    ∧ ScenarioTemplate_steps h self
                      = Ok (Background.steps bg ++ ScenarioTemplate._steps sc)
          | None => ScenarioTemplate_steps h self = Ok (ScenarioTemplate._steps sc)
          end.
Proof.
  intros [Hentries Hbg] Hin.
  destruct (Hentries _ _ Hin) as (sc & Hsc & _ & Hf & _).
  exists sc. split; [unfold get_scenario; by rewrite Hsc|].
  rewrite (ScenarioTemplate_steps_eq h self sc Hsc Hf).
  destruct (Feature.background (Store.feature h)) as [b|] eqn:Hb; [|done].
  destruct (Hbg b eq_refl) as (bg & Hbg' & _). exists bg.
  unfold get_background. by rewrite Hbg'.
Qed.

Lemma parsed_background_file : parse_demo background_file = Ok (parsed background_file).
Proof. vm_compute. reflexivity. Qed.

Lemma ScenarioTemplate_steps_background_first_witness :
  ∃ sc, get_scenario (parsed background_file) 0 = Ok sc
        ∧ ∃ bg, get_background (parsed background_file) 0 = Ok bg
                ∧ ScenarioTemplate_steps (parsed background_file) 0
                  = Ok (Background.steps bg ++ ScenarioTemplate._steps sc).
Proof.
  apply (ScenarioTemplate_steps_background_first (parsed background_file) "buy" 0).
  - eapply store_inv_well_formed, parse_feature_inv, parsed_background_file.
  - vm_compute. by left.
Defined.

(** The Background with the step S1 and the Scenario with the steps S2 and
    S3: the steps of the scenario are the three, in this order. *)
Example background_file_steps :
  (bg ← get_background (parsed background_file) 0; Ok (Background.steps bg)) = Ok [0]
  ∧ (sc ← get_scenario (parsed background_file) 0; Ok (ScenarioTemplate._steps sc)) = Ok [1; 2]
  ∧ ScenarioTemplate_steps (parsed background_file) 0 = Ok [0; 1; 2]
  ∧ (steps ← ScenarioTemplate_steps (parsed background_file) 0;
     mapM (fun j => s ← get_step (parsed background_file) j;
                    Ok (Step.type s, Step.keyword s, Step.scenario s, Step.background s))
          steps)
    = Ok [(GIVEN, "Given", None, Some 0); (GIVEN, "Given", Some 0, None);
          (WHEN, "When", Some 0, None)].
Proof. repeat split; vm_compute; reflexivity. Qed.

(** ** The steps of a parsed document have no text *)

(** Every step of a parsed document raises when its text is read. *)
Lemma parsed_steps_unnamed abs_filename rel_filename filename content h j step :
  parse_feature abs_filename rel_filename filename content = Ok h →
  Store.steps h !! j = Some step →
  Step_name step = Raise (AttributeError "Step" "_name").
Proof.
  intros Hp Hj. apply Step_name_unnamed.
  by destruct (inv_unnamed h (parse_feature_inv _ _ _ _ _ Hp) j step Hj).
Qed.

Lemma background_steps_inv h :
  store_inv h → ∃ bs, background_steps h (Some the_feature) = Ok bs.
Proof.
  intros Hinv. unfold background_steps.
  destruct (Feature.background (Store.feature h)) as [b|] eqn:Hb; [|by eexists].
  destruct (lookup_lt_is_Some_2 _ _ (inv_background h Hinv b Hb)) as [bg Hbg].
  unfold get_background. rewrite Hbg. by eexists.
Qed.

(** No templated scenario of a parsed document that has a step of its own
    renders, whatever the row. *)
Lemma render_parsed_templated_raises {Value} (py_str : Value → str)
    (abs_filename rel_filename filename content : str) (h : Store) (i : ScenarioId)
    (sc : ScenarioTemplate) (context : gmap str Value) :
  parse_feature abs_filename rel_filename filename content = Ok h →
  Store.scenario_templates h !! i = Some sc →
  ScenarioTemplate.templated sc = true →
  ScenarioTemplate._steps sc ≠ [] →
  ScenarioTemplate_render py_str context i h = Raise (AttributeError "Step" "_name").
Proof.
  intros Hp Hi Ht Hne. pose proof (parse_feature_inv _ _ _ _ _ Hp) as Hinv.
  destruct (inv_scenarios h Hinv i sc Hi) as [Hf Hsteps].
  unfold ScenarioTemplate_render, get_scenario. rewrite Hi. simpl. rewrite Hf, Ht.
  destruct (background_steps_inv h Hinv) as [bs ->]. simpl.
  destruct (ScenarioTemplate._steps sc) as [|j own]; [done|].
  destruct (Hsteps j) as (s & Hs & _); [by left|].
  rewrite (render_steps_unnamed py_str context j own h s Hs); [done|].
  by destruct (inv_unnamed h Hinv j s Hs).
Qed.

Lemma mapM_first_raise {A} (f : A → result unit) (l : list A) e :
  (∀ x, x ∈ l → f x = Ok tt ∨ f x = Raise e) →
  (∃ x, x ∈ l ∧ f x = Raise e) →
  mapM f l = Raise e.
Proof.
  induction l as [|x l IH]; intros Hall (y & Hy & Hfy).
  - by apply elem_of_nil in Hy.
  - simpl. destruct (Hall x) as [Hx|Hx]; [by left| |by rewrite Hx].
    rewrite Hx. simpl. rewrite IH; [done| |].
    + intros; apply Hall; by right.
    + apply elem_of_cons in Hy as [->|Hy]; [congruence|]. by exists y.
Qed.

Section Rebind.
Context (format_type : Mode → str).
Context (repr_scenario : Store → ScenarioId → result str).
Context (repr_background : Store → BackgroundId → result str).

(** In a document that [parse_feature] built, once a step of a scenario of
    the collection is made to refer to anything but its scenario, the
    validator raises [AttributeError], not the integrity error. *)
Lemma Feature_validate_rebound (abs_filename rel_filename filename content : str)
    (h : Store) (k : str) (i : ScenarioId) (sc : ScenarioTemplate) (j : StepId)
    (other : option ScenarioId) :
  parse_feature abs_filename rel_filename filename content = Ok h →
  (k, i) ∈ Feature.scenarios (Store.feature h) →
  Store.scenario_templates h !! i = Some sc →
  j ∈ ScenarioTemplate._steps sc →
  other ≠ Some i →
  Feature_validate format_type repr_scenario repr_background (rebind_scenario j other h)
  = Raise (AttributeError "Step" "_name").
Proof.
  intros Hp Hin Hi Hj Hother. pose proof (parse_feature_inv _ _ _ _ _ Hp) as Hinv.
  destruct (inv_scenarios h Hinv i sc Hi) as [_ Hsteps].
  destruct (Hsteps j Hj) as (s & Hs & Hssc & Hsbg).
  unfold rebind_scenario. rewrite Hs.
  set (h' := put_step j (Step.set_scenario other s) h).
  assert (∀ i' sc' j', Store.scenario_templates h !! i' = Some sc' →
            j' ∈ ScenarioTemplate._steps sc' →
            ∃ s', get_step h' j' = Ok s' ∧ Step._name s' = None
                  ∧ (j' ≠ j ∧ Step.scenario s' = Some i' ∧ Step.background s' = None
                     ∨ j' = j ∧ i' = i ∧ Step.scenario s' = other ∧ Step.background s' = None))
    as Hlook.
  { intros i' sc' j' Hi' Hj'.
    destruct (inv_scenarios h Hinv i' sc' Hi') as [_ Hsteps'].
    destruct (Hsteps' j' Hj') as (s' & Hs' & Hsc' & Hbg').
    unfold get_step, h'. simpl. destruct (decide (j' = j)) as [->|Hne].
    - rewrite list_lookup_insert_eq by by eapply lookup_lt_Some.
      assert (s' = s) as -> by congruence.
      eexists. split; [done|]. split.
      + simpl. by destruct (inv_unnamed h Hinv j s Hs).
      + right. simpl. repeat split; [congruence|done].
    - rewrite list_lookup_insert_ne by done. rewrite Hs'.
      eexists. split; [done|]. split.
      + by destruct (inv_unnamed h Hinv j' s' Hs').
      + by left. }
  assert (∀ i' sc', Store.scenario_templates h !! i' = Some sc' →
            (ScenarioTemplate_validate format_type repr_scenario repr_background h' i' = Ok tt
             ∨ ScenarioTemplate_validate format_type repr_scenario repr_background h' i'
               = Raise (AttributeError "Step" "_name"))
            ∧ (i' = i → ScenarioTemplate_validate format_type repr_scenario repr_background h' i'
                        = Raise (AttributeError "Step" "_name"))) as Hval.
  { intros i' sc' Hi'.
    destruct (inv_scenarios h Hinv i' sc' Hi') as [Hf' _].
    unfold ScenarioTemplate_validate, get_scenario. simpl. rewrite Hi'. simpl. rewrite Hf'.
    destruct (mapM_Ok (get_step h')
                (fun j' s' => Step._name s' = None
                   ∧ (j' ≠ j ∧ Step.scenario s' = Some i' ∧ Step.background s' = None
                      ∨ j' = j ∧ i' = i ∧ Step.scenario s' = other ∧ Step.background s' = None))
                (ScenarioTemplate._steps sc')) as (steps & -> & Hall).
    { intros j' Hj'. by apply (Hlook i' sc' j'). }
    simpl.
    assert (∀ s', s' ∈ steps →
              ScenarioTemplate_validate_step format_type repr_scenario repr_background h' i' s'
              = Ok tt
              ∨ ScenarioTemplate_validate_step format_type repr_scenario repr_background h' i' s'
                = Raise (AttributeError "Step" "_name")) as Heach.
    { intros s' [n Hn]%list_elem_of_lookup.
      destruct (Forall2_lookup_r _ _ _ _ _ Hall Hn) as (j' & _ & Hname & [(_ & Hsc' & Hbg')|(_ & -> & Hsc' & Hbg')]).
      - left. unfold ScenarioTemplate_validate_step. rewrite Hbg', Hsc'.
        by rewrite bool_decide_eq_false_2 by auto.
      - right. apply validate_step_unnamed; [done|]. right. by rewrite Hsc'. }
    split.
    - destruct (mapM _ steps) as [us|e] eqn:E; simpl; [by left|].
      right. f_equal.
      clear Hall. induction steps as [|s' steps IH]; [done|].
      simpl in E. destruct (Heach s') as [Hs'|Hs']; [by left| |]; rewrite Hs' in E; simpl in E.
      + destruct (mapM _ steps) eqn:E'; simpl in E; [done|].
        injection E as <-. apply IH; [|done]. intros; apply Heach; by right.
      + by injection E as <-.
    - intros ->. simplify_eq.
      rewrite (mapM_first_raise _ steps (AttributeError "Step" "_name")); [done|done|].
      apply list_elem_of_lookup in Hj as [n Hn].
      destruct (Forall2_lookup_l _ _ _ _ _ Hall Hn) as (s' & Hs'%list_elem_of_lookup_2 & Hname & Hrefs).
      exists s'. split; [done|]. apply validate_step_unnamed; [done|]. right.
      destruct Hrefs as [(? & _)|(_ & _ & -> & _)]; done. }
  unfold Feature_validate.
  rewrite (mapM_first_raise _ _ (AttributeError "Step" "_name")); [done| |].
  - intros [k' i'] Hin'. destruct (inv_entries h Hinv k' i' Hin') as (sc' & Hsc' & Hname').
    unfold Feature_validate_entry, get_scenario. simpl. rewrite Hsc'. simpl.
    rewrite bool_decide_eq_false_2 by auto. by apply (Hval i' sc').
  - exists (k, i). split; [done|].
    destruct (inv_entries h Hinv k i Hin) as (sc' & Hsc' & Hname').
    unfold Feature_validate_entry, get_scenario. simpl. rewrite Hsc'. simpl.
    rewrite bool_decide_eq_false_2 by auto. by apply (Hval i sc').
Qed.
End Rebind.

(** * Further properties of the code *)

(** ** The classifier *)

(** X1: a line that starts with one of the recognised prefixes gets the
    type of that prefix, and is parsed into the prefix and the rest of the
    line, both trimmed: no prefix of the table hides another. *)
Theorem prefixed_line_classified (prefix : str) (type : option Mode) (rest : str) :
  (prefix, type) ∈ STEP_PREFIXES →
  get_step_type (prefix ++ rest) = type
  ∧ parse_line (prefix ++ rest) = (strip prefix, strip rest).
Proof.
  intros Hin. unfold STEP_PREFIXES in Hin.
  repeat (apply elem_of_cons in Hin as [[= -> ->]|Hin]; [split; reflexivity|]).
  by apply elem_of_nil in Hin.
Qed.

Lemma prefixed_line_classified_witness :
  get_step_type "Scenario Outline: eat <n> cukes " = Some SCENARIO_OUTLINE
  ∧ parse_line "Scenario Outline: eat <n> cukes " = ("Scenario Outline:", "eat <n> cukes").
Proof.
  apply (prefixed_line_classified "Scenario Outline: " (Some SCENARIO_OUTLINE) "eat <n> cukes ").
  apply (bool_decide_unpack _). vm_compute. exact I.
Defined.

Lemma parse_line_from_unprefixed prefixes line :
  Forall (fun p => startswith line p.1 = false) prefixes →
  parse_line_from prefixes line = ([], line) ∧ get_step_type_from prefixes line = None.
Proof.
  induction 1 as [|[p t] ps Hp _ IH]; [done|]. simpl in *. by rewrite Hp.
Qed.

Lemma parse_line_from_prefixed prefixes line :
  Exists (fun p => startswith line p.1 = true) prefixes →
  ∃ p, p ∈ prefixes ∧ startswith line p.1 = true
       ∧ parse_line_from prefixes line = (strip p.1, strip (drop (length p.1) line))
       ∧ get_step_type_from prefixes line = p.2.
Proof.
  induction prefixes as [|[p t] ps IH]; intros Hex; [by apply Exists_nil in Hex|].
  simpl. destruct (startswith line p) eqn:Hp.
  - exists (p, t). split; [by left|done].
  - apply Exists_cons in Hex as [Hex|Hex]; [simpl in Hex; congruence|].
    destruct (IH Hex) as (q & Hq & ? & ? & ?). exists q. split; [by right|done].
Qed.

(** X2: [parse_line] gives an empty keyword exactly for the lines that
    none of the recognised prefixes starts. *)
Theorem parse_line_keyword (line : str) :
  (parse_line line).1 = [] ↔ Forall (fun p => startswith line p.1 = false) STEP_PREFIXES.
Proof.
  split.
  - intros Hk. apply Forall_forall. intros p Hp.
    destruct (startswith line p.1) eqn:E; [|done]. exfalso.
    destruct (parse_line_from_prefixed STEP_PREFIXES line) as (q & Hq & _ & Hpl & _).
    { apply Exists_exists. by exists p. }
    unfold parse_line in Hk. rewrite Hpl in Hk. simpl in Hk.
    unfold STEP_PREFIXES in Hq.
    repeat (apply elem_of_cons in Hq as [->|Hq]; [discriminate Hk|]).
    by apply elem_of_nil in Hq.
  - intros H. unfold parse_line. by rewrite (proj1 (parse_line_from_unprefixed _ _ H)).
Qed.

(** *** Trimming *)

Lemma lstrip_chars_all p (s : str) : forallb p s = true → lstrip_chars p s = [].
Proof. induction s as [|c s IH]; [done|]. simpl. by intros [-> ?]%andb_prop; auto. Qed.

Lemma lstrip_chars_app p (a b : str) :
  lstrip_chars p (a ++ b)
  = if forallb p a then lstrip_chars p b else lstrip_chars p a ++ b.
Proof.
  induction a as [|c a IH]; [done|]. simpl. destruct (p c); [|done]. apply IH.
Qed.

Lemma rstrip_chars_snoc p (x : str) (w : ascii) :
  p w = true → rstrip_chars p (x ++ [w]) = rstrip_chars p x.
Proof. intros Hw. unfold rstrip_chars. rewrite rev_app_distr. simpl. by rewrite Hw. Qed.

Lemma rstrip_chars_cons p (c : ascii) (x : str) :
  rstrip_chars p (c :: x)
  = match rstrip_chars p x with
    | [] => if p c then [] else [c]
    | y => c :: y
    end.
Proof.
  unfold rstrip_chars. simpl. rewrite lstrip_chars_app.
  destruct (forallb p (rev x)) eqn:E.
  - rewrite (lstrip_chars_all p (rev x) E). simpl. by destruct (p c).
  - rewrite rev_app_distr. simpl.
    destruct (rev (lstrip_chars p (rev x))) eqn:E2; [|done].
    apply (f_equal (@rev ascii)) in E2. rewrite rev_involutive in E2. simpl in E2.
    exfalso. clear -E E2. induction (rev x) as [|d y IH]; [done|].
    simpl in *. destruct (p d); [by apply IH|done].
Qed.

Lemma rstrip_chars_idemp p (x : str) : rstrip_chars p (rstrip_chars p x) = rstrip_chars p x.
Proof.
  induction x as [|c x IH]; [done|]. rewrite rstrip_chars_cons.
  destruct (rstrip_chars p x) as [|d y] eqn:E.
  - destruct (p c) eqn:Hc; [done|]. rewrite rstrip_chars_cons. simpl. by rewrite Hc.
  - rewrite rstrip_chars_cons, IH. done.
Qed.

Lemma lstrip_chars_head p (s : str) :
  match lstrip_chars p s with [] => True | c :: _ => p c = false end.
Proof. induction s as [|c s IH]; [done|]. simpl. by destruct (p c) eqn:E. Qed.

Lemma lstrip_rstrip_head p (x : str) :
  match x with [] => True | c :: _ => p c = false end →
  lstrip_chars p (rstrip_chars p x) = rstrip_chars p x.
Proof.
  destruct x as [|c x]; [done|]. intros Hc. rewrite rstrip_chars_cons.
  destruct (rstrip_chars p x); rewrite ?Hc; simpl; by rewrite ?Hc.
Qed.

Lemma strip_chars_idemp p (s : str) : strip_chars p (strip_chars p s) = strip_chars p s.
Proof.
  unfold strip_chars. rewrite lstrip_rstrip_head by apply lstrip_chars_head.
  apply rstrip_chars_idemp.
Qed.

Lemma strip_chars_snoc p (s : str) (w : ascii) :
  p w = true → strip_chars p (s ++ [w]) = strip_chars p s.
Proof.
  intros Hw. unfold strip_chars. rewrite lstrip_chars_app.
  destruct (forallb p s) eqn:E.
  - rewrite (lstrip_chars_all p s E). simpl. by rewrite Hw.
  - by apply rstrip_chars_snoc.
Qed.

Lemma rstrip_chars_prefix p (x : str) : ∃ t, x = rstrip_chars p x ++ t.
Proof.
  induction x as [|c x [t IH]]; [by exists []|]. rewrite rstrip_chars_cons.
  destruct (rstrip_chars p x) as [|d y].
  - destruct (p c); [by exists (c :: x)|]. exists x. done.
  - exists t. simpl. f_equal. exact IH.
Qed.

(** *** Comments *)

Lemma no_comment_start_before b line : no_comment_start b (before_comment b line) = true.
Proof.
  revert b. induction line as [|c line IH]; intros b; [done|]. simpl.
  destruct (Ascii.eqb c "#" && b) eqn:E; [done|]. simpl. rewrite E. simpl. apply IH.
Qed.

Lemma before_comment_none b s : no_comment_start b s = true → before_comment b s = s.
Proof.
  revert b. induction s as [|c s IH]; intros b; [done|]. simpl.
  intros [H1 H2]%andb_prop. apply negb_true_iff in H1. rewrite H1. by rewrite IH.
Qed.

Lemma no_comment_start_weaken b s : no_comment_start true s = true → no_comment_start b s = true.
Proof.
  destruct s as [|c s]; [done|]. simpl. intros [H1 H2]%andb_prop. rewrite H2.
  destruct b; [by rewrite H1|]. by rewrite andb_false_r.
Qed.

Lemma no_comment_start_lstrip s :
  no_comment_start true s = true → no_comment_start true (lstrip s) = true.
Proof.
  induction s as [|c s IH]; [done|]. intros H. unfold lstrip in *. simpl.
  destruct (isspace c) eqn:Hc; [|done]. apply IH.
  simpl in H. apply andb_prop in H as [_ H]. by rewrite Hc in H.
Qed.

Lemma no_comment_start_app_l b (x t : str) :
  no_comment_start b (x ++ t) = true → no_comment_start b x = true.
Proof.
  revert b. induction x as [|c x IH]; intros b; [done|]. simpl.
  intros [H1 H2]%andb_prop. rewrite H1. simpl. by eapply IH.
Qed.

Lemma no_comment_start_strip s :
  no_comment_start true s = true → no_comment_start true (strip s) = true.
Proof.
  intros H. apply no_comment_start_lstrip in H. unfold strip, strip_chars.
  destruct (rstrip_chars_prefix isspace (lstrip_chars isspace s)) as [t Ht].
  apply (no_comment_start_app_l true _ t). by rewrite <- Ht.
Qed.

(** X3: stripping comments twice is stripping them once: what
    [strip_comments] returns holds no comment and no surrounding blank. *)
Theorem strip_comments_idempotent (line : str) :
  strip_comments (strip_comments line) = strip_comments line.
Proof.
  unfold strip_comments.
  rewrite (before_comment_none true (strip (before_comment true line))).
  - apply strip_chars_idemp.
  - apply no_comment_start_strip, no_comment_start_before.
Qed.

Lemma before_comment_no_hash b (text rest : str) :
  "#"%char ∉ text →
  before_comment b (text ++ rest)
  = text ++ before_comment (match last text with Some c => isspace c | None => b end) rest.
Proof.
  revert b. induction text as [|c text IH]; intros b Hno; [done|].
  apply not_elem_of_cons in Hno as [Hc Hno]. simpl.
  destruct (Ascii.eqb_spec c "#") as [->|_]; [done|]. simpl.
  rewrite IH by done. destruct text as [|a t]; [reflexivity|].
  change (last (c :: a :: t)) with (last (a :: t)).
  destruct (last (a :: t)) eqn:E; [reflexivity|]. by apply last_None in E.
Qed.

(** X4: a [#] that follows a whitespace character starts a comment:
    whatever comes from it on is dropped, later [#] included, and the text
    before it is trimmed; a line that starts with [#] is emptied. *)
Theorem strip_comments_cuts (text comment : str) (w : ascii) :
  "#"%char ∉ text → isspace w = true →
  strip_comments (text ++ w :: "#"%char :: comment) = strip text
  ∧ strip_comments ("#"%char :: comment) = [].
Proof.
  intros Hno Hw. split; [|done]. unfold strip_comments.
  rewrite before_comment_no_hash by done. simpl.
  destruct (Ascii.eqb_spec w "#") as [->|_]; [done|]. simpl. rewrite Hw. simpl.
  by apply strip_chars_snoc.
Qed.

Lemma strip_comments_cuts_witness :
  strip_comments "  Given x # a comment # more" = "Given x".
Proof.
  apply (strip_comments_cuts "  Given x" " a comment # more" " ").
  - apply (bool_decide_unpack _). vm_compute. exact I.
  - reflexivity.
Defined.

(** X5: a [#] glued to a character that is not whitespace starts no
    comment: the line is only trimmed. *)
Theorem strip_comments_glued (text rest : str) (c : ascii) :
  "#"%char ∉ text → "#"%char ∉ rest → c ≠ "#"%char → isspace c = false →
  strip_comments (text ++ c :: "#"%char :: rest) = strip (text ++ c :: "#"%char :: rest).
Proof.
  intros Ht Hr Hne Hc. unfold strip_comments. f_equal.
  change (text ++ c :: "#"%char :: rest) with (text ++ [c] ++ "#"%char :: rest).
  rewrite app_assoc.
  rewrite before_comment_no_hash.
  - rewrite last_snoc, Hc. simpl. f_equal. f_equal.
    rewrite <- (app_nil_r rest) at 1. rewrite before_comment_no_hash by done.
    simpl. by rewrite app_nil_r.
  - intros [?|?%list_elem_of_singleton]%elem_of_app; [done|congruence].
Qed.

Lemma strip_comments_glued_witness :
  strip_comments "Given x#y" = "Given x#y".
Proof.
  apply (strip_comments_glued "Given " "y" "x").
  - apply (bool_decide_unpack _). vm_compute. exact I.
  - apply (bool_decide_unpack _). vm_compute. exact I.
  - apply (bool_decide_unpack _). vm_compute. exact I.
  - reflexivity.
Defined.

(** *** Tags *)

Lemma str_split_from_piece (cur piece : str) :
  " "%char ∉ piece → str_split_from " @" 0 cur piece = [rev cur ++ piece].
Proof.
  revert cur. induction piece as [|c piece IH]; intros cur Hno; simpl.
  - by rewrite app_nil_r.
  - apply not_elem_of_cons in Hno as [Hc Hno].
    destruct (Ascii.eqb_spec c " ") as [->|_]; [done|]. simpl.
    rewrite IH by done. simpl. by rewrite <- app_assoc.
Qed.

Lemma str_split_from_sep (cur piece rest : str) :
  " "%char ∉ piece →
  str_split_from " @" 0 cur (piece ++ " @" ++ rest)
  = (rev cur ++ piece) :: str_split_from " @" 0 [] rest.
Proof.
  revert cur. induction piece as [|c piece IH]; intros cur Hno; simpl.
  - by rewrite app_nil_r.
  - apply not_elem_of_cons in Hno as [Hc Hno].
    destruct (Ascii.eqb_spec c " ") as [->|_]; [done|]. simpl.
    rewrite IH by done. simpl. by rewrite <- app_assoc.
Qed.

Lemma tag_text_no_blank tag : tag_text tag → " "%char ∉ tag.
Proof.
  intros H Hin. apply (proj1 (Forall_forall _ _) H) in Hin as [Hsp _]. discriminate Hsp.
Qed.

Lemma str_split_tags (cur piece : str) (others : list str) :
  " "%char ∉ piece → Forall tag_text others →
  str_split_from " @" 0 cur (piece ++ flat_map (fun tag => " @" ++ tag) others)
  = (rev cur ++ piece) :: others.
Proof.
  intros Hp Hall. revert cur piece Hp.
  induction Hall as [|tag others Htag _ IH]; intros cur piece Hp.
  - simpl. rewrite app_nil_r. by apply str_split_from_piece.
  - cbn [flat_map]. rewrite <- app_assoc.
    rewrite (str_split_from_sep cur piece) by done.
    rewrite IH by by apply tag_text_no_blank. done.
Qed.

Lemma rstrip_chars_last p (s : str) (c : ascii) :
  p c = false → rstrip_chars p (s ++ [c]) = s ++ [c].
Proof.
  intros Hc. unfold rstrip_chars. rewrite rev_app_distr. simpl.
  rewrite Hc. simpl. by rewrite rev_involutive.
Qed.

Lemma tag_snoc (pre tag : str) :
  tag_text tag →
  ∃ s c, pre ++ " @" ++ tag = s ++ [c] ∧ isspace c = false.
Proof.
  intros Htag. destruct tag as [|e t' _] using rev_ind.
  - exists (pre ++ " "), "@"%char. rewrite <- app_assoc. done.
  - apply Forall_app in Htag as [_ Htag]. apply Forall_singleton in Htag as [He _].
    exists (pre ++ " @" ++ t'), e. rewrite <- !app_assoc. done.
Qed.

Lemma tag_line_last (pre : str) (c : ascii) (others : list str) :
  isspace c = false → Forall tag_text others →
  ∃ s c', (pre ++ [c]) ++ flat_map (fun tag => " @" ++ tag) others = s ++ [c']
          ∧ isspace c' = false.
Proof.
  intros Hc Hall. revert pre c Hc.
  induction Hall as [|tag others Htag _ IH]; intros pre c Hc.
  - exists pre, c. simpl. by rewrite app_nil_r.
  - cbn [flat_map]. rewrite app_assoc.
    destruct (tag_snoc (pre ++ [c]) tag Htag) as (s & c' & Hs & Hc').
    rewrite Hs. by apply IH.
Qed.

Lemma lstrip_at_tag tag : tag_text tag → lstrip_chars (Ascii.eqb "@") tag = tag.
Proof.
  intros H. destruct tag as [|c tag]; [done|]. apply Forall_cons in H as [[_ Hc] _].
  cbn [lstrip_chars]. destruct (Ascii.eqb_spec "@" c) as [?|_]; [congruence|done].
Qed.

(** X6: on a line of tags, each without whitespace and without [@]
    inside, [get_tags] keeps the first tag and, of the later tags, those of
    two characters or more. *)
Theorem get_tags_tag_line_kept (first : str) (others : list str) :
  first ≠ [] → Forall tag_text (first :: others) →
  get_tags (Some (tag_line first others))
  = list_to_set (first :: filter (fun tag => 1 < length tag) others).
Proof.
  intros Hne Hall. apply Forall_cons in Hall as [Hfirst Hothers].
  assert (strip (tag_line first others) = tag_line first others) as Hstrip.
  { unfold strip, strip_chars, tag_line. simpl.
    destruct first as [|e first' _] using rev_ind; [done|].
    apply Forall_app in Hfirst as [_ He]. apply Forall_singleton in He as [He _].
    destruct (tag_line_last ("@"%char :: first') e others He Hothers) as (s & c' & Hs & Hc').
    simpl in Hs. rewrite Hs. by apply rstrip_chars_last. }
  rewrite get_tags_tag_line.
  - rewrite Hstrip. unfold str_split, tag_line.
    change ("@" ++ first ++ flat_map (fun tag => " @" ++ tag) others)
      with (("@"%char :: first) ++ flat_map (fun tag => " @" ++ tag) others).
    rewrite str_split_tags; [|..|done].
    + simpl. rewrite filter_cons_True by (destruct first; [done|simpl; lia]).
      simpl. destruct (Ascii.eqb_spec "@" "@") as [_|?]; [|done].
      rewrite (lstrip_at_tag first Hfirst). f_equal. f_equal.
      clear -Hothers. induction Hothers as [|tag others Htag _ IH]; [done|].
      rewrite filter_cons. case_decide; [|done].
      simpl. by rewrite IH, (lstrip_at_tag tag Htag).
    + intros [?|?]%elem_of_cons; [done|]. by apply (tag_text_no_blank first).
  - done.
  - rewrite Hstrip. done.
Qed.

Lemma get_tags_tag_line_kept_witness :
  get_tags (Some "@smoke @a @slow") = list_to_set ["smoke"; "slow"].
Proof.
  apply (get_tags_tag_line_kept "smoke" ["a"; "slow"]).
  - discriminate.
  - unfold tag_text.
    repeat first [apply Forall_nil_2 | apply Forall_cons_2 | split | reflexivity | discriminate].
Defined.

(** ** Examples *)

Lemma as_contexts_rows_good header (good rest : list (list str)) :
  Forall (fun row => length row = length header) good →
  as_contexts_rows header (good ++ rest)
  = (map (dict_zip header) good ++ (as_contexts_rows header rest).1,
     (as_contexts_rows header rest).2).
Proof.
  induction 1 as [|row good Hrow _ IH]; simpl.
  - by destruct (as_contexts_rows header rest).
  - rewrite Hrow, Nat.eqb_refl, IH. done.
Qed.

(** X7: [as_contexts] yields the rows as mappings, in order, as long as
    they have as many cells as the header has names, and stops with the
    failed assertion at the first row that does not; with no such row it
    yields them all. *)
Theorem as_contexts_until_short_row (self : Examples) (good rest : list (list str)) :
  Examples.examples self = good ++ rest →
  Forall (fun row => length row = length (Examples.example_params self)) good →
  match rest with
  | [] => True
  | row :: _ => length row ≠ length (Examples.example_params self)
  end →
  Examples_as_contexts self
  = (map (dict_zip (Examples.example_params self)) good,
     match rest with [] => None | _ :: _ => Some AssertionError end).
Proof.
  intros Hrows Hgood Hrest. unfold Examples_as_contexts.
  rewrite Hrows, as_contexts_rows_good by done.
  destruct rest as [|row rest]; simpl.
  - by rewrite app_nil_r.
  - apply Nat.eqb_neq in Hrest. rewrite Nat.eqb_sym in Hrest. rewrite Hrest. simpl.
    by rewrite app_nil_r.
Qed.

Lemma as_contexts_until_short_row_witness :
  Examples_as_contexts
    (Examples.mk ["name"; "age"] [["Alice"; "30"]; ["Bob"]; ["Carol"; "41"]] (Some 4) None)
  = ([dict_zip ["name"; "age"] ["Alice"; "30"]], Some AssertionError).
Proof.
  apply (as_contexts_until_short_row
           (Examples.mk ["name"; "age"] [["Alice"; "30"]; ["Bob"]; ["Carol"; "41"]] (Some 4) None)
           [["Alice"; "30"]] [["Bob"]; ["Carol"; "41"]]).
  - reflexivity.
  - repeat constructor.
  - simpl. lia.
Defined.

Lemma foldl_insert_other (l : list (str * str)) (d : gmap str str) (k : str) :
  (∀ kv, kv ∈ l → kv.1 ≠ k) →
  foldl (fun d kv => <[kv.1 := kv.2]> d) d l !! k = d !! k.
Proof.
  revert d. induction l as [|[k1 v1] l IH]; intros d Hl; [done|]. simpl.
  rewrite IH by (intros; apply Hl; by right).
  apply lookup_insert_ne. apply (Hl (k1, v1)). by left.
Qed.

Lemma foldl_insert_last (l : list (str * str)) (d : gmap str str) (i : nat) (k v : str) :
  l !! i = Some (k, v) →
  (∀ j kv, i < j → l !! j = Some kv → kv.1 ≠ k) →
  foldl (fun d kv => <[kv.1 := kv.2]> d) d l !! k = Some v.
Proof.
  revert d i. induction l as [|[k1 v1] l IH]; intros d i Hi Hlater; [done|].
  destruct i as [|i]; simpl in *.
  - injection Hi as -> ->. rewrite foldl_insert_other.
    + apply lookup_insert_eq.
    + intros kv [j Hj]%list_elem_of_lookup. apply (Hlater (S j)); [lia|done].
  - apply (IH _ i Hi). intros j kv Hj Hkv. apply (Hlater (S j)); [lia|done].
Qed.

Lemma zip_lookup_pair (header row : list str) (i : nat) (k v : str) :
  zip header row !! i = Some (k, v) ↔ header !! i = Some k ∧ row !! i = Some v.
Proof.
  revert row i. induction header as [|h header IH]; intros [|r row] [|i]; simpl;
    try (split; [done|by intros [? ?]]).
  - split; [by intros [= -> ->]|by intros [[= ->] [= ->]]].
  - apply IH.
Qed.

(** X8: the mapping of a row gives, for a name of the header, the cell
    under the last column of that name that the row reaches, and has no
    key outside the header. *)
Theorem dict_zip_lookup (header row : list str) (i : nat) (k v : str) :
  header !! i = Some k → row !! i = Some v →
  (∀ j, i < j → j < length row → header !! j ≠ Some k) →
  dict_zip header row !! k = Some v
  ∧ ∀ k', k' ∉ header → dict_zip header row !! k' = None.
Proof.
  intros Hk Hv Hlater. unfold dict_zip. split.
  - apply (foldl_insert_last _ _ i).
    + by apply zip_lookup_pair.
    + intros j [k2 v2] Hij [Ehj Erj]%zip_lookup_pair. simpl. intros ->.
      by apply (Hlater j Hij (lookup_lt_Some _ _ _ Erj)).
  - intros k' Hk'. rewrite foldl_insert_other; [done|].
    intros [k2 v2] [j [Ehj Erj]%zip_lookup_pair]%list_elem_of_lookup.
    simpl. intros ->. apply Hk'. by eapply list_elem_of_lookup_2.
Qed.

Lemma dict_zip_lookup_witness :
  dict_zip ["name"; "age"; "name"] ["Alice"; "30"; "Bob"] !! ("name" : str) = Some ("Bob" : str)
  ∧ ∀ k', k' ∉ ["name"; "age"; "name"] →
          dict_zip ["name"; "age"; "name"] ["Alice"; "30"; "Bob"] !! k' = None.
Proof.
  apply (dict_zip_lookup ["name"; "age"; "name"] ["Alice"; "30"; "Bob"] 2 "name" "Bob").
  - reflexivity.
  - reflexivity.
  - simpl. intros j H1 H2. lia.
Defined.

(** ** Parameters and substitution *)

Section SubstitutionTheorems.
Context {Value : Type} (py_str : Value → str) (context : gmap str Value).

Lemma sub_from_findall (skip : nat) (s : str) :
  match STEP_PARAM_RE_sub_from (replacer py_str context) skip s with
  | Ok _ => Forall (fun n => is_Some (context !! n)) (STEP_PARAM_RE_findall_from skip s)
  | Raise e => ∃ n, n ∈ STEP_PARAM_RE_findall_from skip s ∧ context !! n = None
                    ∧ e = KeyError n
  end.
Proof.
  revert skip. induction s as [|c s IH]; intros skip; [simpl; constructor|].
  simpl. destruct skip as [|k]; [|apply IH].
  destruct (Ascii.eqb c "<").
  - destruct (param_match s) as [[name n]|].
    + destruct (replacer py_str context name) as [v|e] eqn:Hr; simpl.
      * assert (is_Some (context !! name)) as Hsome.
        { unfold replacer in Hr. destruct (context !! name); [done|discriminate]. }
        specialize (IH n).
        destruct (STEP_PARAM_RE_sub_from (replacer py_str context) n s); simpl.
        -- by constructor.
        -- destruct IH as (m & ? & ? & ?). exists m. split; [by right|done].
      * unfold replacer in Hr. destruct (context !! name) eqn:Hn; [discriminate|].
        injection Hr as <-. exists name. split; [by left|done].
    + specialize (IH 0).
      destruct (STEP_PARAM_RE_sub_from (replacer py_str context) 0 s); simpl; done.
  - specialize (IH 0).
    destruct (STEP_PARAM_RE_sub_from (replacer py_str context) 0 s); simpl; done.
Qed.

(** X9: a step whose text can be read renders when every name of its
    [params] is a key of the row; otherwise it raises [KeyError] on one of
    its [params] that is no key. *)
Theorem render_needs_params (self : Step) (params : gset str) :
  Step_params self = Ok params →
  (params ⊆ dom context → ∃ text, Step_render py_str context self = Ok text)
  ∧ (¬ params ⊆ dom context →
     ∃ n, n ∈ params ∧ context !! n = None
          ∧ Step_render py_str context self = Raise (KeyError n)).
Proof.
  unfold Step_params, Step_render, STEP_PARAM_RE_sub, STEP_PARAM_RE_findall.
  destruct (Step_name self) as [name|e]; simpl; [|done]. intros [= <-].
  pose proof (sub_from_findall 0 name) as H.
  destruct (STEP_PARAM_RE_sub_from (replacer py_str context) 0 name) as [text|e].
  - split; [by exists text|]. intros Hsub. exfalso. apply Hsub.
    intros n Hn%elem_of_list_to_set. apply elem_of_dom.
    by apply (proj1 (Forall_forall _ _) H).
  - destruct H as (n & Hn & Hnone & ->). split.
    + intros Hsub. exfalso.
      assert (n ∈ dom context) as Hd by (apply Hsub; by apply elem_of_list_to_set).
      apply elem_of_dom in Hd as [v Hv]. congruence.
    + intros _. exists n. split; [by apply elem_of_list_to_set|done].
Qed.

Lemma findall_from_skip (skipped rest : str) :
  STEP_PARAM_RE_findall_from (length skipped) (skipped ++ rest)
  = STEP_PARAM_RE_findall_from 0 rest.
Proof. induction skipped as [|c s IH]; [done|]. simpl. apply IH. Qed.

Lemma findall_text (text rest : str) :
  "<"%char ∉ text →
  STEP_PARAM_RE_findall (text ++ rest) = STEP_PARAM_RE_findall rest.
Proof.
  unfold STEP_PARAM_RE_findall. induction text as [|c text IH]; intros Hno; [done|].
  apply not_elem_of_cons in Hno as [? ?]. simpl.
  destruct (Ascii.eqb_spec c "<") as [?|_]; [done|]. by apply IH.
Qed.

Lemma findall_param (name rest : str) :
  name ≠ [] → ">"%char ∉ name → LF ∉ name →
  STEP_PARAM_RE_findall ("<"%char :: name ++ ">"%char :: rest)
  = name :: STEP_PARAM_RE_findall rest.
Proof.
  intros Hne Hgt Hlf. unfold STEP_PARAM_RE_findall. simpl.
  rewrite param_match_name; [|done..].
  change (name ++ ">"%char :: rest) with (name ++ [">"%char] ++ rest).
  rewrite app_assoc.
  replace (S (length name)) with (length (name ++ [">"%char]))
    by (rewrite length_app; simpl; lia).
  by rewrite findall_from_skip.
Qed.

(** X10: in a text made of plain pieces without [<] and of placeholders
    [<name>], [findall] gives the names in order and [sub], for a row with
    all of them, replaces each placeholder by the string form of the row's
    value and leaves the plain pieces as they are. *)
Theorem template_substituted (pieces : list piece) :
  Forall piece_ok pieces →
  Forall (fun n => is_Some (context !! n)) (param_names pieces) →
  STEP_PARAM_RE_findall (template_text pieces) = param_names pieces
  ∧ STEP_PARAM_RE_sub (replacer py_str context) (template_text pieces)
    = Ok (flat_map (piece_value py_str context) pieces).
Proof.
  intros Hok. induction Hok as [|p pieces Hp _ IH]; intros Hkeys; [done|].
  destruct p as [text|name]; simpl in *.
  - destruct (IH Hkeys) as [IH1 IH2]. split.
    + unfold template_text. simpl. by rewrite findall_text.
    + unfold template_text in *. simpl. rewrite sub_text by done. by rewrite IH2.
  - destruct Hp as (Hne & Hgt & Hlf).
    apply Forall_cons in Hkeys as [[v Hv] Hkeys]. destruct (IH Hkeys) as [IH1 IH2]. split.
    + unfold template_text in *. simpl. rewrite <- app_assoc. simpl.
      rewrite findall_param by done. by rewrite IH1.
    + unfold template_text in *. simpl. rewrite <- app_assoc. simpl.
      rewrite sub_param by done.
      assert (replacer py_str context name = Ok (py_str v)) as ->
        by (unfold replacer; by rewrite Hv).
      simpl. by rewrite IH2, Hv.
Qed.
End SubstitutionTheorems.

Lemma render_needs_params_witness :
  (list_to_set ["name"; "age"] ⊆ dom (dict_zip ["name"] ["Alice"]) →
   ∃ text, Step_render id (dict_zip ["name"] ["Alice"]) (named_step "<name> is <age>") = Ok text)
  ∧ (¬ list_to_set ["name"; "age"] ⊆ dom (dict_zip ["name"] ["Alice"]) →
     ∃ n, n ∈ (list_to_set ["name"; "age"] : gset str)
          ∧ dict_zip ["name"] ["Alice"] !! n = None
          ∧ Step_render id (dict_zip ["name"] ["Alice"]) (named_step "<name> is <age>")
            = Raise (KeyError n)).
Proof.
  apply (render_needs_params id (dict_zip ["name"] ["Alice"]) (named_step "<name> is <age>")
           (list_to_set ["name"; "age"])).
  reflexivity.
Defined.

Lemma template_substituted_witness :
  STEP_PARAM_RE_findall "<name> is <age>" = ["name"; "age"]
  ∧ STEP_PARAM_RE_sub (replacer id (dict_zip ["name"; "age"] ["Alice"; "30"])) "<name> is <age>"
    = Ok "Alice is 30".
Proof.
  apply (template_substituted id (dict_zip ["name"; "age"] ["Alice"; "30"])
           [Param "name"; Text " is "; Param "age"]).
  - repeat first [apply Forall_nil_2 | apply Forall_cons_2 | split | discriminate
                 | (apply (bool_decide_unpack _); vm_compute; exact I)].
  - repeat first [apply Forall_nil_2 | apply Forall_cons_2 | (eexists; vm_compute; reflexivity)].
Defined.

(** ** Rendering a scenario *)

Section RenderTheorems.
Context {Value : Type} (py_str : Value → str) (context : gmap str Value).

Lemma render_steps_new (own : list StepId) (h h' : Store) (js : list StepId) :
  render_steps py_str context own h = Ok (js, h') →
  js = seq (length (Store.steps h)) (length own)
  ∧ Store.feature h' = Store.feature h
  ∧ Store.scenario_templates h' = Store.scenario_templates h
  ∧ Store.backgrounds h' = Store.backgrounds h
  ∧ ∃ new, Store.steps h' = Store.steps h ++ new ∧ length new = length own
           ∧ Forall fresh_step new.
Proof.
  revert h h' js. induction own as [|i own IH]; intros h h' js; simpl.
  - intros [= <- <-]. repeat split; try done. exists []. by rewrite app_nil_r.
  - destruct (get_step h i) as [step|]; simpl; [|done].
    destruct (Step_render py_str context step) as [name|]; simpl; [|done].
    destruct (Step_line_number step) as [ln|]; simpl; [|done].
    destruct (render_steps py_str context own _) as [[js' h1]|] eqn:E; simpl; [|done].
    intros [= <- <-]. apply IH in E as (-> & Hf & Hs & Hb & new & Hnew & Hlen & Hfresh).
    simpl in *. rewrite length_app in *. simpl. split; [|split; [done|split; [done|split; [done|]]]].
    + f_equal. f_equal. lia.
    + exists (Step_init (Step.type step) name ln (Step.indent step) (Step.keyword step) :: new).
      rewrite Hnew, <- app_assoc. split; [done|]. split; [simpl; lia|].
      constructor; [by repeat split|done].
Qed.

(** X11: [ScenarioTemplate.render] changes nothing of the document: the
    Feature, the scenario templates, the backgrounds and the steps that
    exist are as before.  For a scenario that is templated it builds one
    new Step per own step, as [Step.__init__] leaves it, and the Scenario
    holds the steps of the background followed by the new ones; for a
    scenario that is not, it builds none and the Scenario holds the steps
    of the property [steps]. *)
Theorem render_keeps_document (self : ScenarioId) (h h' : Store) (scenario : Scenario) :
  ScenarioTemplate_render py_str context self h = Ok (scenario, h') →
  Store.feature h' = Store.feature h
  ∧ Store.scenario_templates h' = Store.scenario_templates h
  ∧ Store.backgrounds h' = Store.backgrounds h
  ∧ ∃ sc background_steps new,
      Store.scenario_templates h !! self = Some sc
      ∧ ScenarioTemplate_steps h self = Ok (background_steps ++ ScenarioTemplate._steps sc)
      ∧ Store.steps h' = Store.steps h ++ new
      ∧ Forall fresh_step new
      ∧ (if ScenarioTemplate.templated sc
         then length new = length (ScenarioTemplate._steps sc)
              ∧ Scenario.steps scenario
                = background_steps ++ seq (length (Store.steps h)) (length new)
         else new = []
              ∧ Scenario.steps scenario = background_steps ++ ScenarioTemplate._steps sc).
Proof.
  unfold ScenarioTemplate_render, ScenarioTemplate_steps, get_scenario.
  destruct (Store.scenario_templates h !! self) as [sc|] eqn:Hsc; simpl; [|done].
  destruct (background_steps h (ScenarioTemplate.feature sc)) as [bs|]; simpl; [|done].
  destruct (ScenarioTemplate.templated sc) eqn:Ht.
  - destruct (render_steps py_str context _ h) as [[js h1]|] eqn:E; simpl; [|done].
    intros [= <- <-]. apply render_steps_new in E as (-> & Hf & Hs & Hb & new & Hnew & Hlen & Hfresh).
    split; [done|]. split; [done|]. split; [done|].
    exists sc, bs, new. rewrite Ht, Hlen. by repeat split.
  - simpl. intros [= <- <-]. split; [done|]. split; [done|]. split; [done|].
    exists sc, bs, []. rewrite Ht, app_nil_r. by repeat split.
Qed.
End RenderTheorems.

Lemma render_keeps_document_witness :
  ∃ scenario h',
    ScenarioTemplate_render id (dict_zip ["name"; "age"] ["Alice"; "30"]) 0 completed_outline
    = Ok (scenario, h')
    ∧ Store.feature h' = Store.feature completed_outline
    ∧ Store.scenario_templates h' = Store.scenario_templates completed_outline
    ∧ Store.backgrounds h' = Store.backgrounds completed_outline
    ∧ ∃ sc background_steps new,
        Store.scenario_templates completed_outline !! 0 = Some sc
        ∧ ScenarioTemplate_steps completed_outline 0
          = Ok (background_steps ++ ScenarioTemplate._steps sc)
        ∧ Store.steps h' = Store.steps completed_outline ++ new
        ∧ Forall fresh_step new
        ∧ (if ScenarioTemplate.templated sc
           then length new = length (ScenarioTemplate._steps sc)
                ∧ Scenario.steps scenario
                  = background_steps ++ seq (length (Store.steps completed_outline)) (length new)
           else new = []
                ∧ Scenario.steps scenario = background_steps ++ ScenarioTemplate._steps sc).
Proof.
  eexists _, _. split; [vm_compute; reflexivity|].
  apply (render_keeps_document id (dict_zip ["name"; "age"] ["Alice"; "30"]) 0 completed_outline).
  vm_compute. reflexivity.
Defined.

(** ** What the validator accepts *)

Lemma mapM_Ok_inv {A B} (f : A → result B) (l : list A) (ys : list B) :
  mapM f l = Ok ys → Forall2 (fun x y => f x = Ok y) l ys.
Proof.
  revert ys. induction l as [|x l IH]; intros ys; simpl.
  - intros [= <-]. constructor.
  - destruct (f x) as [y|] eqn:Hy; simpl; [|done].
    destruct (mapM f l) as [ys'|]; simpl; [|done].
    intros [= <-]. constructor; [done|]. by apply IH.
Qed.

Section ValidatorAccepts.
Context (format_type : Mode → str).
Context (repr_scenario : Store → ScenarioId → result str).
Context (repr_background : Store → BackgroundId → result str).

Lemma raise_ValidationError_not_Ok {A} (parts : list (result str)) (a : A) :
  raise_ValidationError parts ≠ Ok a.
Proof. unfold raise_ValidationError. by destruct (mapM id parts). Qed.

Lemma ScenarioTemplate_validate_inv (h : Store) (i : ScenarioId) :
  ScenarioTemplate_validate format_type repr_scenario repr_background h i = Ok tt →
  ∃ sc, Store.scenario_templates h !! i = Some sc ∧ scenario_ok h i sc.
Proof.
  unfold ScenarioTemplate_validate, get_scenario.
  destruct (Store.scenario_templates h !! i) as [sc|] eqn:Hsc; simpl; [|done].
  destruct (ScenarioTemplate.feature sc) as [[]|] eqn:Hf; [|done].
  destruct (mapM (get_step h) _) as [steps|] eqn:Hsteps; simpl; [|done].
  destruct (mapM (ScenarioTemplate_validate_step _ _ _ h i) steps) as [us|] eqn:Hus;
    simpl; [|done].
  intros _. exists sc. split; [done|]. split; [done|].
  intros j Hj. apply mapM_Ok_inv in Hsteps, Hus.
  apply list_elem_of_lookup in Hj as [k Hk].
  destruct (Forall2_lookup_l _ _ _ _ _ Hsteps Hk) as (s & Hs & Hget).
  destruct (Forall2_lookup_l _ _ _ _ _ Hus Hs) as (u & _ & Hv).
  exists s. unfold get_step in Hget.
  destruct (Store.steps h !! j) as [s'|]; simpl in Hget; [|done].
  injection Hget as ->. split; [done|].
  unfold ScenarioTemplate_validate_step in Hv.
  destruct (Step.background s); [by apply raise_ValidationError_not_Ok in Hv|].
  destruct (bool_decide (Step.scenario s ≠ Some i)) eqn:Hd;
    [by apply raise_ValidationError_not_Ok in Hv|].
  apply bool_decide_eq_false in Hd. split; [|done].
  by destruct (decide (Step.scenario s = Some i)).
Qed.

Lemma Background_validate_inv (h : Store) (b : BackgroundId) :
  Background_validate format_type repr_scenario repr_background h b = Ok tt →
  ∃ bg, Store.backgrounds h !! b = Some bg ∧ background_ok h b bg.
Proof.
  unfold Background_validate, get_background.
  destruct (Store.backgrounds h !! b) as [bg|] eqn:Hbg; simpl; [|done].
  destruct (Background.feature bg) as [[]|] eqn:Hf;
    [|intros Hv; by apply raise_ValidationError_not_Ok in Hv].
  destruct (mapM (get_step h) _) as [steps|] eqn:Hsteps; simpl; [|done].
  destruct (mapM (Background_validate_step _ _ _ h b) steps) as [us|] eqn:Hus;
    simpl; [|done].
  intros _. exists bg. split; [done|]. split; [done|].
  intros j Hj. apply mapM_Ok_inv in Hsteps, Hus.
  apply list_elem_of_lookup in Hj as [k Hk].
  destruct (Forall2_lookup_l _ _ _ _ _ Hsteps Hk) as (s & Hs & Hget).
  destruct (Forall2_lookup_l _ _ _ _ _ Hus Hs) as (u & _ & Hv).
  exists s. unfold get_step in Hget.
  destruct (Store.steps h !! j) as [s'|]; simpl in Hget; [|done].
  injection Hget as ->. split; [done|].
  unfold Background_validate_step in Hv.
  destruct (bool_decide (Step.background s ≠ Some b)) eqn:Hd;
    [by apply raise_ValidationError_not_Ok in Hv|].
  apply bool_decide_eq_false in Hd.
  destruct (Step.scenario s); [by apply raise_ValidationError_not_Ok in Hv|].
  split; [done|]. by destruct (decide (Step.background s = Some b)).
Qed.

(** X12: on a store whose objects are distinct, so that the tests
    [step.scenario != self] and [step.background != self], which compare
    the fields of two objects, come to the comparison of their handles,
    [Feature.validate] returns without raising exactly on the well-formed
    trees: every key of [scenarios] is the name of its scenario, every
    such scenario and the background refer to the Feature, every own step
    of a scenario refers to that scenario and to no background, and every
    step of the background refers to it and to no scenario.  On any other
    such tree it raises.  The stores that [parse_feature] builds have
    distinct objects. *)
Theorem Feature_validate_accepts (h : Store) :
  distinct_objects h →
  Feature_validate format_type repr_scenario repr_background h = Ok tt ↔ well_formed h.
Proof.
  intros _. split; [|apply Feature_validate_well_formed].
  unfold Feature_validate.
  destruct (mapM _ (Feature.scenarios (Store.feature h))) as [us|] eqn:Hus; simpl; [|done].
  intros Hbg. apply mapM_Ok_inv in Hus. split.
  - intros k i [n Hn]%list_elem_of_lookup.
    destruct (Forall2_lookup_l _ _ _ _ _ Hus Hn) as (u & _ & Hv).
    unfold Feature_validate_entry, get_scenario in Hv.
    destruct (Store.scenario_templates h !! i) as [sc|] eqn:Hsc; simpl in Hv; [|done].
    destruct (bool_decide (k ≠ ScenarioTemplate.name sc)) eqn:Hd; [done|].
    apply bool_decide_eq_false in Hd. destruct u.
    apply ScenarioTemplate_validate_inv in Hv as (sc' & Hsc' & Hok).
    exists sc. rewrite Hsc in Hsc'. injection Hsc' as <-.
    split; [done|]. split; [|done].
    by destruct (decide (k = ScenarioTemplate.name sc)).
  - intros b Hb. rewrite Hb in Hbg. by apply Background_validate_inv.
Qed.
End ValidatorAccepts.

(** ** The documents that the parser builds *)

Section ParsedDocuments.
Context (format_type : Mode → str).
Context (repr_scenario : Store → ScenarioId → result str).
Context (repr_background : Store → BackgroundId → result str).

(** X13: whatever the text, a document that [parse_feature] returns is
    accepted by [Feature.validate]; so is, by its own [validate], every
    scenario that the parse built, also one that a later scenario of the
    same name replaced in the collection, and every background, also one
    that a later Background header replaced. *)
Theorem parsed_document_validates (abs_filename rel_filename filename content : str)
    (h : Store) :
  parse_feature abs_filename rel_filename filename content = Ok h →
  Feature_validate format_type repr_scenario repr_background h = Ok tt
  ∧ Forall (fun i => ScenarioTemplate_validate format_type repr_scenario repr_background h i
                     = Ok tt)
      (seq 0 (length (Store.scenario_templates h)))
  ∧ Forall (fun b => Background_validate format_type repr_scenario repr_background h b = Ok tt)
      (seq 0 (length (Store.backgrounds h))).
Proof.
  intros Hp. pose proof (parse_feature_inv _ _ _ _ _ Hp) as Hinv.
  split; [by apply Feature_validate_well_formed, store_inv_well_formed|].
  split; apply Forall_forall; intros i [_ Hi]%elem_of_seq; simpl in Hi.
  - destruct (lookup_lt_is_Some_2 _ _ Hi) as [sc Hsc].
    eapply ScenarioTemplate_validate_ok; [done|]. by apply (inv_scenarios h Hinv).
  - destruct (lookup_lt_is_Some_2 _ _ Hi) as [bg Hbg].
    eapply Background_validate_ok; [done|]. by apply (inv_backgrounds h Hinv).
Qed.

(** X14: no step of a document that [parse_feature] returns can be read:
    its text, its line number, its parameters, its rendering against any
    row and its [str] all raise [AttributeError], because the parser
    builds every step with [Step.__init__], which stores neither the text
    nor the line number, and never assigns them afterwards. *)
Theorem parsed_step_unreadable {Value : Type} (py_str : Value → str)
    (context : gmap str Value) (abs_filename rel_filename filename content : str)
    (h : Store) (j : StepId) (step : Step) :
  parse_feature abs_filename rel_filename filename content = Ok h →
  Store.steps h !! j = Some step →
  Step_name step = Raise (AttributeError "Step" "_name")
  ∧ Step_line_number step = Raise (AttributeError "Step" "line_number")
  ∧ Step_params step = Raise (AttributeError "Step" "_name")
  ∧ Step_render py_str context step = Raise (AttributeError "Step" "_name")
  ∧ Step_str format_type step = Raise (AttributeError "Step" "_name").
Proof.
  intros Hp Hj.
  destruct (inv_unnamed h (parse_feature_inv _ _ _ _ _ Hp) j step Hj) as [Hn Hl].
  pose proof (Step_name_unnamed step Hn) as Hname.
  split; [done|]. split; [unfold Step_line_number; by rewrite Hl|].
  split; [unfold Step_params; by rewrite Hname|].
  split; [by apply Step_render_unnamed|].
  unfold Step_str. by rewrite Hname.
Qed.
End ParsedDocuments.

Lemma parsed_document_validates_witness :
  Feature_validate (fun _ => []) (fun _ _ => Ok []) (fun _ _ => Ok []) (parsed background_file)
  = Ok tt
  ∧ Forall (fun i => ScenarioTemplate_validate (fun _ => []) (fun _ _ => Ok [])
                       (fun _ _ => Ok []) (parsed background_file) i = Ok tt)
      (seq 0 (length (Store.scenario_templates (parsed background_file))))
  ∧ Forall (fun b => Background_validate (fun _ => []) (fun _ _ => Ok [])
                       (fun _ _ => Ok []) (parsed background_file) b = Ok tt)
      (seq 0 (length (Store.backgrounds (parsed background_file)))).
Proof.
  apply (parsed_document_validates (fun _ => []) (fun _ _ => Ok []) (fun _ _ => Ok [])
           abs_path rel_path file_name (str_join [LF] background_file)).
  vm_compute. reflexivity.
Defined.

Lemma parsed_step_unreadable_witness :
  ∃ step,
    Store.steps (parsed docstring_file) !! 0 = Some step
    ∧ Step_name step = Raise (AttributeError "Step" "_name")
    ∧ Step_line_number step = Raise (AttributeError "Step" "line_number")
    ∧ Step_params step = Raise (AttributeError "Step" "_name")
    ∧ Step_render id (dict_zip ["name"] ["Alice"]) step = Raise (AttributeError "Step" "_name")
    ∧ Step_str (fun _ => "Given") step = Raise (AttributeError "Step" "_name").
Proof.
  eexists. split; [vm_compute; reflexivity|].
  apply (parsed_step_unreadable (fun _ => "Given") id (dict_zip ["name"] ["Alice"])
           abs_path rel_path file_name (str_join [LF] docstring_file) (parsed docstring_file) 0).
  - vm_compute. reflexivity.
  - vm_compute. reflexivity.
Defined.

(** X15: rendering a scenario of a document that [parse_feature]
    returns, against any row: a templated scenario that has a step of its
    own raises [AttributeError] on the text of its first step; any other
    scenario renders to a Scenario that carries its name, line number and
    tags and the steps of the property [steps], and nothing is built. *)
Theorem render_parsed_scenario {Value : Type} (py_str : Value → str)
    (context : gmap str Value) (abs_filename rel_filename filename content : str)
    (h : Store) (i : ScenarioId) (sc : ScenarioTemplate) :
  parse_feature abs_filename rel_filename filename content = Ok h →
  Store.scenario_templates h !! i = Some sc →
  ∃ steps,
    ScenarioTemplate_steps h i = Ok steps
    ∧ ScenarioTemplate_render py_str context i h
      = if ScenarioTemplate.templated sc && bool_decide (ScenarioTemplate._steps sc ≠ [])
        then Raise (AttributeError "Step" "_name")
        else Ok (Scenario.mk (Some the_feature) (ScenarioTemplate.name sc)
                   (ScenarioTemplate.line_number sc) steps (ScenarioTemplate.tags sc), h).
Proof.
  intros Hp Hi. pose proof (parse_feature_inv _ _ _ _ _ Hp) as Hinv.
  destruct (inv_scenarios h Hinv i sc Hi) as [Hf Hsteps].
  destruct (background_steps_inv h Hinv) as [bs Hbs].
  exists (bs ++ ScenarioTemplate._steps sc). split.
  { unfold ScenarioTemplate_steps, get_scenario. rewrite Hi. simpl. rewrite Hf, Hbs. done. }
  destruct (ScenarioTemplate.templated sc) eqn:Ht; simpl.
  - case_bool_decide as Hne.
    + by eapply render_parsed_templated_raises.
    + unfold ScenarioTemplate_render, get_scenario. rewrite Hi. simpl.
      rewrite Hf, Hbs, Ht, Hne. done.
  - unfold ScenarioTemplate_render, get_scenario. rewrite Hi. simpl.
    rewrite Hf, Hbs, Ht. done.
Qed.

Lemma render_parsed_scenario_witness :
  ∃ steps,
    ScenarioTemplate_steps (parsed background_file) 0 = Ok steps
    ∧ ScenarioTemplate_render id (dict_zip ["name"] ["Alice"]) 0 (parsed background_file)
      = Ok (Scenario.mk (Some the_feature) "buy" 4 steps ∅, parsed background_file).
Proof.
  apply (render_parsed_scenario id (dict_zip ["name"] ["Alice"])
           abs_path rel_path file_name (str_join [LF] background_file)
           (parsed background_file) 0
           (ScenarioTemplate.mk (Some the_feature) "buy" 4 false ∅ Examples.init [1; 2])).
  - vm_compute. reflexivity.
  - vm_compute. reflexivity.
Defined.

(** ** The errors of the parser *)

Lemma add_step_feature :
  (∀ sc j h h', ScenarioTemplate_add_step sc j h = Ok h' → Store.feature h' = Store.feature h)
  ∧ (∀ b j h h', Background_add_step b j h = Ok h' → Store.feature h' = Store.feature h).
Proof.
  split; intros x j h h'; unfold ScenarioTemplate_add_step, Background_add_step,
    get_step, get_scenario, get_background.
  - destruct (Store.steps h !! j); simpl; [|done].
    match goal with |- context [from_handle ?o] => destruct o end; simpl; [|done].
    by intros [= <-].
  - destruct (Store.steps h !! j); simpl; [|done].
    match goal with |- context [from_handle ?o] => destruct o end; simpl; [|done].
    by intros [= <-].
Qed.

Lemma build_line_raise (n indent : nat) (stripped keyword parsed : str)
    (prev_line : option str) (mode : option Mode) (scenario : option ScenarioId)
    (h : Store) (e : exn) :
  store_inv h →
  (∀ i, scenario = Some i → i < length (Store.scenario_templates h)) →
  (mode_in mode STEP_TYPES = true → scenario = None →
   Feature.background (Store.feature h) ≠ None) →
  build_line n indent stripped keyword parsed prev_line mode scenario h = Raise e →
  e = AttributeError "NoneType" "examples" ∧ scenario = None.
Proof.
  intros Hinv Hsc Hguard. unfold build_line.
  assert (∀ (e' : Examples → Examples) (m : option Mode),
    match scenario with
    | Some i =>
        sc ← get_scenario h i;
        Ok (put_scenario i (ScenarioTemplate.set_examples (e' (ScenarioTemplate.examples sc)) sc) h,
            scenario, m, @None StepId)
    | None => Raise (AttributeError "NoneType" "examples")
    end = Raise e → e = AttributeError "NoneType" "examples" ∧ scenario = None) as Hex.
  { intros e' m. destruct scenario as [i|]; [|by intros [= <-]].
    destruct (lookup_lt_is_Some_2 _ _ (Hsc i eq_refl)) as [sc Hi].
    unfold get_scenario. rewrite Hi. done. }
  assert (∀ type, mode_in mode STEP_TYPES = true →
    (let '(step, h0) := new_step (Step_init type parsed n indent keyword) h in
     match Feature.background (Store.feature h0), scenario with
     | Some b, None => h1 ← Background_add_step b step h0; Ok (h1, scenario, mode, Some step)
     | _, Some sc => h1 ← ScenarioTemplate_add_step sc step h0; Ok (h1, scenario, mode, Some step)
     | None, None => Raise (AttributeError "NoneType" "add_step")
     end) = Raise e → e = AttributeError "NoneType" "examples" ∧ scenario = None) as Hstep.
  { intros type Hmode. cbn -[Background_add_step ScenarioTemplate_add_step].
    destruct scenario as [sc|].
    - destruct (lookup_lt_is_Some_2 _ _ (Hsc sc eq_refl)) as [scr Hscr].
      destruct (store_inv_scenario_add_step h sc scr type parsed n indent keyword Hscr Hinv)
        as (h1 & Hadd & _).
      simpl in Hadd. destruct (Feature.background (Store.feature h)); by rewrite Hadd.
    - destruct (Feature.background (Store.feature h)) as [b|] eqn:Hb;
        [|by destruct (Hguard Hmode eq_refl)].
      destruct (store_inv_background_add_step h b type parsed n indent keyword
                  (inv_background h Hinv b Hb) Hinv) as (h1 & Hadd & _).
      simpl in Hadd. by rewrite Hadd. }
  destruct mode as [[]|]; try done; try (by apply Hstep).
  - apply (Hex (Examples.set_line_number (Some n))).
  - apply (Hex (Examples_set_param_names (filter (fun l => l <> []) (split_line parsed)))).
  - apply (Hex (Examples_add_example (split_line stripped))).
Qed.

Lemma build_line_guard (n indent : nat) (stripped keyword parsed : str)
    (prev_line : option str) (mode : option Mode) (scenario : option ScenarioId)
    (h h' : Store) (sc' : option ScenarioId) (m' : option Mode) (s' : option StepId) :
  build_line n indent stripped keyword parsed prev_line mode scenario h = Ok (h', sc', m', s') →
  (mode_in mode allowed_prev_mode = true → sc' = None →
   Feature.background (Store.feature h') ≠ None)
  ∧ (Feature.background (Store.feature h) ≠ None →
     Feature.background (Store.feature h') ≠ None)
  ∧ (scenario ≠ None → sc' ≠ None).
Proof.
  destruct add_step_feature as [Hs Hb]. intros H.
  split; [|split; [|by eapply build_line_scenario]].
  - revert H. unfold build_line.
    destruct mode as [[]|]; try done.
    + intros [= <- <- <- <-] _ _. done.
    + cbn -[Background_add_step ScenarioTemplate_add_step].
      destruct (Feature.background (Store.feature h)) as [b|] eqn:Hbg, scenario as [sc|];
        try done.
      * destruct (ScenarioTemplate_add_step _ _ _); simpl; [|done]. by intros [= <- <- <- <-].
      * destruct (Background_add_step _ _ _) as [h1|] eqn:E; simpl; [|done].
        intros [= <- <- <- <-] _ _. apply Hb in E. rewrite E. simpl. by rewrite Hbg.
      * destruct (ScenarioTemplate_add_step _ _ _); simpl; [|done]. by intros [= <- <- <- <-].
    + cbn -[Background_add_step ScenarioTemplate_add_step].
      destruct (Feature.background (Store.feature h)) as [b|] eqn:Hbg, scenario as [sc|];
        try done.
      * destruct (ScenarioTemplate_add_step _ _ _); simpl; [|done]. by intros [= <- <- <- <-].
      * destruct (Background_add_step _ _ _) as [h1|] eqn:E; simpl; [|done].
        intros [= <- <- <- <-] _ _. apply Hb in E. rewrite E. simpl. by rewrite Hbg.
      * destruct (ScenarioTemplate_add_step _ _ _); simpl; [|done]. by intros [= <- <- <- <-].
  - revert H. unfold build_line. intros H Hbg.
    destruct mode as [[]|]; cbn -[Background_add_step ScenarioTemplate_add_step get_scenario] in H.
    all: try (injection H as <- <- <- <-; simpl; done).
    all: try (destruct scenario as [i|]; [|done]; destruct (get_scenario h i);
              simplify_eq/=; done).
    all: destruct (Feature.background (Store.feature h)) as [b|] eqn:Hbg', scenario as [sc|];
      try done.
    all: match type of H with
         | context [ScenarioTemplate_add_step ?a ?b ?c] =>
             destruct (ScenarioTemplate_add_step a b c) as [h1|] eqn:E; simplify_eq/=;
             apply Hs in E; rewrite E; simpl; by rewrite ?Hbg'
         | context [Background_add_step ?a ?b ?c] =>
             destruct (Background_add_step a b c) as [h1|] eqn:E; simplify_eq/=;
             apply Hb in E; rewrite E; simpl; by rewrite ?Hbg'
         end.
Qed.

Lemma feature_mode_line_background filename n clean prev_mode prev_line description h d' h' :
  feature_mode_line filename n clean prev_mode prev_line description h = Ok (d', h') →
  Feature.background (Store.feature h') = Feature.background (Store.feature h).
Proof. unfold feature_mode_line. intros H. destruct prev_mode as [[]|]; by simplify_eq. Qed.

Lemma read_line_raise (filename : str) (st : ParseState) (n : nat) (line : str) (e : exn) :
  state_inv st → guard_inv st →
  read_line filename st n line = Raise e → parse_error_at filename n line e.
Proof.
  intros [Hinv Hsc Hstep] Hguard. rewrite read_line_resolved. cbv zeta.
  destruct (_ && _); [done|].
  destruct (bool_decide (ParseState.scenario st = None) && _ && _) eqn:Hg.
  { intros [= <-]. by left. }
  destruct (bool_decide (resolved_mode st line = Some FEATURE)) eqn:Hfeat.
  - destruct (feature_mode_line _ _ _ _ _ _ _) as [[d h1]|e1] eqn:Hf; cbn [mbind result_bind].
    + pose proof (feature_mode_line_background _ _ _ _ _ _ _ _ _ Hf) as Hbg.
      apply feature_mode_line_inv in Hf as (Hinv1 & Hlen & _); [|done].
      destruct (build_line _ _ _ _ _ _ _ _ _) as [[[[h2 sc] m] stp]|e2] eqn:Hb;
        cbn [mbind result_bind]; [done|].
      intros [= <-]. apply build_line_raise in Hb as [-> _]; [by right; right|done| |].
      * rewrite Hlen. apply Hsc.
      * apply bool_decide_eq_true in Hfeat. by rewrite Hfeat.
    + intros [= <-]. apply feature_mode_line_error in Hf as ->. right. by left.
  - cbn [mbind result_bind].
    destruct (build_line _ _ _ _ _ _ _ _ _) as [[[[h2 sc] m] stp]|e2] eqn:Hb;
      cbn [mbind result_bind]; [done|].
    intros [= <-]. apply build_line_raise in Hb as [-> _]; [by right; right|done|done|].
    intros Hmode Hnone. apply Hguard; [|done].
    rewrite Hnone, Hmode in Hg. rewrite bool_decide_eq_true_2 in Hg by done.
    simpl in Hg. rewrite andb_true_r in Hg. by apply negb_false_iff in Hg.
Qed.

Lemma read_line_guard (filename : str) (st st' : ParseState) (n : nat) (line : str) :
  read_line filename st n line = Ok st' → guard_inv st → guard_inv st'.
Proof.
  rewrite read_line_resolved. cbv zeta. intros H Hguard.
  destruct (_ && _); [by simplify_eq|].
  destruct (_ && _ && _); [done|].
  revert H.
  destruct (bool_decide (resolved_mode st line = Some FEATURE)) eqn:Hfeat.
  - apply bool_decide_eq_true in Hfeat. rewrite Hfeat.
    destruct (feature_mode_line _ _ _ _ _ _ _) as [[d h1]|e1]; cbn [mbind result_bind]; [|done].
    destruct (build_line _ _ _ _ _ _ _ _ _) as [[[[h2 sc] m] stp]|e2];
      cbn [mbind result_bind]; [|done].
    intros [= <-]. by intros ?.
  - cbn [mbind result_bind].
    destruct (build_line _ _ _ _ _ _ _ _ _) as [[[[h2 sc] m] stp]|e2] eqn:Hb;
      cbn [mbind result_bind]; [|done].
    intros [= <-]. apply build_line_guard in Hb as (Hb & _). exact Hb.
Qed.

Lemma parse_feature_line_raise (filename : str) (st : ParseState) (n : nat) (line : str)
    (e : exn) :
  state_inv st → guard_inv st →
  parse_feature_line filename st n line = Raise e → parse_error_at filename n line e.
Proof.
  intros Hinv Hguard. unfold parse_feature_line, continues_step.
  destruct (ParseState.step st) as [i|] eqn:Hi; cbn [mbind result_bind];
    [|by apply read_line_raise].
  destruct (lookup_lt_is_Some_2 _ _ (inv_step st Hinv i Hi)) as [s Hs].
  unfold get_step. rewrite Hs. cbn [from_handle mbind result_bind].
  destruct (_ || _); cbn [mbind result_bind]; [|by apply read_line_raise].
  by rewrite Hs.
Qed.

Lemma parse_feature_line_guard (filename : str) (st st' : ParseState) (n : nat) (line : str) :
  parse_feature_line filename st n line = Ok st' → guard_inv st → guard_inv st'.
Proof.
  unfold parse_feature_line.
  destruct (continues_step st line) as [[i|]|e]; cbn [mbind result_bind]; [| |done].
  - destruct (get_step _ _); cbn [mbind result_bind]; [|done]. by intros [= <-].
  - apply read_line_guard.
Qed.

Lemma parse_feature_lines_raise (filename : str) (st : ParseState) (n : nat)
    (lines : list str) (e : exn) :
  state_inv st → guard_inv st →
  parse_feature_lines filename st n lines = Raise e →
  ∃ k raw, lines !! k = Some raw ∧ parse_error_at filename (n + k) raw e.
Proof.
  revert st n. induction lines as [|l lines IH]; intros st n Hinv Hguard; simpl; [done|].
  destruct (parse_feature_line filename st n l) as [st1|e1] eqn:E; simpl.
  - intros H. apply IH in H as (k & raw & Hk & He).
    + exists (S k), raw. split; [done|]. by replace (n + S k) with (S n + k) by lia.
    + by eapply parse_feature_line_inv.
    + by eapply parse_feature_line_guard.
  - intros [= <-]. exists 0, l. split; [done|]. rewrite Nat.add_0_r.
    by eapply parse_feature_line_raise.
Qed.

(** X16: when [parse_feature] raises, it raises on one line of the text
    one of three errors: the structural error or the multiple-features
    error, each carrying the 1-based number of the line, its text without
    comment and surrounding blanks, and the file name, or the
    [AttributeError] of reading [examples] on [None].  It raises nothing
    else: the call [scenario.add_step] is never reached with no scenario,
    and no table line, step or continuation line fails otherwise. *)
Theorem parse_feature_errors (abs_filename rel_filename filename content : str) (e : exn) :
  parse_feature abs_filename rel_filename filename content = Raise e →
  ∃ k raw, splitlines content !! k = Some raw ∧ parse_error_at filename (S k) raw e.
Proof.
  unfold parse_feature.
  destruct (parse_feature_lines _ _ _ _) as [st|e1] eqn:E; simpl; [done|].
  intros [= <-]. apply parse_feature_lines_raise in E; [done|apply initial_state_inv|].
  by intros ?.
Qed.

Lemma parse_feature_errors_witness :
  ∃ k raw,
    splitlines (str_join [LF] ["Feature: a"; "Scenario: s"; "Feature: b  # again"]) !! k
    = Some raw
    ∧ parse_error_at file_name (S k) raw
        (FeatureError multiple_features_message 3 "Feature: b" file_name).
Proof.
  apply (parse_feature_errors abs_path rel_path file_name
           (str_join [LF] ["Feature: a"; "Scenario: s"; "Feature: b  # again"])).
  vm_compute. reflexivity.
Defined.

(** ** The scenarios of a parsed document *)

Lemma scenario_idents_put (h : Store) (i : ScenarioId) (sc sc' : ScenarioTemplate) :
  Store.scenario_templates h !! i = Some sc →
  ScenarioTemplate.name sc' = ScenarioTemplate.name sc →
  ScenarioTemplate.line_number sc' = ScenarioTemplate.line_number sc →
  scenario_idents (put_scenario i sc' h) = scenario_idents h.
Proof.
  intros Hi Hn Hl. unfold scenario_idents, put_scenario. simpl.
  rewrite list_fmap_insert, Hn, Hl. apply list_insert_id.
  by rewrite list_lookup_fmap, Hi.
Qed.

Lemma add_step_scenarios :
  (∀ sc j h h', ScenarioTemplate_add_step sc j h = Ok h' →
     scenario_idents h' = scenario_idents h)
  ∧ (∀ b j h h', Background_add_step b j h = Ok h' →
       scenario_idents h' = scenario_idents h).
Proof.
  split; intros x j h h'; unfold ScenarioTemplate_add_step, Background_add_step,
    get_step, get_scenario, get_background.
  - destruct (Store.steps h !! j); simpl; [|done].
    destruct (Store.scenario_templates h !! x) as [sc|] eqn:Hx; simpl; [|done].
    intros [= <-].
    by rewrite (scenario_idents_put (put_step j _ h) x sc).
  - destruct (Store.steps h !! j); simpl; [|done].
    destruct (Store.backgrounds h !! x); simpl; [|done].
    by intros [= <-].
Qed.

Lemma build_line_scenarios (n indent : nat) (stripped keyword parsed : str)
    (prev_line : option str) (mode : option Mode) (scenario : option ScenarioId)
    (h h' : Store) (sc' : option ScenarioId) (m' : option Mode) (s' : option StepId) :
  build_line n indent stripped keyword parsed prev_line mode scenario h = Ok (h', sc', m', s') →
  (scenario_idents h' = scenario_idents h ++ [(parsed, n)]
   ∧ Feature.scenarios (Store.feature h')
     = odict_setitem parsed (length (Store.scenario_templates h))
         (Feature.scenarios (Store.feature h)))
  ∨ (scenario_idents h' = scenario_idents h
     ∧ Feature.scenarios (Store.feature h') = Feature.scenarios (Store.feature h)).
Proof.
  destruct add_step_scenarios as [Hs Hb]. destruct add_step_feature as [Hsf Hbf].
  unfold build_line. intros H.
  destruct mode as [[]|]; cbn -[Background_add_step ScenarioTemplate_add_step get_scenario] in H.
  all: try (injection H as <- <- <- <-; right; done).
  all: try (injection H as <- <- <- <-; left; split; [|done];
            unfold scenario_idents; simpl; by rewrite fmap_app).
  all: try (destruct scenario as [i|]; [|done]; unfold get_scenario in H;
            destruct (Store.scenario_templates h !! i) as [sc|] eqn:Hi; simplify_eq/=;
            right; split; [by rewrite (scenario_idents_put h i sc)|done]).
  all: destruct (Feature.background (Store.feature h)) as [b|], scenario as [sc|]; try done.
  all: match type of H with
       | context [ScenarioTemplate_add_step ?a ?b ?c] =>
           destruct (ScenarioTemplate_add_step a b c) as [h1|] eqn:E; simplify_eq/=;
           right; split; [by rewrite (Hs _ _ _ _ E)|by rewrite (Hsf _ _ _ _ E)]
       | context [Background_add_step ?a ?b ?c] =>
           destruct (Background_add_step a b c) as [h1|] eqn:E; simplify_eq/=;
           right; split; [by rewrite (Hb _ _ _ _ E)|by rewrite (Hbf _ _ _ _ E)]
       end.
Qed.

Lemma feature_mode_line_scenarios filename n clean prev_mode prev_line description h d' h' :
  feature_mode_line filename n clean prev_mode prev_line description h = Ok (d', h') →
  Store.scenario_templates h' = Store.scenario_templates h
  ∧ Feature.scenarios (Store.feature h') = Feature.scenarios (Store.feature h).
Proof. unfold feature_mode_line. intros H. destruct prev_mode as [[]|]; by simplify_eq. Qed.

Lemma parse_feature_line_scenarios (filename : str) (st st' : ParseState) (n : nat)
    (line : str) :
  parse_feature_line filename st n line = Ok st' →
  let h := ParseState.store st in
  let h' := ParseState.store st' in
  (scenario_idents h' = scenario_idents h ++ [((parse_line (strip_comments line)).2, n)]
   ∧ Feature.scenarios (Store.feature h')
     = odict_setitem (parse_line (strip_comments line)).2 (length (Store.scenario_templates h))
         (Feature.scenarios (Store.feature h)))
  ∨ (scenario_idents h' = scenario_idents h
     ∧ Feature.scenarios (Store.feature h') = Feature.scenarios (Store.feature h)).
Proof.
  unfold parse_feature_line.
  destruct (continues_step st line) as [[i|]|e]; cbn [mbind result_bind]; [| |done].
  { destruct (get_step _ _); cbn [mbind result_bind]; [|done]. intros [= <-]. by right. }
  rewrite read_line_resolved. cbv zeta.
  destruct (_ && _); [intros [= <-]; by right|].
  destruct (_ && _ && _); [done|].
  destruct (bool_decide (resolved_mode st line = Some FEATURE)).
  - destruct (feature_mode_line _ _ _ _ _ _ _) as [[d h1]|e1] eqn:Hf;
      cbn [mbind result_bind]; [|done].
    apply feature_mode_line_scenarios in Hf as [Ht Hs].
    destruct (build_line _ _ _ _ _ _ _ _ _) as [[[[h2 sc] m] stp]|e2] eqn:Hb;
      cbn [mbind result_bind]; [|done].
    intros [= <-]. simpl. apply build_line_scenarios in Hb.
    unfold scenario_idents in *. by rewrite Ht, Hs in Hb.
  - cbn [mbind result_bind].
    destruct (build_line _ _ _ _ _ _ _ _ _) as [[[[h2 sc] m] stp]|e2] eqn:Hb;
      cbn [mbind result_bind]; [|done].
    intros [= <-]. simpl. by apply build_line_scenarios in Hb.
Qed.

Lemma registry_from_snoc (i : ScenarioId) (d : list (str * ScenarioId)) (names : list str)
    (name : str) :
  registry_from i d (names ++ [name])
  = odict_setitem name (i + length names) (registry_from i d names).
Proof.
  revert i d. induction names as [|x names IH]; intros i d; simpl.
  - by rewrite Nat.add_0_r.
  - rewrite IH. by replace (S i + length names) with (i + S (length names)) by lia.
Qed.

Lemma parse_feature_lines_scenarios (filename : str) (st st' : ParseState) (n : nat)
    (lines : list str) :
  parse_feature_lines filename st n lines = Ok st' →
  ∃ new, scenario_idents (ParseState.store st') = scenario_idents (ParseState.store st) ++ new
         ∧ sublist new (numbered_from n lines)
         ∧ Feature.scenarios (Store.feature (ParseState.store st'))
           = registry_from (length (Store.scenario_templates (ParseState.store st)))
               (Feature.scenarios (Store.feature (ParseState.store st))) new.*1.
Proof.
  revert st n. induction lines as [|l lines IH]; intros st n; simpl.
  - intros [= <-]. exists []. by rewrite app_nil_r.
  - destruct (parse_feature_line filename st n l) as [st1|e] eqn:E; simpl; [|done].
    intros H. apply IH in H as (new & Hid & Hsub & Hreg).
    assert (length (Store.scenario_templates (ParseState.store st1))
            = length (scenario_idents (ParseState.store st1))) as Hlen
      by (unfold scenario_idents; by rewrite length_fmap).
    apply parse_feature_line_scenarios in E as [[Hid1 Hreg1]|[Hid1 Hreg1]]; simpl in *.
    + exists (((parse_line (strip_comments l)).2, n) :: new). split; [|split].
      * rewrite Hid, Hid1, <- app_assoc. done.
      * by apply sublist_skip.
      * rewrite Hreg, Hreg1, Hlen, Hid1, length_app. simpl.
        unfold scenario_idents. rewrite length_fmap.
        by replace (length (Store.scenario_templates (ParseState.store st)) + 1)
          with (S (length (Store.scenario_templates (ParseState.store st)))) by lia.
    + exists new. split; [by rewrite Hid, Hid1|]. split; [by apply sublist_cons|].
      rewrite Hreg, Hreg1, Hlen, Hid1. unfold scenario_idents. by rewrite length_fmap.
Qed.

Lemma numbered_from_located (n : nat) (lines : list str) (new : list (str * nat))
    (name : str) (number : nat) :
  sublist new (numbered_from n lines) → (name, number) ∈ new →
  ∃ k raw, lines !! k = Some raw ∧ number = n + k
           ∧ name = (parse_line (strip_comments raw)).2.
Proof.
  revert n new. induction lines as [|l lines IH]; intros n new; simpl.
  - intros ->%sublist_nil_r ?%elem_of_nil. done.
  - intros [Hsub|(new' & -> & Hsub)]%sublist_cons_r Hin.
    + destruct (IH _ _ Hsub Hin) as (k & raw & ? & -> & ?).
      exists (S k), raw. split; [done|]. split; [lia|done].
    + apply elem_of_cons in Hin as [[= -> ->]|Hin].
      * exists 0, l. split; [done|]. split; [lia|done].
      * destruct (IH _ _ Hsub Hin) as (k & raw & ? & -> & ?).
        exists (S k), raw. split; [done|]. split; [lia|done].
Qed.

Lemma numbered_from_increasing (n : nat) (lines : list str) (new : list (str * nat))
    (i j : nat) (a b : str * nat) :
  sublist new (numbered_from n lines) → i < j → new !! i = Some a → new !! j = Some b →
  a.2 < b.2.
Proof.
  revert n new i j. induction lines as [|l lines IH]; intros n new i j; simpl.
  - intros ->%sublist_nil_r. done.
  - intros [Hsub|(new' & -> & Hsub)]%sublist_cons_r Hij Hi Hj.
    + by eapply IH.
    + destruct j as [|j]; [lia|]. simpl in Hj. destruct i as [|i]; simpl in Hi.
      * injection Hi as <-. simpl.
        destruct b as [name number].
        destruct (numbered_from_located (S n) lines new' name number Hsub)
          as (k & _ & _ & -> & _); [by eapply list_elem_of_lookup_2|]. simpl. lia.
      * eapply (IH (S n) new' i j); [done|lia|done..].
Qed.

(** X17: the scenarios that [parse_feature] built are, in the order of
    building, a selection of the lines of the text in their order: each
    scenario carries the 1-based number of a line of the text, its name is
    the text of that line without comment, keyword and surrounding blanks,
    and a scenario built later carries a greater line number. *)
Theorem parsed_scenarios_located (abs_filename rel_filename filename content : str)
    (h : Store) :
  parse_feature abs_filename rel_filename filename content = Ok h →
  (∀ i sc, Store.scenario_templates h !! i = Some sc →
     ∃ k raw, splitlines content !! k = Some raw
              ∧ ScenarioTemplate.line_number sc = S k
              ∧ ScenarioTemplate.name sc = (parse_line (strip_comments raw)).2)
  ∧ (∀ i j sc sc', i < j →
       Store.scenario_templates h !! i = Some sc →
       Store.scenario_templates h !! j = Some sc' →
       ScenarioTemplate.line_number sc < ScenarioTemplate.line_number sc').
Proof.
  unfold parse_feature.
  destruct (parse_feature_lines _ _ _ _) as [st|e] eqn:E; simpl; [|done].
  intros [= <-]. apply parse_feature_lines_scenarios in E as (new & Hid & Hsub & _).
  simpl in Hid. unfold scenario_idents in Hid. split.
  - intros i sc Hi.
    destruct (numbered_from_located 1 (splitlines content) new (ScenarioTemplate.name sc)
                (ScenarioTemplate.line_number sc) Hsub) as (k & raw & ? & ? & ?).
    { rewrite <- Hid. apply list_elem_of_fmap. exists sc.
      split; [done|]. by eapply list_elem_of_lookup_2. }
    by exists k, raw.
  - intros i j sc sc' Hij Hi Hj. simpl in Hi, Hj.
    apply (numbered_from_increasing 1 (splitlines content) new i j
             (ScenarioTemplate.name sc, ScenarioTemplate.line_number sc)
             (ScenarioTemplate.name sc', ScenarioTemplate.line_number sc') Hsub Hij).
    + by rewrite <- Hid, list_lookup_fmap, Hi.
    + by rewrite <- Hid, list_lookup_fmap, Hj.
Qed.

Lemma parsed_scenarios_located_witness :
  (∀ i sc, Store.scenario_templates (parsed two_scenarios_file) !! i = Some sc →
     ∃ k raw, splitlines (str_join [LF] two_scenarios_file) !! k = Some raw
              ∧ ScenarioTemplate.line_number sc = S k
              ∧ ScenarioTemplate.name sc = (parse_line (strip_comments raw)).2)
  ∧ (∀ i j sc sc', i < j →
       Store.scenario_templates (parsed two_scenarios_file) !! i = Some sc →
       Store.scenario_templates (parsed two_scenarios_file) !! j = Some sc' →
       ScenarioTemplate.line_number sc < ScenarioTemplate.line_number sc').
Proof.
  apply (parsed_scenarios_located abs_path rel_path file_name
           (str_join [LF] two_scenarios_file) (parsed two_scenarios_file)).
  vm_compute. reflexivity.
Defined.

(** ** The collection of scenarios *)

Lemma odict_setitem_keys {V} (key : str) (value : V) (d : list (str * V)) :
  (odict_setitem key value d).*1 = if bool_decide (key ∈ d.*1) then d.*1 else d.*1 ++ [key].
Proof.
  induction d as [|[k v] d IH]; [done|]. cbn [odict_setitem].
  destruct (decide (k = key)) as [->|Hk].
  - rewrite (bool_decide_eq_true_2 (key = key)) by done. rewrite !fmap_cons. cbn [fst].
    rewrite bool_decide_eq_true_2 by by left. done.
  - rewrite (bool_decide_eq_false_2 (k = key)) by done. rewrite !fmap_cons. cbn [fst].
    rewrite IH. destruct (bool_decide (key ∈ d.*1)) eqn:Hd.
    + apply bool_decide_eq_true in Hd. rewrite bool_decide_eq_true_2 by by right. done.
    + apply bool_decide_eq_false in Hd. rewrite bool_decide_eq_false_2; [done|].
      intros [?|?]%elem_of_cons; [by subst|done].
Qed.

Lemma odict_setitem_NoDup {V} (key : str) (value : V) (d : list (str * V)) :
  NoDup d.*1 → NoDup (odict_setitem key value d).*1.
Proof.
  intros Hd. rewrite odict_setitem_keys. case_bool_decide as Hk; [done|].
  apply NoDup_app. split; [done|]. split; [|apply NoDup_singleton].
  intros k Hin ->%list_elem_of_singleton. done.
Qed.

Lemma odict_setitem_elem {V} (key : str) (value : V) (d : list (str * V)) (k : str) (v : V) :
  NoDup d.*1 →
  (k, v) ∈ odict_setitem key value d ↔ (k = key ∧ v = value) ∨ (k ≠ key ∧ (k, v) ∈ d).
Proof.
  induction d as [|[k0 v0] d IH]; simpl; intros Hd.
  - rewrite list_elem_of_singleton. split.
    + intros [= -> ->]. by left.
    + intros [[-> ->]|[_ ?%elem_of_nil]]; done.
  - apply NoDup_cons in Hd as [Hk0 Hd]. simpl in Hk0. case_bool_decide as Hk.
    + subst k0. rewrite !elem_of_cons. split.
      * intros [[= -> ->]|Hin]; [by left|]. right. split; [|by right].
        intros ->. apply Hk0. apply list_elem_of_fmap. by exists (key, v).
      * intros [[-> ->]|[Hne [[= ? ?]|Hin]]]; [by left|done|by right].
    + rewrite !elem_of_cons, (IH Hd). split.
      * intros [[= -> ->]|[[-> ->]|[Hne Hin]]]; [right; split; [done|by left]|by left|].
        right. split; [done|by right].
      * intros [[-> ->]|[Hne [[= -> ->]|Hin]]]; [right; by left|by left|].
        right. right. done.
Qed.

Lemma registry_spec (names : list str) :
  NoDup (registry names).*1
  ∧ ∀ k i, (k, i) ∈ registry names
           ↔ names !! i = Some k ∧ ∀ j, i < j → names !! j ≠ Some k.
Proof.
  induction names as [|x names [IHd IH]] using rev_ind.
  - split; [constructor|]. intros k i. split; [by intros ?%elem_of_nil|by intros [? _]].
  - unfold registry in *. rewrite registry_from_snoc. simpl. split.
    + by apply odict_setitem_NoDup.
    + intros k i. rewrite (odict_setitem_elem _ _ _ _ _ IHd), IH. split.
      * intros [[-> ->]|[Hne [Hi Hlater]]].
        -- split; [by apply list_lookup_middle|].
           intros j Hj. rewrite lookup_ge_None_2; [done|]. rewrite length_app. simpl. lia.
        -- split; [by apply lookup_app_l_Some|].
           intros j Hj [[? ?]|[? [= ->]]]%lookup_snoc_Some; [by eapply Hlater|done].
      * intros [[[Hlt Hi]|[-> [= ->]]]%lookup_snoc_Some Hlater]; [|by left].
        right. split; [|split; [done|]].
        -- intros ->. apply (Hlater (length names)); [by eapply lookup_lt_Some|].
           by apply list_lookup_middle.
        -- intros j Hj Hk. apply (Hlater j Hj). by apply lookup_app_l_Some.
Qed.

(** X18: in a document that [parse_feature] returns, the collection
    [scenarios] of the Feature is what putting the scenarios built, in the
    order of building, under their names gives: no name occurs twice among
    its keys, and a name is bound to the last scenario built with that
    name, so that a scenario of a name used again further down the file is
    no longer in the collection. *)
Theorem parsed_scenarios_registered (abs_filename rel_filename filename content : str)
    (h : Store) :
  parse_feature abs_filename rel_filename filename content = Ok h →
  Feature.scenarios (Store.feature h)
  = registry (ScenarioTemplate.name <$> Store.scenario_templates h)
  ∧ NoDup (Feature.scenarios (Store.feature h)).*1
  ∧ ∀ name i,
      (name, i) ∈ Feature.scenarios (Store.feature h)
      ↔ ∃ sc, Store.scenario_templates h !! i = Some sc
              ∧ ScenarioTemplate.name sc = name
              ∧ ∀ j sc', i < j → Store.scenario_templates h !! j = Some sc' →
                         ScenarioTemplate.name sc' ≠ name.
Proof.
  unfold parse_feature.
  destruct (parse_feature_lines _ _ _ _) as [st|e] eqn:E; simpl; [|done].
  intros [= <-]. apply parse_feature_lines_scenarios in E as (new & Hid & _ & Hreg).
  simpl in *. unfold scenario_idents in Hid.
  assert (new.*1 = ScenarioTemplate.name <$> Store.scenario_templates (ParseState.store st))
    as Hnames by (rewrite <- Hid, <- list_fmap_compose; done).
  rewrite Hnames in Hreg. fold (registry (ScenarioTemplate.name
    <$> Store.scenario_templates (ParseState.store st))) in Hreg.
  destruct (registry_spec (ScenarioTemplate.name
              <$> Store.scenario_templates (ParseState.store st))) as [Hd Hin].
  rewrite Hreg. split; [done|]. split; [done|].
  intros name i. rewrite Hin, list_lookup_fmap. split.
  - intros [Hi Hlater].
    destruct (Store.scenario_templates (ParseState.store st) !! i) as [sc|] eqn:Hsc; [|done].
    injection Hi as <-. exists sc. split; [done|]. split; [done|].
    intros j sc' Hj Hsc' Hname. apply (Hlater j Hj).
    rewrite list_lookup_fmap, Hsc'. simpl. by rewrite Hname.
  - intros (sc & Hsc & <- & Hlater). rewrite Hsc. split; [done|].
    intros j Hj. rewrite list_lookup_fmap.
    destruct (Store.scenario_templates (ParseState.store st) !! j) as [sc'|] eqn:Hsc'; [|done].
    simpl. intros [= Hname]. by apply (Hlater j sc' Hj).
Qed.

Lemma parsed_scenarios_registered_witness :
  ∃ h,
    parse_demo ["Feature: f"; "Scenario: a"; "Given x"; "Scenario: b"; "Scenario: a"] = Ok h
    ∧ Feature.scenarios (Store.feature h) = [("a", 2); ("b", 1)]
    ∧ Feature.scenarios (Store.feature h)
      = registry (ScenarioTemplate.name <$> Store.scenario_templates h)
    ∧ NoDup (Feature.scenarios (Store.feature h)).*1
    ∧ ∀ name i,
        (name, i) ∈ Feature.scenarios (Store.feature h)
        ↔ ∃ sc, Store.scenario_templates h !! i = Some sc
                ∧ ScenarioTemplate.name sc = name
                ∧ ∀ j sc', i < j → Store.scenario_templates h !! j = Some sc' →
                           ScenarioTemplate.name sc' ≠ name.
Proof.
  eexists. split; [vm_compute; reflexivity|]. split; [reflexivity|].
  apply (parsed_scenarios_registered abs_path rel_path file_name
           (str_join [LF] ["Feature: f"; "Scenario: a"; "Given x"; "Scenario: b"; "Scenario: a"])).
  vm_compute. reflexivity.
Defined.

(** ** The lines under a step *)

Lemma captured_line (filename : str) (st : ParseState) (n : nat) (i : StepId) (s : Step)
    (line : str) :
  ParseState.step st = Some i →
  Store.steps (ParseState.store st) !! i = Some s →
  Step.indent s < line_indent line
  ∨ (lstrip line = [] ∧ ParseState.multiline_step st = true) →
  parse_feature_line filename st n line = Ok (with_block st i s [line]).
Proof.
  intros Hi Hs Hline. unfold parse_feature_line, continues_step, get_step.
  rewrite Hi, Hs. cbn [from_handle mbind result_bind].
  assert ((Step.indent s <? length line - length (lstrip line))
          || bool_decide (lstrip line = []) && ParseState.multiline_step st = true) as ->.
  { destruct Hline as [Hlt|[He Hm]].
    - apply Nat.ltb_lt in Hlt. unfold line_indent in Hlt. by rewrite Hlt.
    - rewrite Hm, bool_decide_eq_true_2 by done. by rewrite orb_true_r. }
  cbn [mbind result_bind]. by rewrite Hs.
Qed.

Lemma captured_lines (filename : str) (block : list str) (st : ParseState) (n : nat)
    (i : StepId) (s : Step) :
  ParseState.step st = Some i →
  Store.steps (ParseState.store st) !! i = Some s →
  ParseState.multiline_step st = true →
  block ≠ [] →
  Forall (fun l => Step.indent s < line_indent l ∨ lstrip l = []) block →
  parse_feature_lines filename st n block = Ok (with_block st i s block).
Proof.
  revert st n s. induction block as [|l block IH]; intros st n s Hi Hs Hm Hne Hall; [done|].
  apply Forall_cons in Hall as [Hl Hall]. simpl.
  rewrite (captured_line filename st n i s l Hi Hs) by (destruct Hl; auto).
  simpl. destruct block as [|l' block]; [done|].
  rewrite (IH _ _ (Step.set_lines (Step.lines s ++ [l]) s)); try done.
  - unfold with_block, put_step. simpl. rewrite list_insert_insert_eq, <- app_assoc. done.
  - simpl. apply list_lookup_insert_eq. by eapply lookup_lt_Some.
Qed.

(** X19: while a step is at hand, a line indented deeper than the step,
    followed by any lines that are each indented deeper than the step or
    made of whitespace only, is added to the lines of the step, line by
    line and as written, whatever the lines hold (a keyword, a tag, a
    table row or a comment); nothing else of the document changes and no
    scenario, background or step is built from them. *)
Theorem continuation_block (filename : str) (st : ParseState) (n : nat) (i : StepId)
    (s : Step) (first : str) (rest : list str) :
  ParseState.step st = Some i →
  Store.steps (ParseState.store st) !! i = Some s →
  Step.indent s < line_indent first →
  Forall (fun l => Step.indent s < line_indent l ∨ lstrip l = []) rest →
  parse_feature_lines filename st n (first :: rest) = Ok (with_block st i s (first :: rest)).
Proof.
  intros Hi Hs Hfirst Hrest. simpl.
  rewrite (captured_line filename st n i s first Hi Hs) by auto. simpl.
  destruct rest as [|l rest]; [done|].
  rewrite (captured_lines filename (l :: rest) _ _ i (Step.set_lines (Step.lines s ++ [first]) s));
    try done.
  - unfold with_block, put_step. simpl. rewrite list_insert_insert_eq, <- app_assoc. done.
  - simpl. apply list_lookup_insert_eq. by eapply lookup_lt_Some.
Qed.

Lemma continuation_block_witness :
  ∃ s, Store.steps (ParseState.store (after_lines ["Feature: f"; "Scenario: s"; "  Given a"])) !! 0
       = Some s
       ∧ parse_feature_lines file_name
           (after_lines ["Feature: f"; "Scenario: s"; "  Given a"]) 4
           ["    Scenario: no scenario"; []; "   @tag # kept"]
         = Ok (with_block (after_lines ["Feature: f"; "Scenario: s"; "  Given a"]) 0 s
                 ["    Scenario: no scenario"; []; "   @tag # kept"]).
Proof.
  eexists. split; [vm_compute; reflexivity|].
  apply (continuation_block file_name (after_lines ["Feature: f"; "Scenario: s"; "  Given a"])
           4 0).
  - vm_compute. reflexivity.
  - vm_compute. reflexivity.
  - vm_compute. lia.
  - constructor; [right; reflexivity|]. constructor; [left; vm_compute; lia|]. constructor.
Defined.

(** ** The table of a scenario *)

Lemma lstrip_chars_inv p (s : str) (c : ascii) (r : str) :
  lstrip_chars p s = c :: r → ∃ ws, s = ws ++ c :: r ∧ forallb p ws = true.
Proof.
  induction s as [|d s IH]; [done|]. simpl. destruct (p d) eqn:Hd.
  - intros (ws & -> & Hws)%IH. exists (d :: ws). simpl. by rewrite Hd.
  - intros [= -> ->]. by exists [].
Qed.

Lemma isspace_no_hash (ws : str) : forallb isspace ws = true → "#"%char ∉ ws.
Proof.
  induction ws as [|c ws IH]; [intros _ ?%elem_of_nil; done|]. simpl.
  intros [Hc Hws]%andb_prop. apply not_elem_of_cons. split; [|by apply IH].
  intros <-. discriminate Hc.
Qed.

Lemma strip_pipe_head (line t : str) :
  strip line = "|"%char :: t → ∃ t', strip_comments line = "|"%char :: t'.
Proof.
  unfold strip, strip_chars. intros H.
  destruct (rstrip_chars_prefix isspace (lstrip_chars isspace line)) as [t1 Ht1].
  rewrite H in Ht1. simpl in Ht1.
  apply lstrip_chars_inv in Ht1 as (ws & -> & Hws).
  unfold strip_comments.
  change (ws ++ "|"%char :: t ++ t1) with (ws ++ ["|"%char] ++ (t ++ t1)).
  rewrite app_assoc, before_comment_no_hash.
  2: { intros [Hin|Hin]%elem_of_app; [exact (isspace_no_hash ws Hws Hin)|].
       apply list_elem_of_singleton in Hin. discriminate Hin. }
  unfold strip, strip_chars. rewrite <- app_assoc, lstrip_chars_app, Hws. simpl.
  rewrite rstrip_chars_cons. clear H.
  match goal with |- context [rstrip_chars isspace ?x] => destruct (rstrip_chars isspace x) end.
  - by exists [].
  - by eexists.
Qed.

Lemma pipe_unprefixed (t : str) :
  parse_line ("|"%char :: t) = ([], "|"%char :: t) ∧ get_step_type ("|"%char :: t) = None.
Proof. apply parse_line_from_unprefixed. unfold STEP_PREFIXES. repeat constructor. Qed.

Lemma table_row_head (cells : list str) (last : str) :
  ∃ t, table_row [] cells last = "|"%char :: t.
Proof.
  unfold table_row. change (escape_pipes []) with (@nil ascii).
  destruct cells as [|v cells]; simpl; by eexists.
Qed.

Lemma split_line_cells (text : str) (cells : list str) :
  row_of text cells → split_line text = map strip cells.
Proof.
  intros (last & -> & Hlast & Hcells). unfold split_line.
  rewrite split_table_row; [|constructor; [by intros ?%elem_of_nil|done]|done].
  rewrite slice_1_m1_fenced, map_map.
  induction Hcells as [|v vs Hv _ IH]; [done|].
  simpl. by rewrite unescape_escape_pipes, IH.
Qed.

Lemma get_put_scenario (h : Store) (i : ScenarioId) (sc sc' : ScenarioTemplate) :
  Store.scenario_templates h !! i = Some sc →
  get_scenario (put_scenario i sc' h) i = Ok sc'.
Proof.
  intros Hi. unfold get_scenario, put_scenario. simpl.
  rewrite list_lookup_insert_eq by by eapply lookup_lt_Some. done.
Qed.

Lemma example_row (filename : str) (st : ParseState) (n : nat) (line : str)
    (cells : list str) (i : ScenarioId) (sc : ScenarioTemplate) :
  ParseState.scenario st = Some i →
  ParseState.step st = None →
  ParseState.mode st = Some EXAMPLE_LINE →
  Store.scenario_templates (ParseState.store st) !! i = Some sc →
  row_of (strip line) cells →
  parse_feature_line filename st n line
  = Ok (ParseState.mk
          (put_scenario i
             (ScenarioTemplate.set_examples
                (Examples_add_example (map strip cells) (ScenarioTemplate.examples sc)) sc)
             (ParseState.store st))
          (Some i) (Some EXAMPLE_LINE) (Some EXAMPLE_LINE) (ParseState.description st)
          None false (Some (strip_comments line))).
Proof.
  intros Hi Hstep Hmode Hsc Hrow.
  rewrite parse_feature_line_no_step by done. rewrite read_line_resolved. cbv zeta.
  pose proof (split_line_cells _ _ Hrow) as Hcells.
  destruct Hrow as (last & Hrow & _).
  destruct (table_row_head cells last) as [t Ht]. rewrite Ht in Hrow.
  destruct (strip_pipe_head line t Hrow) as [t' Hclean].
  destruct (pipe_unprefixed t') as [Hparse Htype].
  unfold resolved_mode. rewrite Hclean, Htype, Hparse, Hmode, Hi. simpl.
  unfold get_scenario. rewrite Hsc. simpl. by rewrite Hcells.
Qed.

Lemma example_rows (filename : str) (row_lines : list str) (rows : list (list str))
    (st : ParseState) (n : nat) (i : ScenarioId) (sc : ScenarioTemplate) :
  ParseState.scenario st = Some i →
  ParseState.step st = None →
  ParseState.mode st = Some EXAMPLE_LINE →
  Store.scenario_templates (ParseState.store st) !! i = Some sc →
  Forall2 (fun line cells => row_of (strip line) cells) row_lines rows →
  ∃ st', parse_feature_lines filename st n row_lines = Ok st'
         ∧ ParseState.scenario st' = Some i
         ∧ Store.scenario_templates (ParseState.store st')
           = <[i := ScenarioTemplate.set_examples
                      (Examples.mk
                         (Examples.example_params (ScenarioTemplate.examples sc))
                         (Examples.examples (ScenarioTemplate.examples sc) ++ map (map strip) rows)
                         (Examples.line_number (ScenarioTemplate.examples sc))
                         (Examples.name (ScenarioTemplate.examples sc))) sc]>
               (Store.scenario_templates (ParseState.store st))
         ∧ Store.feature (ParseState.store st') = Store.feature (ParseState.store st)
         ∧ Store.backgrounds (ParseState.store st') = Store.backgrounds (ParseState.store st)
         ∧ Store.steps (ParseState.store st') = Store.steps (ParseState.store st).
Proof.
  intros Hi Hstep Hmode Hsc Hrows. revert st n sc Hi Hstep Hmode Hsc.
  induction Hrows as [|line cells row_lines rows Hrow _ IH]; intros st n sc Hi Hstep Hmode Hsc.
  - exists st. split; [done|]. split; [done|]. split; [|done].
    simpl. rewrite app_nil_r. symmetry. apply list_insert_id.
    rewrite Hsc. by destruct sc as [? ? ? ? ? [] ?].
  - simpl. rewrite (example_row filename st n line cells i sc) by done. simpl.
    match goal with |- context [parse_feature_lines _ ?st1 _ _] =>
      edestruct (IH st1 (S n)) as (st' & -> & Hi' & Ht & Hf & Hb & Hs) end; [done..| |].
    { simpl. apply list_lookup_insert_eq. by eapply lookup_lt_Some. }
    exists st'. split; [done|]. split; [done|]. split; [|done].
    rewrite Ht. simpl. rewrite list_insert_insert_eq, <- app_assoc. done.
Qed.

(** X20: with a scenario open, an Examples header, a header row and any
    number of data rows are read into the table of that scenario: the
    table takes the number of the Examples line, the trimmed names of the
    header row without the empty ones as its parameters, and one more
    example per data row, the trimmed cells of the row with the empty ones
    kept; the comment of the header row is cut before the row is split,
    while the rows are split as written.  Nothing else of the document
    changes. *)
Theorem examples_table_parsed (filename : str) (st : ParseState) (n : nat)
    (i : ScenarioId) (sc : ScenarioTemplate) (heading header : str) (names : list str)
    (row_lines : list str) (rows : list (list str)) :
  ParseState.scenario st = Some i →
  Store.scenario_templates (ParseState.store st) !! i = Some sc →
  continues_step st heading = Ok None →
  get_step_type (strip_comments heading) = Some EXAMPLES →
  row_of (strip_comments header) names →
  Forall2 (fun line cells => row_of (strip line) cells) row_lines rows →
  ∃ st', parse_feature_lines filename st n (heading :: header :: row_lines) = Ok st'
         ∧ ParseState.scenario st' = Some i
         ∧ Store.scenario_templates (ParseState.store st')
           = <[i := ScenarioTemplate.set_examples
                      (Examples.mk
                         (filter (fun l => l ≠ []) (map strip names))
                         (Examples.examples (ScenarioTemplate.examples sc) ++ map (map strip) rows)
                         (Some n)
                         (Examples.name (ScenarioTemplate.examples sc))) sc]>
               (Store.scenario_templates (ParseState.store st))
         ∧ Store.feature (ParseState.store st') = Store.feature (ParseState.store st)
         ∧ Store.backgrounds (ParseState.store st') = Store.backgrounds (ParseState.store st)
         ∧ Store.steps (ParseState.store st') = Store.steps (ParseState.store st).
Proof.
  intros Hi Hsc Hcont Hheading Hheader Hrows.
  assert (strip_comments heading ≠ []) as Hne.
  { intros E. rewrite E in Hheading. discriminate. }
  assert (resolved_mode st heading = Some EXAMPLES) as Hres
    by (unfold resolved_mode; by rewrite Hheading).
  cbn [parse_feature_lines].
  (* the Examples line *)
  rewrite (parse_feature_line_read _ _ _ _ Hcont), read_line_resolved. cbv zeta.
  rewrite !Hres, Hi.
  rewrite (bool_decide_eq_false_2 _ Hne). cbn [andb].
  rewrite (bool_decide_eq_false_2 (Some i = None)) by done. cbn [andb].
  rewrite (bool_decide_eq_false_2 (Some EXAMPLES = Some FEATURE)) by done.
  cbn [mbind result_bind build_line]. unfold get_scenario at 1. rewrite Hsc.
  cbn [from_handle mbind result_bind].
  (* the header row *)
  pose proof (split_line_cells _ _ Hheader) as Hcells.
  destruct Hheader as (last & Hrow & _).
  destruct (table_row_head names last) as [t Ht]. rewrite Ht in Hrow.
  destruct (pipe_unprefixed t) as [Hparse Htype].
  rewrite parse_feature_line_no_step by done. rewrite read_line_resolved. cbv zeta.
  unfold resolved_mode. rewrite Hrow, Htype, Hparse. simpl.
  rewrite (get_put_scenario _ i sc) by done. cbn [mbind result_bind].
  rewrite <- Hrow, Hcells.
  (* the data rows *)
  match goal with |- context [parse_feature_lines _ ?st1 _ _] =>
    edestruct (example_rows filename row_lines rows st1 (S (S n)) i)
      as (st' & -> & Hi' & Ht' & Hf & Hb & Hs) end; [| | | |exact Hrows|]; [done..| |].
  { simpl. apply list_lookup_insert_eq. rewrite length_insert. by eapply lookup_lt_Some. }
  exists st'. split; [done|]. split; [done|]. split; [|done].
  rewrite Ht'. simpl. by rewrite !list_insert_insert_eq.
Qed.

Lemma examples_table_parsed_witness :
  ∃ st', parse_feature_lines file_name
           (after_lines ["Feature: f"; "  Scenario Outline: s"; "    Given <a> and <b>"]) 4
           ["    Examples:"; "    | a | b |  # names"; "    | 1 | 2 |"; "    |  | x\|y | # kept"]
         = Ok st'
         ∧ ParseState.scenario st' = Some 0
         ∧ Store.scenario_templates (ParseState.store st')
           = <[0 := ScenarioTemplate.set_examples
                      (Examples.mk
                         (filter (fun l => l ≠ []) (map strip [" a "; " b "]))
                         (Examples.examples Examples.init
                          ++ map (map strip) [[" 1 "; " 2 "]; ["  "; " x|y "]])
                         (Some 4)
                         (Examples.name Examples.init))
                      (ScenarioTemplate.mk (Some the_feature) "s" 2 true ∅ Examples.init [0])]>
               (Store.scenario_templates
                  (ParseState.store
                     (after_lines ["Feature: f"; "  Scenario Outline: s"; "    Given <a> and <b>"])))
         ∧ Store.feature (ParseState.store st')
           = Store.feature
               (ParseState.store
                  (after_lines ["Feature: f"; "  Scenario Outline: s"; "    Given <a> and <b>"]))
         ∧ Store.backgrounds (ParseState.store st')
           = Store.backgrounds
               (ParseState.store
                  (after_lines ["Feature: f"; "  Scenario Outline: s"; "    Given <a> and <b>"]))
         ∧ Store.steps (ParseState.store st')
           = Store.steps
               (ParseState.store
                  (after_lines ["Feature: f"; "  Scenario Outline: s"; "    Given <a> and <b>"])).
Proof.
  apply (examples_table_parsed file_name
           (after_lines ["Feature: f"; "  Scenario Outline: s"; "    Given <a> and <b>"]) 4 0
           (ScenarioTemplate.mk (Some the_feature) "s" 2 true ∅ Examples.init [0])
           "    Examples:" "    | a | b |  # names" [" a "; " b "]
           ["    | 1 | 2 |"; "    |  | x\|y | # kept"] [[" 1 "; " 2 "]; ["  "; " x|y "]]).
  - vm_compute. reflexivity.
  - vm_compute. reflexivity.
  - vm_compute. reflexivity.
  - vm_compute. reflexivity.
  - exists []. split; [vm_compute; reflexivity|].
    split; [by intros ?%elem_of_nil|].
    repeat constructor; apply (bool_decide_unpack _); vm_compute; exact I.
  - constructor; [|constructor; [|constructor]].
    + exists []. split; [vm_compute; reflexivity|].
      split; [by intros ?%elem_of_nil|].
      repeat constructor; apply (bool_decide_unpack _); vm_compute; exact I.
    + exists " # kept". split; [vm_compute; reflexivity|].
      split; [apply (bool_decide_unpack _); vm_compute; exact I|].
      repeat constructor; apply (bool_decide_unpack _); vm_compute; exact I.
Defined.

(** ** The steps of a parsed document *)

Lemma step_owned_same (h h' : Store) (j : StepId) (s s' : Step) :
  Store.scenario_templates h' = Store.scenario_templates h →
  Store.backgrounds h' = Store.backgrounds h →
  Step.scenario s' = Step.scenario s → Step.background s' = Step.background s →
  step_owned h j s → step_owned h' j s'.
Proof.
  intros Ht Hb Hs Hbg [(i & sc & ? & ? & ? & ?)|(b & bg & ? & ? & ? & ?)].
  - left. exists i, sc. rewrite Ht, Hs, Hbg. done.
  - right. exists b, bg. rewrite Hb, Hs, Hbg. done.
Qed.

Lemma steps_inv_same (h h' : Store) :
  Store.scenario_templates h' = Store.scenario_templates h →
  Store.backgrounds h' = Store.backgrounds h →
  Store.steps h' = Store.steps h →
  steps_inv h → steps_inv h'.
Proof.
  intros Ht Hb Hs [H1 H2 H3]. split; rewrite ?Ht, ?Hb, ?Hs.
  - intros j s Hj. destruct (H1 j s Hj) as [? Ho]. split; [done|].
    by eapply step_owned_same.
  - done.
  - done.
Qed.

Lemma step_owned_new_scenario (h : Store) (new : ScenarioTemplate) (j : StepId) (s : Step) :
  step_owned h j s →
  step_owned (Store.set_scenario_templates (Store.scenario_templates h ++ [new]) h) j s.
Proof.
  intros [(i & sc & ? & ? & ? & ?)|(b & bg & ? & ? & ? & ?)].
  - left. exists i, sc. split; [by apply lookup_app_l_Some|done].
  - right. by exists b, bg.
Qed.

Lemma step_owned_new_background (h : Store) (new : Background) (j : StepId) (s : Step) :
  step_owned h j s →
  step_owned (Store.set_backgrounds (Store.backgrounds h ++ [new]) h) j s.
Proof.
  intros [(i & sc & ? & ? & ? & ?)|(b & bg & ? & ? & ? & ?)].
  - left. by exists i, sc.
  - right. exists b, bg. split; [by apply lookup_app_l_Some|done].
Qed.

Lemma steps_inv_new_scenario (h : Store) (new : ScenarioTemplate) :
  ScenarioTemplate._steps new = [] → steps_inv h →
  steps_inv (Store.set_scenario_templates (Store.scenario_templates h ++ [new]) h).
Proof.
  intros Hnew [H1 H2 H3]. split; simpl.
  - intros j s Hj. destruct (H1 j s Hj). split; [done|]. by apply step_owned_new_scenario.
  - intros i sc [[? Hi]|[-> <-]]%lookup_snoc_Some; [by apply (H2 i)|].
    rewrite Hnew. split; constructor.
  - done.
Qed.

Lemma steps_inv_new_background (h : Store) (new : Background) :
  Background.steps new = [] → steps_inv h →
  steps_inv (Store.set_backgrounds (Store.backgrounds h ++ [new]) h).
Proof.
  intros Hnew [H1 H2 H3]. split; simpl.
  - intros j s Hj. destruct (H1 j s Hj). split; [done|]. by apply step_owned_new_background.
  - done.
  - intros b bg [[? Hb]|[-> <-]]%lookup_snoc_Some; [by apply (H3 b)|].
    rewrite Hnew. split; constructor.
Qed.

Lemma steps_inv_put_scenario (h : Store) (i : ScenarioId) (sc sc' : ScenarioTemplate) :
  Store.scenario_templates h !! i = Some sc →
  ScenarioTemplate._steps sc' = ScenarioTemplate._steps sc →
  steps_inv h → steps_inv (put_scenario i sc' h).
Proof.
  intros Hi Hsteps [H1 H2 H3]. split; simpl.
  - intros j s Hj. destruct (H1 j s Hj) as [? [(i' & sc0 & Hi' & ? & ? & ?)|Ho]].
    + split; [done|]. left. destruct (decide (i = i')) as [<-|Hne].
      * exists i, sc'. simpl. rewrite list_lookup_insert_eq by by eapply lookup_lt_Some.
        rewrite Hsteps. by simplify_eq.
      * exists i', sc0. simpl. by rewrite list_lookup_insert_ne.
    + split; [done|]. by right.
  - intros i' sc0 [(<- & <- & ?)|[? ?]]%list_lookup_insert_Some.
    + rewrite Hsteps. by apply (H2 i).
    + by apply (H2 i').
  - done.
Qed.

Lemma steps_inv_add_line (h : Store) (i : StepId) (s : Step) (line : str) :
  Store.steps h !! i = Some s →
  steps_inv h → steps_inv (put_step i (Step_add_line line s) h).
Proof.
  intros Hi [H1 H2 H3]. split; simpl.
  - intros j s' [(<- & <- & ?)|[? Hj]]%list_lookup_insert_Some.
    + destruct (H1 i s Hi) as [? Ho]. split; [done|]. by eapply step_owned_same.
    + destruct (H1 j s' Hj) as [? Ho]. split; [done|]. by eapply step_owned_same.
  - intros i' sc Hsc. rewrite length_insert. by apply (H2 i').
  - intros b bg Hbg. rewrite length_insert. by apply (H3 b).
Qed.

Lemma sorted_snoc (l : list nat) (n : nat) :
  StronglySorted lt l → Forall (fun j => j < n) l → StronglySorted lt (l ++ [n]).
Proof.
  induction 1 as [|x l Hl IH Hx]; intros Hall; simpl.
  - repeat constructor.
  - apply Forall_cons in Hall as [Hxn Hall]. constructor; [by apply IH|].
    apply Forall_app. split; [done|]. by constructor.
Qed.

Lemma insert_length_snoc {A} (l : list A) (x y : A) : <[length l := y]> (l ++ [x]) = l ++ [y].
Proof. induction l as [|a l IH]; [done|]. simpl. by rewrite IH. Qed.

Lemma scenario_add_step_eq (h : Store) (sc : ScenarioId) (scr : ScenarioTemplate) (s0 : Step) :
  Store.scenario_templates h !! sc = Some scr →
  ScenarioTemplate_add_step sc (length (Store.steps h))
    (Store.set_steps (Store.steps h ++ [s0]) h)
  = Ok (put_scenario sc
          (ScenarioTemplate.set__steps (ScenarioTemplate._steps scr ++ [length (Store.steps h)]) scr)
          (Store.set_steps (Store.steps h ++ [Step.set_scenario (Some sc) s0]) h)).
Proof.
  intros Hsc. unfold ScenarioTemplate_add_step, get_step, get_scenario. simpl.
  rewrite list_lookup_middle by done. simpl. rewrite Hsc. simpl.
  unfold put_scenario, put_step. simpl. by rewrite insert_length_snoc.
Qed.

Lemma background_add_step_eq (h : Store) (b : BackgroundId) (bg : Background) (s0 : Step) :
  Store.backgrounds h !! b = Some bg →
  Background_add_step b (length (Store.steps h))
    (Store.set_steps (Store.steps h ++ [s0]) h)
  = Ok (put_background b
          (Background.set_steps (Background.steps bg ++ [length (Store.steps h)]) bg)
          (Store.set_steps (Store.steps h ++ [Step.set_background (Some b) s0]) h)).
Proof.
  intros Hb. unfold Background_add_step, get_step, get_background. simpl.
  rewrite list_lookup_middle by done. simpl. rewrite Hb. simpl.
  unfold put_background, put_step. simpl. by rewrite insert_length_snoc.
Qed.

Lemma steps_inv_scenario_add_step (h : Store) (sc : ScenarioId) (scr : ScenarioTemplate)
    (s0 : Step) :
  Store.scenario_templates h !! sc = Some scr →
  Step.type s0 ∈ STEP_TYPES → Step.background s0 = None →
  steps_inv h →
  steps_inv (put_scenario sc
               (ScenarioTemplate.set__steps
                  (ScenarioTemplate._steps scr ++ [length (Store.steps h)]) scr)
               (Store.set_steps (Store.steps h ++ [Step.set_scenario (Some sc) s0]) h)).
Proof.
  intros Hsc Htype Hbg [H1 H2 H3]. split; simpl.
  - intros j s [[_ Hj]|[-> <-]]%lookup_snoc_Some.
    + destruct (H1 j s Hj) as [? [(i' & sc0 & Hi' & ? & ? & ?)|(b & bg & ? & ? & ? & ?)]].
      * split; [done|]. left. destruct (decide (sc = i')) as [<-|Hne].
        -- eexists sc, _. simpl. rewrite list_lookup_insert_eq by by eapply lookup_lt_Some.
           split; [done|]. simplify_eq. simpl. split; [|done].
           apply elem_of_app. by left.
        -- exists i', sc0. simpl. by rewrite list_lookup_insert_ne.
      * split; [done|]. right. by exists b, bg.
    + split; [done|]. left. eexists sc, _. simpl.
      rewrite list_lookup_insert_eq by by eapply lookup_lt_Some.
      split; [done|]. simpl. split; [|done]. apply elem_of_app. right. by left.
  - intros i' sc0 [(<- & <- & ?)|[? Hi']]%list_lookup_insert_Some; simpl.
    + destruct (H2 sc scr Hsc) as [Hsorted Hall]. split.
      * by apply sorted_snoc.
      * rewrite length_app. simpl. apply Forall_app. split.
        -- eapply Forall_impl; [done|]. simpl. lia.
        -- constructor; [lia|done].
    + destruct (H2 i' sc0 Hi') as [Hsorted Hall]. split; [done|].
      rewrite length_app. simpl. eapply Forall_impl; [done|]. simpl. lia.
  - intros b bg Hb. destruct (H3 b bg Hb) as [Hsorted Hall]. split; [done|].
    rewrite length_app. simpl. eapply Forall_impl; [done|]. simpl. lia.
Qed.

Lemma steps_inv_background_add_step (h : Store) (b : BackgroundId) (bg : Background)
    (s0 : Step) :
  Store.backgrounds h !! b = Some bg →
  Step.type s0 ∈ STEP_TYPES → Step.scenario s0 = None →
  steps_inv h →
  steps_inv (put_background b
               (Background.set_steps (Background.steps bg ++ [length (Store.steps h)]) bg)
               (Store.set_steps (Store.steps h ++ [Step.set_background (Some b) s0]) h)).
Proof.
  intros Hb Htype Hsc [H1 H2 H3]. split; simpl.
  - intros j s [[_ Hj]|[-> <-]]%lookup_snoc_Some.
    + destruct (H1 j s Hj) as [? [(i' & sc0 & ? & ? & ? & ?)|(b' & bg' & Hb' & ? & ? & ?)]].
      * split; [done|]. left. by exists i', sc0.
      * split; [done|]. right. destruct (decide (b = b')) as [<-|Hne].
        -- eexists b, _. simpl. rewrite list_lookup_insert_eq by by eapply lookup_lt_Some.
           split; [done|]. simplify_eq. simpl. split; [|done].
           apply elem_of_app. by left.
        -- exists b', bg'. simpl. by rewrite list_lookup_insert_ne.
    + split; [done|]. right. eexists b, _. simpl.
      rewrite list_lookup_insert_eq by by eapply lookup_lt_Some.
      split; [done|]. simpl. split; [|done]. apply elem_of_app. right. by left.
  - intros i sc Hi. destruct (H2 i sc Hi) as [Hsorted Hall]. split; [done|].
    rewrite length_app. simpl. eapply Forall_impl; [done|]. simpl. lia.
  - intros b' bg' [(<- & <- & ?)|[? Hb']]%list_lookup_insert_Some; simpl.
    + destruct (H3 b bg Hb) as [Hsorted Hall]. split.
      * by apply sorted_snoc.
      * rewrite length_app. simpl. apply Forall_app. split.
        -- eapply Forall_impl; [done|]. simpl. lia.
        -- constructor; [lia|done].
    + destruct (H3 b' bg' Hb') as [Hsorted Hall]. split; [done|].
      rewrite length_app. simpl. eapply Forall_impl; [done|]. simpl. lia.
Qed.

Lemma build_line_steps_inv (n indent : nat) (stripped keyword parsed : str)
    (prev_line : option str) (mode : option Mode) (scenario : option ScenarioId)
    (h h' : Store) (sc' : option ScenarioId) (m' : option Mode) (s' : option StepId) :
  store_inv h →
  (∀ i, scenario = Some i → i < length (Store.scenario_templates h)) →
  steps_inv h →
  build_line n indent stripped keyword parsed prev_line mode scenario h = Ok (h', sc', m', s') →
  steps_inv h'.
Proof.
  intros Hinv Hsc Hsteps. unfold build_line.
  assert (∀ (e : Examples → Examples) (m : option Mode),
    match scenario with
    | Some i =>
        sc ← get_scenario h i;
        Ok (put_scenario i (ScenarioTemplate.set_examples (e (ScenarioTemplate.examples sc)) sc) h,
            scenario, m, @None StepId)
    | None => Raise (AttributeError "NoneType" "examples")
    end = Ok (h', sc', m', s') → steps_inv h') as Hex.
  { intros e m. destruct scenario as [i|]; [|done].
    unfold get_scenario. destruct (Store.scenario_templates h !! i) as [sc|] eqn:Hi; [|done].
    simpl. intros [= <- <- <- <-]. by eapply steps_inv_put_scenario. }
  assert (∀ type, type ∈ STEP_TYPES →
    (let '(step, h0) := new_step (Step_init type parsed n indent keyword) h in
     match Feature.background (Store.feature h0), scenario with
     | Some b, None => h1 ← Background_add_step b step h0; Ok (h1, scenario, mode, Some step)
     | _, Some sc => h1 ← ScenarioTemplate_add_step sc step h0; Ok (h1, scenario, mode, Some step)
     | None, None => Raise (AttributeError "NoneType" "add_step")
     end) = Ok (h', sc', m', s') → steps_inv h') as Hstep.
  { intros type Htype. cbn -[Background_add_step ScenarioTemplate_add_step].
    destruct scenario as [sc|].
    - destruct (lookup_lt_is_Some_2 _ _ (Hsc sc eq_refl)) as [scr Hscr].
      rewrite (scenario_add_step_eq h sc scr _ Hscr).
      destruct (Feature.background (Store.feature h)); cbn [mbind result_bind];
        intros [= <- <- <- <-]; by apply steps_inv_scenario_add_step.
    - destruct (Feature.background (Store.feature h)) as [b|] eqn:Hb; [|done].
      destruct (lookup_lt_is_Some_2 _ _ (inv_background h Hinv b Hb)) as [bg Hbg].
      rewrite (background_add_step_eq h b bg _ Hbg). cbn [mbind result_bind].
      intros [= <- <- <- <-]. by apply steps_inv_background_add_step. }
  destruct mode as [[]|];
    try (apply Hstep; unfold STEP_TYPES; set_solver);
    try (intros [= <- <- <- <-]; done).
  - (* SCENARIO_OUTLINE *)
    intros [= <- <- <- <-].
    match goal with |- steps_inv (Store.set_feature _ ?h0) =>
      apply (steps_inv_same h0); [done..|] end.
    by apply steps_inv_new_scenario.
  - apply (Hex (Examples.set_line_number (Some n))).
  - apply (Hex (Examples_set_param_names (filter (fun l => l <> []) (split_line parsed)))).
  - apply (Hex (Examples_add_example (split_line stripped))).
  - (* SCENARIO *)
    intros [= <- <- <- <-].
    match goal with |- steps_inv (Store.set_feature _ ?h0) =>
      apply (steps_inv_same h0); [done..|] end.
    by apply steps_inv_new_scenario.
  - (* BACKGROUND *)
    intros [= <- <- <- <-].
    match goal with |- steps_inv (Store.set_feature _ ?h0) =>
      apply (steps_inv_same h0); [done..|] end.
    by apply steps_inv_new_background.
Qed.

Lemma read_line_steps_inv (filename : str) (st st' : ParseState) (n : nat) (line : str) :
  read_line filename st n line = Ok st' → state_inv st →
  steps_inv (ParseState.store st) → steps_inv (ParseState.store st').
Proof.
  rewrite read_line_resolved. cbv zeta. intros H [Hinv Hsc Hstep] Hsteps.
  destruct (_ && _); [by simplify_eq|].
  destruct (_ && _ && _); [done|].
  revert H.
  match goal with |- context [if ?c then feature_mode_line ?a1 ?a2 ?a3 ?a4 ?a5 ?a6 ?a7 else _] =>
    destruct c; [destruct (feature_mode_line a1 a2 a3 a4 a5 a6 a7) as [[d h1]|e] eqn:Hf|] end;
    cbn [mbind result_bind]; try done.
  - assert (Store.backgrounds h1 = Store.backgrounds (ParseState.store st)) as Hbgs.
    { revert Hf. unfold feature_mode_line.
      destruct (ParseState.prev_mode st) as [[]|]; intros; by simplify_eq. }
    apply feature_mode_line_inv in Hf as (Hinv1 & Hlen & Hst); [|done].
    match goal with |- context [build_line ?a1 ?a2 ?a3 ?a4 ?a5 ?a6 ?a7 ?a8 ?a9] =>
      destruct (build_line a1 a2 a3 a4 a5 a6 a7 a8 a9) as [[[[h2 sc] m] stp]|e] eqn:Hb end;
      cbn [mbind result_bind]; [|done].
    intros [= <-]. simpl. eapply build_line_steps_inv in Hb; [done|done| |].
    + rewrite Hlen. apply Hsc.
    + by eapply steps_inv_same.
  - match goal with |- context [build_line ?a1 ?a2 ?a3 ?a4 ?a5 ?a6 ?a7 ?a8 ?a9] =>
      destruct (build_line a1 a2 a3 a4 a5 a6 a7 a8 a9) as [[[[h2 sc] m] stp]|e] eqn:Hb end;
      cbn [mbind result_bind]; [|done].
    intros [= <-]. simpl. by eapply build_line_steps_inv in Hb.
Qed.

Lemma parse_feature_line_steps_inv (filename : str) (st st' : ParseState) (n : nat)
    (line : str) :
  parse_feature_line filename st n line = Ok st' → state_inv st →
  steps_inv (ParseState.store st) → steps_inv (ParseState.store st').
Proof.
  unfold parse_feature_line.
  destruct (continues_step st line) as [[i|]|e]; cbn [mbind result_bind]; [| |done].
  - unfold get_step. destruct (Store.steps (ParseState.store st) !! i) as [s|] eqn:Hi;
      cbn [mbind result_bind from_handle]; [|done].
    intros [= <-] _ Hsteps. simpl. by apply steps_inv_add_line.
  - apply read_line_steps_inv.
Qed.

Lemma parse_feature_lines_steps_inv (filename : str) (st st' : ParseState) (n : nat)
    (lines : list str) :
  parse_feature_lines filename st n lines = Ok st' → state_inv st →
  steps_inv (ParseState.store st) → steps_inv (ParseState.store st').
Proof.
  revert st n. induction lines as [|l lines IH]; intros st n; simpl.
  - by intros [= <-].
  - destruct (parse_feature_line filename st n l) as [st1|e] eqn:E; simpl; [|done].
    intros H Hinv Hsteps. eapply IH; [done| |].
    + by eapply parse_feature_line_inv.
    + by eapply parse_feature_line_steps_inv.
Qed.

(** X21: in a document that [parse_feature] returns, every step built
    has one of the three step types, whatever keyword its line starts
    with, and has exactly one owner: one scenario that lists it among its
    own steps, or one background that lists it, and the step refers back
    to that owner and to nothing else.  Every scenario and every
    background lists its steps in the order in which they were built,
    each once. *)
Theorem parsed_steps_owned (abs_filename rel_filename filename content : str) (h : Store) :
  parse_feature abs_filename rel_filename filename content = Ok h →
  (∀ j s, Store.steps h !! j = Some s → Step.type s ∈ STEP_TYPES ∧ step_owned h j s)
  ∧ (∀ i sc, Store.scenario_templates h !! i = Some sc →
       StronglySorted lt (ScenarioTemplate._steps sc))
  ∧ (∀ b bg, Store.backgrounds h !! b = Some bg → StronglySorted lt (Background.steps bg)).
Proof.
  unfold parse_feature.
  destruct (parse_feature_lines _ _ _ _) as [st|e] eqn:E; simpl; [|done].
  intros [= <-].
  apply parse_feature_lines_steps_inv in E as [H1 H2 H3]; [|apply initial_state_inv|].
  - split; [|split].
    + intros j s Hj. destruct (H1 j s Hj) as [? Ho]. split; [done|].
      by eapply step_owned_same.
    + intros i sc Hi. by apply (H2 i).
    + intros b bg Hb. by apply (H3 b).
  - split; simpl; [by intros j s ?|by intros i sc ?|by intros b bg ?].
Qed.

Lemma parsed_steps_owned_witness :
  (∀ j s, Store.steps (parsed background_file) !! j = Some s →
     Step.type s ∈ STEP_TYPES ∧ step_owned (parsed background_file) j s)
  ∧ (∀ i sc, Store.scenario_templates (parsed background_file) !! i = Some sc →
       StronglySorted lt (ScenarioTemplate._steps sc))
  ∧ (∀ b bg, Store.backgrounds (parsed background_file) !! b = Some bg →
       StronglySorted lt (Background.steps bg)).
Proof.
  apply (parsed_steps_owned abs_path rel_path file_name (str_join [LF] background_file)
           (parsed background_file)).
  vm_compute. reflexivity.
Defined.

(** ** The text of a step *)

Lemma split_lines_last (cur l : str) :
  LF ∉ l → str_split_from [LF] 0 cur l = [rev cur ++ l].
Proof.
  revert cur. induction l as [|c l IH]; intros cur Hno; simpl.
  - by rewrite app_nil_r.
  - apply not_elem_of_cons in Hno as [Hc Hno].
    destruct (Ascii.eqb_spec c LF) as [->|_]; [done|]. cbn [andb].
    rewrite IH by done. simpl. by rewrite <- app_assoc.
Qed.

Lemma split_lines_sep (cur l rest : str) :
  LF ∉ l →
  str_split_from [LF] 0 cur (l ++ LF :: rest) = (rev cur ++ l) :: str_split_from [LF] 0 [] rest.
Proof.
  revert cur. induction l as [|c l IH]; intros cur Hno; simpl.
  - by rewrite app_nil_r.
  - apply not_elem_of_cons in Hno as [Hc Hno].
    destruct (Ascii.eqb_spec c LF) as [->|_]; [done|]. cbn [andb].
    rewrite IH by done. simpl. by rewrite <- app_assoc.
Qed.

Lemma split_join_lines (ls : list str) :
  ls ≠ [] → Forall (fun l => LF ∉ l) ls → str_split [LF] (str_join [LF] ls) = ls.
Proof.
  unfold str_split. induction ls as [|l ls IH]; [done|]. intros _ Hall.
  apply Forall_cons in Hall as [Hl Hall]. destruct ls as [|l' ls].
  - simpl. by rewrite split_lines_last.
  - change (str_join [LF] (l :: l' :: ls)) with (l ++ LF :: str_join [LF] (l' :: ls)).
    rewrite split_lines_sep by done. simpl rev. rewrite app_nil_l. f_equal. by apply IH.
Qed.

Lemma str_join_snoc (sep : str) (ls : list str) (l : str) :
  ls ≠ [] → str_join sep (ls ++ [l]) = str_join sep ls ++ sep ++ l.
Proof.
  induction ls as [|a ls IH]; [done|]. intros _. destruct ls as [|b ls]; [done|].
  change (str_join sep ((a :: b :: ls) ++ [l])) with (a ++ sep ++ str_join sep ((b :: ls) ++ [l])).
  rewrite IH by done.
  change (str_join sep (a :: b :: ls)) with (a ++ sep ++ str_join sep (b :: ls)).
  by rewrite <- !app_assoc.
Qed.

Lemma startswith_app (a b : str) : startswith (a ++ b) a = true.
Proof.
  induction a as [|c a IH]; [done|]. simpl. by rewrite Ascii.eqb_refl, IH.
Qed.

Lemma is_blank_no_LF (margin : str) : forallb is_blank margin = true → LF ∉ margin.
Proof.
  induction margin as [|c m IH]; [intros _ ?%elem_of_nil; done|]. simpl.
  intros [Hc Hm]%andb_prop. apply not_elem_of_cons. split; [|by apply IH].
  intros <-. discriminate Hc.
Qed.

Lemma take_while_margin (margin x : str) :
  forallb is_blank margin = true →
  take_while is_blank (margin ++ x) = margin ++ take_while is_blank x.
Proof.
  induction margin as [|c m IH]; [done|]. simpl. intros [Hc Hm]%andb_prop.
  by rewrite Hc, IH.
Qed.

Lemma margin_kept (margin : str) (indents : list str) :
  Forall (fun i => startswith i margin = true) indents →
  foldl dedent_margin_step (Some margin) indents = Some margin.
Proof.
  induction 1 as [|i indents Hi _ IH]; [done|]. simpl. by rewrite Hi.
Qed.

Lemma emptied_margin (margin x : str) :
  forallb is_blank margin = true →
  emptied (margin ++ x) = if forallb is_blank x then [] else margin ++ x.
Proof. intros Hm. unfold emptied. by rewrite forallb_app, Hm. Qed.

Lemma indents_margin (margin : str) (xs : list str) :
  forallb is_blank margin = true →
  Forall (fun i => startswith i margin = true)
    (map (take_while is_blank) (filter (fun l => l ≠ []) (map emptied (map (app margin) xs)))).
Proof.
  intros Hm. induction xs as [|x xs IH]; [constructor|]. cbn [map].
  rewrite emptied_margin by done. destruct (forallb is_blank x) eqn:Hx.
  - by rewrite filter_cons_False by (intros H; by apply H).
  - assert (margin ++ x ≠ []) as Hne.
    { intros [_ ->]%app_eq_nil. discriminate Hx. }
    rewrite filter_cons_True by done. cbn [map]. constructor; [|done].
    rewrite take_while_margin by done. apply startswith_app.
Qed.

Lemma dedent_quoted_block (margin : str) (body : list str) :
  forallb is_blank margin = true →
  Forall (fun l => LF ∉ l) body →
  dedent (str_join [LF] (quoted_block margin body))
  = str_join [LF] (QUOTES :: map emptied body ++ [QUOTES]).
Proof.
  intros Hm Hbody. unfold dedent, quoted_block.
  rewrite split_join_lines.
  2: { done. }
  2: { apply Forall_forall. intros l (x & -> & Hx)%list_elem_of_fmap.
       intros [Hin|Hin]%elem_of_app; [by apply (is_blank_no_LF margin Hm)|].
       apply elem_of_cons in Hx as [->|Hx].
       - revert Hin. apply (bool_decide_unpack _). vm_compute. exact I.
       - apply elem_of_app in Hx as [Hx|Hx%list_elem_of_singleton].
         + by apply (proj1 (Forall_forall _ _) Hbody x Hx).
         + subst x. revert Hin. apply (bool_decide_unpack _). vm_compute. exact I. }
  fold emptied.
  assert (foldl dedent_margin_step None
            (map (take_while is_blank)
               (filter (fun l => l ≠ [])
                  (map emptied (map (app margin) (QUOTES :: body ++ [QUOTES])))))
          = Some margin) as ->.
  { pose proof (indents_margin margin (body ++ [QUOTES]) Hm) as Hrest.
    cbn [map]. rewrite emptied_margin by done.
    change (forallb is_blank QUOTES) with false. cbv iota.
    rewrite filter_cons_True
      by (intros E; apply (f_equal (@length ascii)) in E; rewrite length_app in E;
          simpl in E; lia).
    cbn [map foldl]. rewrite take_while_margin by done.
    change (take_while is_blank QUOTES) with (@nil ascii). rewrite app_nil_r.
    cbn [dedent_margin_step]. by apply margin_kept. }
  assert (map emptied (QUOTES :: body ++ [QUOTES]) = QUOTES :: map emptied body ++ [QUOTES])
    as Hq by (by rewrite map_cons, map_app).
  destruct margin as [|c m].
  - rewrite <- Hq. do 2 f_equal. clear. induction (QUOTES :: body ++ [QUOTES]); [done|].
    simpl. by f_equal.
  - rewrite <- Hq. f_equal. rewrite !map_map. apply map_ext. intros x.
    rewrite emptied_margin by done. unfold emptied. destruct (forallb is_blank x); [done|].
    rewrite startswith_app. by rewrite drop_app_length.
Qed.

Lemma remove_quotes_block (body : list str) :
  body ≠ [] →
  remove_multiline_quotes (str_join [LF] (QUOTES :: body ++ [QUOTES])) = str_join [LF] body.
Proof.
  intros Hne. destruct body as [|b body]; [done|].
  change (str_join [LF] (QUOTES :: (b :: body) ++ [QUOTES]))
    with (QUOTES ++ [LF] ++ str_join [LF] ((b :: body) ++ [QUOTES])).
  rewrite str_join_snoc by done. generalize (str_join [LF] (b :: body)). intros content.
  unfold remove_multiline_quotes.
  change (startswith (QUOTES ++ [LF] ++ content ++ [LF] ++ QUOTES) (QUOTES ++ [LF])) with true.
  cbv iota.
  change (drop 4 (QUOTES ++ [LF] ++ content ++ [LF] ++ QUOTES)) with (content ++ [LF] ++ QUOTES).
  assert (endswith (content ++ [LF] ++ QUOTES) (LF :: QUOTES) = true) as ->.
  { unfold endswith. rewrite rev_app_distr. apply startswith_app. }
  rewrite length_app. change (length ([LF] ++ QUOTES)) with 4.
  replace (length content + 4 - 4) with (length content) by lia.
  by rewrite take_app_length.
Qed.

(** X22: the text of a step whose single-line part is [text].  With no
    line under the step it is [text] without surrounding whitespace.
    With a block under the step that stands between two delimiter lines
    of three double quotes, every line behind the same margin of blanks
    and tabs, it is [text], a line feed and the lines of the block with
    the margin and the two delimiter lines removed (a line of blanks only
    made empty), the whole without surrounding whitespace. *)
Theorem Step_name_docstring (self : Step) (text margin first : str) (rest : list str) :
  Step._name self = Some text →
  forallb is_blank margin = true →
  Forall (fun l => LF ∉ l) (first :: rest) →
  Step_name (Step.set_lines [] self) = Ok (strip text)
  ∧ Step_name (Step.set_lines (quoted_block margin (first :: rest)) self)
    = Ok (strip (text ++ [LF] ++ str_join [LF] (map emptied (first :: rest)))).
Proof.
  intros Hname Hm Hbody. unfold Step_name. simpl Step.lines. simpl Step._name.
  rewrite Hname. split.
  - change (remove_multiline_quotes []) with (@nil ascii). simpl.
    f_equal. by apply (strip_chars_snoc isspace text LF).
  - change (match quoted_block margin (first :: rest) with
            | [] => []
            | _ :: _ => dedent (str_join [LF] (quoted_block margin (first :: rest)))
            end) with (dedent (str_join [LF] (quoted_block margin (first :: rest)))).
    rewrite dedent_quoted_block by done.
    rewrite (remove_quotes_block (map emptied (first :: rest))) by done.
    done.
Qed.

Lemma Step_name_docstring_witness :
  Step_name (Step.set_lines [] (named_step "  a document ")) = Ok "a document"
  ∧ Step_name (Step.set_lines
                 ["      " ++ QUOTES; "      first line"; "        second line"; "       ";
                  "      " ++ QUOTES]
                 (named_step "  a document "))
    = Ok ("a document " ++ [LF] ++ "first line" ++ [LF] ++ "  second line").
Proof.
  apply (Step_name_docstring (named_step "  a document ") "  a document " "      "
           "first line" ["  second line"; " "]).
  - reflexivity.
  - reflexivity.
  - repeat constructor; apply (bool_decide_unpack _); vm_compute; exact I.
Defined.

(** ** The validator on a parsed document whose references were changed *)

Lemma rebind_scenario_same (h : Store) (j : StepId) (s : Step) :
  Store.steps h !! j = Some s → rebind_scenario j (Step.scenario s) h = h.
Proof.
  intros Hj. unfold rebind_scenario, put_step. rewrite Hj.
  assert (Step.set_scenario (Step.scenario s) s = s) as -> by by destruct s.
  rewrite list_insert_id by done. by destruct h.
Qed.

Section Rebound.
Context (format_type : Mode → str).
Context (repr_scenario : Store → ScenarioId → result str).
Context (repr_background : Store → BackgroundId → result str).

(** X23: in a document that [parse_feature] returns, assigning to the
    attribute [scenario] of a step of a scenario of the collection is
    accepted by [Feature.validate] when the value is the scenario that
    lists the step, and makes it raise for every other value, [None]
    included; what it raises is then not the integrity error but
    [AttributeError], because the text of the integrity error names the
    step, whose text cannot be read. *)
Theorem validate_rebound_step (abs_filename rel_filename filename content : str)
    (h : Store) (name : str) (i : ScenarioId) (sc : ScenarioTemplate) (j : StepId)
    (other : option ScenarioId) :
  parse_feature abs_filename rel_filename filename content = Ok h →
  (name, i) ∈ Feature.scenarios (Store.feature h) →
  Store.scenario_templates h !! i = Some sc →
  j ∈ ScenarioTemplate._steps sc →
  Feature_validate format_type repr_scenario repr_background (rebind_scenario j other h)
  = if bool_decide (other = Some i) then Ok tt else Raise (AttributeError "Step" "_name").
Proof.
  intros Hp Hin Hi Hj. case_bool_decide as Hother.
  - pose proof (parse_feature_inv _ _ _ _ _ Hp) as Hinv.
    destruct (inv_scenarios h Hinv i sc Hi) as [_ Hsteps].
    destruct (Hsteps j Hj) as (s & Hs & Hsc & _).
    rewrite Hother, <- Hsc, (rebind_scenario_same h j s Hs).
    by apply Feature_validate_well_formed, store_inv_well_formed.
  - by eapply Feature_validate_rebound.
Qed.
End Rebound.

Lemma validate_rebound_step_witness :
  Feature_validate (fun _ => []) (fun _ _ => Ok []) (fun _ _ => Ok [])
    (rebind_scenario 0 (Some 1) (parsed two_scenarios_file))
  = Raise (AttributeError "Step" "_name").
Proof.
  apply (validate_rebound_step (fun _ => []) (fun _ _ => Ok []) (fun _ _ => Ok [])
           abs_path rel_path file_name (str_join [LF] two_scenarios_file)
           (parsed two_scenarios_file) "one" 0
           (ScenarioTemplate.mk (Some the_feature) "one" 2 false ∅ Examples.init [0]) 0 (Some 1)).
  - vm_compute. reflexivity.
  - vm_compute. by left.
  - vm_compute. reflexivity.
  - by left.
Defined.

(** ** The objects of a parsed document are distinct *)

Lemma background_numbers_put (h : Store) (b : BackgroundId) (bg bg' : Background) :
  Store.backgrounds h !! b = Some bg →
  Background.line_number bg' = Background.line_number bg →
  background_numbers (put_background b bg' h) = background_numbers h.
Proof.
  intros Hb Hl. unfold background_numbers, put_background. simpl.
  rewrite list_fmap_insert, Hl. apply list_insert_id.
  by rewrite list_lookup_fmap, Hb.
Qed.

Lemma add_step_backgrounds :
  (∀ sc j h h', ScenarioTemplate_add_step sc j h = Ok h' →
     background_numbers h' = background_numbers h)
  ∧ (∀ b j h h', Background_add_step b j h = Ok h' →
       background_numbers h' = background_numbers h).
Proof.
  split; intros x j h h'; unfold ScenarioTemplate_add_step, Background_add_step,
    get_step, get_scenario, get_background.
  - destruct (Store.steps h !! j); simpl; [|done].
    destruct (Store.scenario_templates h !! x); simpl; [|done].
    by intros [= <-].
  - destruct (Store.steps h !! j); simpl; [|done].
    destruct (Store.backgrounds h !! x) as [bg|] eqn:Hx; simpl; [|done].
    intros [= <-]. by rewrite (background_numbers_put (put_step j _ h) x bg).
Qed.

Lemma build_line_backgrounds (n indent : nat) (stripped keyword parsed : str)
    (prev_line : option str) (mode : option Mode) (scenario : option ScenarioId)
    (h h' : Store) (sc' : option ScenarioId) (m' : option Mode) (s' : option StepId) :
  build_line n indent stripped keyword parsed prev_line mode scenario h = Ok (h', sc', m', s') →
  background_numbers h' = background_numbers h ++ [n]
  ∨ background_numbers h' = background_numbers h.
Proof.
  destruct add_step_backgrounds as [Hs Hb].
  unfold build_line. intros H.
  destruct mode as [[]|]; cbn -[Background_add_step ScenarioTemplate_add_step get_scenario] in H.
  all: try (injection H as <- <- <- <-; right; done).
  all: try (injection H as <- <- <- <-; left;
            unfold background_numbers; simpl; by rewrite fmap_app).
  all: try (destruct scenario as [i|]; [|done]; unfold get_scenario in H;
            destruct (Store.scenario_templates h !! i) as [sc|] eqn:Hi; simplify_eq/=;
            right; done).
  all: destruct (Feature.background (Store.feature h)) as [b|], scenario as [sc|]; try done.
  all: match type of H with
       | context [ScenarioTemplate_add_step ?a ?b ?c] =>
           destruct (ScenarioTemplate_add_step a b c) as [h1|] eqn:E; simplify_eq/=;
           right; by rewrite (Hs _ _ _ _ E)
       | context [Background_add_step ?a ?b ?c] =>
           destruct (Background_add_step a b c) as [h1|] eqn:E; simplify_eq/=;
           right; by rewrite (Hb _ _ _ _ E)
       end.
Qed.

Lemma parse_feature_line_backgrounds (filename : str) (st st' : ParseState) (n : nat)
    (line : str) :
  parse_feature_line filename st n line = Ok st' →
  background_numbers (ParseState.store st') = background_numbers (ParseState.store st) ++ [n]
  ∨ background_numbers (ParseState.store st') = background_numbers (ParseState.store st).
Proof.
  unfold parse_feature_line.
  destruct (continues_step st line) as [[i|]|e]; cbn [mbind result_bind]; [| |done].
  { destruct (get_step _ _); cbn [mbind result_bind]; [|done]. intros [= <-]. by right. }
  rewrite read_line_resolved. cbv zeta.
  destruct (_ && _); [intros [= <-]; by right|].
  destruct (_ && _ && _); [done|].
  destruct (bool_decide (resolved_mode st line = Some FEATURE)).
  - destruct (feature_mode_line _ _ _ _ _ _ _) as [[d h1]|e1] eqn:Hf;
      cbn [mbind result_bind]; [|done].
    assert (Store.backgrounds h1 = Store.backgrounds (ParseState.store st)) as Hbgs.
    { revert Hf. unfold feature_mode_line.
      destruct (ParseState.prev_mode st) as [[]|]; intros; by simplify_eq. }
    destruct (build_line _ _ _ _ _ _ _ _ _) as [[[[h2 sc] m] stp]|e2] eqn:Hb;
      cbn [mbind result_bind]; [|done].
    intros [= <-]. simpl. apply build_line_backgrounds in Hb.
    unfold background_numbers in *. by rewrite Hbgs in Hb.
  - cbn [mbind result_bind].
    destruct (build_line _ _ _ _ _ _ _ _ _) as [[[[h2 sc] m] stp]|e2] eqn:Hb;
      cbn [mbind result_bind]; [|done].
    intros [= <-]. simpl. by apply build_line_backgrounds in Hb.
Qed.

Lemma parse_feature_lines_backgrounds (filename : str) (st st' : ParseState) (n : nat)
    (lines : list str) :
  parse_feature_lines filename st n lines = Ok st' →
  ∃ new, background_numbers (ParseState.store st')
         = background_numbers (ParseState.store st) ++ new
         ∧ sublist new (seq n (length lines)).
Proof.
  revert st n. induction lines as [|l lines IH]; intros st n; simpl.
  - intros [= <-]. exists []. by rewrite app_nil_r.
  - destruct (parse_feature_line filename st n l) as [st1|e] eqn:E; simpl; [|done].
    intros H. apply IH in H as (new & Hid & Hsub).
    apply parse_feature_line_backgrounds in E as [Hid1|Hid1].
    + exists (n :: new). split; [by rewrite Hid, Hid1, <- app_assoc|by apply sublist_skip].
    + exists new. split; [by rewrite Hid, Hid1|by apply sublist_cons].
Qed.

Lemma sublist_seq_distinct (n len : nat) (new : list nat) (i j : nat) (a b : nat) :
  sublist new (seq n len) → i ≠ j → new !! i = Some a → new !! j = Some b → a ≠ b.
Proof.
  intros Hsub Hij Hi Hj Hab. subst b.
  assert (NoDup new) as Hnd by (eapply sublist_NoDup; [apply NoDup_seq|exact Hsub]).
  by rewrite (NoDup_lookup new i j a Hnd Hi Hj) in Hij.
Qed.

(** The scenarios of a parsed document differ in their line numbers, and
    so do its backgrounds: no two of them are equal objects. *)
Lemma parsed_distinct_objects (abs_filename rel_filename filename content : str) (h : Store) :
  parse_feature abs_filename rel_filename filename content = Ok h → distinct_objects h.
Proof.
  unfold parse_feature.
  destruct (parse_feature_lines _ _ _ _) as [st|e] eqn:E; simpl; [|done].
  intros [= <-]. split; simpl.
  - apply parse_feature_lines_scenarios in E as (new & Hid & Hsub & _).
    simpl in Hid. unfold scenario_idents in Hid.
    intros i j sc sc' Hi Hj Hij [= Hname Hnumber].
    assert (∀ i j sc sc', i < j →
              Store.scenario_templates (ParseState.store st) !! i = Some sc →
              Store.scenario_templates (ParseState.store st) !! j = Some sc' →
              ScenarioTemplate.line_number sc < ScenarioTemplate.line_number sc') as Hlt.
    { intros i0 j0 sc0 sc0' Hlt Hi0 Hj0.
      apply (numbered_from_increasing 1 (splitlines content) new i0 j0
               (ScenarioTemplate.name sc0, ScenarioTemplate.line_number sc0)
               (ScenarioTemplate.name sc0', ScenarioTemplate.line_number sc0') Hsub Hlt).
      - by rewrite <- Hid, list_lookup_fmap, Hi0.
      - by rewrite <- Hid, list_lookup_fmap, Hj0. }
    destruct (Nat.lt_total i j) as [Hlt'|[?|Hlt']]; [|done|].
    + pose proof (Hlt i j sc sc' Hlt' Hi Hj). lia.
    + pose proof (Hlt j i sc' sc Hlt' Hj Hi). lia.
  - apply parse_feature_lines_backgrounds in E as (new & Hid & Hsub).
    simpl in Hid. unfold background_numbers in Hid. simpl in Hid.
    intros b b' bg bg' Hb Hb' Hne.
    apply (sublist_seq_distinct 1 (length (splitlines content)) new b b' _ _ Hsub Hne).
    + by rewrite <- Hid, list_lookup_fmap, Hb.
    + by rewrite <- Hid, list_lookup_fmap, Hb'.
Qed.

Lemma Feature_validate_accepts_witness :
  Feature_validate (fun _ => []) (fun _ _ => Ok []) (fun _ _ => Ok []) (parsed background_file)
  = Ok tt
  ↔ well_formed (parsed background_file).
Proof.
  apply (Feature_validate_accepts (fun _ => []) (fun _ _ => Ok []) (fun _ _ => Ok [])
           (parsed background_file)).
  apply (parsed_distinct_objects abs_path rel_path file_name (str_join [LF] background_file)).
  vm_compute. reflexivity.
Defined.
